(** * Conway's Game of Life engine (src/src/main.ts): embedding and properties

    The class [Life] of main.ts is embedded with an explicit heap.  A value
    of TypeScript type [Grid = number[][]] is a reference to an outer array
    whose elements are references to row arrays; both kinds of array are
    mutable objects, so that aliasing between the live grid, the grid under
    construction and the rows is a matter of proof and not of modelling.

    Numbers of the program are integers here ([Z]): widths, heights,
    coordinates, cell values and counts.  Their sums are the sums of the
    integers, which is what the code computes as long as the operands and
    the sum are safe integers, below 2^53 in magnitude; the properties about
    coordinates outside the grid state this range.  The two non-integer
    outcomes the engine can produce, [NaN] and [undefined], are kept
    explicit, and so are the two exceptions it can raise.  Memory is
    unbounded. *)

From stdpp Require Import base numbers option list strings gmap fin_maps fin_sets.
From Stdlib Require Import ZArith QArith Lia.

Local Open Scope Z_scope.

(** ** JavaScript values and outcomes *)

(** A number that is an integer, or NaN. *)
Inductive jsnum : Type :=
| Num (z : Z)
| NaN.

(** [a % b]: the remainder has the sign of the dividend; [% 0] is NaN. *)
Definition jsrem (a b : Z) : jsnum :=
  if b =? 0 then NaN else Num (Z.rem a b).

(** [n === k] for a number [n] and an integer literal [k]. *)
Definition jsnum_is (n : jsnum) (k : Z) : bool :=
  match n with
  | Num z => z =? k
  | NaN => false
  end.

(** [v === k] for the result [v] of an element read ([None] is undefined). *)
Definition elem_is (v : option Z) (k : Z) : bool :=
  match v with
  | Some z => z =? k
  | None => false
  end.

(** [count += v]: adding undefined, or adding to NaN, gives NaN. *)
Definition jsadd (count : jsnum) (v : option Z) : jsnum :=
  match count, v with
  | Num c, Some z => Num (c + z)
  | _, _ => NaN
  end.

(** Exceptions.  [Dangling] is not a JavaScript outcome: it marks a reference
    to no object, which a program cannot build and well-formed heaps exclude. *)
Inductive error : Type :=
| TypeError
| RangeError
| Dangling.

Inductive result (A : Type) : Type :=
| Ok (a : A)
| Throw (e : error).
Arguments Ok {A} a.
Arguments Throw {A} e.

#[global] Instance result_ret : MRet result := λ A a, Ok a.
#[global] Instance result_bind : MBind result := λ A B f m,
  match m with
  | Ok a => f a
  | Throw e => Throw e
  end.

Definition failed {A} (r : result A) : Prop :=
  match r with
  | Ok _ => False
  | Throw _ => True
  end.

(** ** Arrays and the heap *)

(** An array object: its properties keyed by integer, and its [length]. *)
Record jsarray (V : Type) : Type := JsArray {
  props : gmap Z V;
  alength : Z
}.
Arguments JsArray {V} props alength.
Arguments props {V} j.
Arguments alength {V} j.

Definition MAX_ARRAY_LENGTH : Z := 4294967295.

(** [a[i]] for reading; a missing property reads as undefined. *)
Definition get_prop {V} (a : jsarray V) (i : jsnum) : option V :=
  match i with
  | Num z => props a !! z
  | NaN => None
  end.

(** [a[i] = v]: the property is created when absent, and [length] grows to
    cover an array index. *)
Definition set_prop {V} (a : jsarray V) (i : Z) (v : V) : jsarray V :=
  {| props := <[i := v]> (props a);
     alength := if (0 <=? i) && (i <? MAX_ARRAY_LENGTH)
                then Z.max (alength a) (i + 1) else alength a |}.

(** Properties [i, i+1, ..., i+n-1], all set to [v]. *)
Fixpoint fill_from {V} (v : V) (i : Z) (n : nat) : gmap Z V :=
  match n with
  | O => ∅
  | S k => <[i := v]> (fill_from v (i + 1) k)
  end.

(** [new Array(n).fill(v)]: RangeError unless [n] is a valid array length. *)
Definition new_Array_fill {V} (n : Z) (v : V) : result (jsarray V) :=
  if (n <? 0) || (MAX_ARRAY_LENGTH <? n) then Throw RangeError
  else Ok {| props := fill_from v 0 (Z.to_nat n); alength := n |}.

(** References to objects. *)
Abbreviation loc := positive.

Record heap : Type := Heap {
  rows : gmap loc (jsarray Z);
  grids : gmap loc (jsarray loc)
}.

Definition empty_heap : heap := {| rows := ∅; grids := ∅ |}.

Definition alloc_row (a : jsarray Z) (h : heap) : loc * heap :=
  let r := fresh (dom (rows h)) in
  (r, {| rows := <[r := a]> (rows h); grids := grids h |}).

Definition alloc_grid (a : jsarray loc) (h : heap) : loc * heap :=
  let g := fresh (dom (grids h)) in
  (g, {| rows := rows h; grids := <[g := a]> (grids h) |}).

(** [g[y] = r] for a grid reference [g]. *)
Definition grid_set_row (h : heap) (g : loc) (y : Z) (r : loc) : result heap :=
  match grids h !! g with
  | None => Throw Dangling
  | Some ga => Ok {| rows := rows h; grids := <[g := set_prop ga y r]> (grids h) |}
  end.

(** [g[y][x]] for reading: TypeError when [g[y]] is undefined. *)
Definition cell_read (h : heap) (g : loc) (y x : jsnum) : result (option Z) :=
  match grids h !! g with
  | None => Throw Dangling
  | Some ga =>
      match get_prop ga y with
      | None => Throw TypeError
      | Some r =>
          match rows h !! r with
          | None => Throw Dangling
          | Some ra => Ok (get_prop ra x)
          end
      end
  end.

(** [g[y][x] = v]. *)
Definition cell_write (h : heap) (g : loc) (y x : Z) (v : Z) : result heap :=
  match grids h !! g with
  | None => Throw Dangling
  | Some ga =>
      match props ga !! y with
      | None => Throw TypeError
      | Some r =>
          match rows h !! r with
          | None => Throw Dangling
          | Some ra =>
              Ok {| rows := <[r := set_prop ra x v]> (rows h); grids := grids h |}
          end
      end
  end.

(** [for (let i = i0; ...; i++)] run for [n] iterations, threading the
    variables the body assigns. *)
Fixpoint for_loop {St} (n : nat) (i : Z) (body : Z → St → result St) (s : St)
  : result St :=
  match n with
  | O => Ok s
  | S k => s' ← body i s; for_loop k (i + 1) body s'
  end.

(** [for (let i = 0; i < hi; i++)]. *)
Definition for_upto {St} (hi : Z) (body : Z → St → result St) (s : St)
  : result St :=
  for_loop (Z.to_nat hi) 0 body s.

(** ** class Life *)

Record Life : Type := MkLife {
  width : Z;
  height : Z;
  cells : loc;
  wrap : bool
}.

Definition with_cells (this : Life) (g : loc) : Life :=
  {| width := width this; height := height this; cells := g; wrap := wrap this |}.

(** [createEmpty()]; of [this] it reads only the fields [width] and
    [height], which it takes as arguments here so that the constructor can
    call it before [cells] is set. *)
Definition createEmpty (this_width this_height : Z) (h : heap)
  : result (loc * heap) :=
  let '(g, h0) := alloc_grid {| props := ∅; alength := 0 |} h in
  h1 ← for_upto this_height (λ y hh,
          a ← new_Array_fill this_width 0;
          let '(r, hh1) := alloc_row a hh in
          grid_set_row hh1 g y r) h0;
  Ok (g, h1).

(** [new Life(width, height, wrap)]. *)
Definition Life_new (w ht : Z) (wr : bool) (h : heap) : result (Life * heap) :=
  '(g, h1) ← createEmpty w ht h;
  Ok ({| width := w; height := ht; cells := g; wrap := wr |}, h1).

(** [clear()]. *)
Definition clear (this : Life) (h : heap) : result (Life * heap) :=
  '(g, h1) ← createEmpty (width this) (height this) h;
  Ok (with_cells this g, h1).

(** [inBounds(x, y)]. *)
Definition inBounds (this : Life) (x y : Z) : bool :=
  (x >=? 0) && (x <? width this) && (y >=? 0) && (y <? height this).

(** [getWrapped(x, y)], for coordinates whose sums with the dimensions are
    safe integers: further out the sums of the code round. *)
Definition getWrapped (this : Life) (h : heap) (x y : Z) : result (option Z) :=
  let wx := jsrem (x + width this) (width this) in
  let wy := jsrem (y + height this) (height this) in
  cell_read h (cells this) wy wx.

(** The body of the inner loop of [countNeighbors], at offsets [dy], [dx]. *)
Definition countNeighbors_body (this : Life) (h : heap) (x y : Z)
    (dy dx : Z) (count : jsnum) : result jsnum :=
  if (dx =? 0) && (dy =? 0) then Ok count
  else
    let nx := x + dx in
    let ny := y + dy in
    if wrap this then
      v ← getWrapped this h nx ny;
      Ok (jsadd count v)
    else if inBounds this nx ny then
      v ← cell_read h (cells this) (Num ny) (Num nx);
      Ok (jsadd count v)
    else Ok count.

(** [countNeighbors(x, y)]; it reads the heap and writes nothing. *)
Definition countNeighbors (this : Life) (h : heap) (x y : Z) : result jsnum :=
  for_loop 3 (-1) (λ dy count,
    for_loop 3 (-1) (countNeighbors_body this h x y dy) count) (Num 0).

(** The next state of a cell from its state and its neighbour count. *)
Definition next_state (c : option Z) (n : jsnum) : Z :=
  let alive := elem_is c 1 in
  if alive then (if jsnum_is n 2 || jsnum_is n 3 then 1 else 0)
  else (if jsnum_is n 3 then 1 else 0).

(** [nextGeneration()]: the new grid, the population, and the updated
    object and heap. *)
Definition nextGeneration (this : Life) (h : heap)
  : result (loc * Z * Life * heap) :=
  '(newCells, h0) ← createEmpty (width this) (height this) h;
  '(population, h1) ← for_upto (height this) (λ y s,
      for_upto (width this) (λ x '(population, hh),
        n ← countNeighbors this hh x y;
        c ← cell_read hh (cells this) (Num y) (Num x);
        let next := next_state c n in
        hh1 ← cell_write hh newCells y x next;
        Ok (population + next, hh1)) s) (0, h0);
  Ok (newCells, population, with_cells this newCells, h1).

(** [randomize(prob)].  [Math.random()] is the stream [draws], read at a
    position that the call advances; a draw and [prob] are rationals. *)
Definition randomize (draws : nat → Q) (this : Life) (prob : Q)
    (k : nat) (h : heap) : result (nat * heap) :=
  for_upto (height this) (λ y s,
    for_upto (width this) (λ x '(k, hh),
      let v := if Qlt_le_dec (draws k) prob then 1 else 0 in
      hh1 ← cell_write hh (cells this) y x v;
      Ok (S k, hh1)) s) (k, h).

(** ** The canvas click (class Renderer and class App) *)

(** [xyFromEvent(ev)], from the cell coordinates [x] and [y] on, which it
    computes from the event with [Math.floor] and which are integers here. *)
Definition xyFromEvent (life : Life) (x y : Z) : option (Z * Z) :=
  if (x <? 0) || (x >=? width life) || (y <? 0) || (y >=? height life)
  then None else Some (x, y).

(** The click listener of the canvas, which toggles the cell that
    [xyFromEvent] gives and returns at once when it gives null. *)
Definition toggle (life : Life) (h : heap) (x y : Z) : result heap :=
  match xyFromEvent life x y with
  | None => Ok h
  | Some (x, y) =>
      c ← cell_read h (cells life) (Num y) (Num x);
      cell_write h (cells life) y x (if elem_is c 1 then 0 else 1)
  end.

(** ** Views, shapes and the spec-level functions *)

(** The state of cell [(x, y)] of grid [g]: the number [g[y][x]] reads, and
    0 where the read yields no number. *)
Definition cellAt (h : heap) (g : loc) (x y : Z) : Z :=
  match cell_read h g (Num y) (Num x) with
  | Ok (Some v) => v
  | _ => 0
  end.

(** An array without holes and without other integer properties. *)
Definition dense {V} (a : jsarray V) : Prop :=
  ∀ i, is_Some (props a !! i) ↔ 0 ≤ i < alength a.

Definition row_ok (w : Z) (ra : jsarray Z) : Prop :=
  dense ra ∧ alength ra = w ∧ ∀ x v, props ra !! x = Some v → v = 0 ∨ v = 1.

(** [g] refers to a grid of [ht] rows of [w] cells, every cell 0 or 1, the
    rows being pairwise distinct objects. *)
Definition grid_ok (h : heap) (w ht : Z) (g : loc) : Prop :=
  ∃ ga, grids h !! g = Some ga ∧ dense ga ∧ alength ga = ht ∧
    (∀ y r, props ga !! y = Some r → ∃ ra, rows h !! r = Some ra ∧ row_ok w ra) ∧
    (∀ y1 y2 r, props ga !! y1 = Some r → props ga !! y2 = Some r → y1 = y2).

(** The invariant of an engine in a heap: the constructor establishes it
    for dimensions that are array lengths, and [nextGeneration], [clear],
    [randomize] and the toggle keep it. *)
Definition wf (h : heap) (this : Life) : Prop :=
  0 ≤ width this ≤ MAX_ARRAY_LENGTH ∧ 0 ≤ height this ≤ MAX_ARRAY_LENGTH ∧
  grid_ok h (width this) (height this) (cells this).

(** Every object of [h] is in [hh], unchanged. *)
Definition heap_le (h hh : heap) : Prop :=
  rows h ⊆ rows hh ∧ grids h ⊆ grids hh.

(** Grid [g] of [hh] and its rows are objects that [h] does not hold. *)
Definition grid_new (h hh : heap) (g : loc) : Prop :=
  grids h !! g = None ∧
  ∀ ga y r, grids hh !! g = Some ga → props ga !! y = Some r → rows h !! r = None.

(** Sum of [f 0], ..., [f (n-1)]. *)
Fixpoint sum_upto (f : Z → Z) (n : nat) : Z :=
  match n with
  | O => 0
  | S k => sum_upto f k + f (Z.of_nat k)
  end.

(** The number of ALIVE cells of a view, over [w] columns and [ht] rows. *)
Definition population (c : Z → Z → Z) (w ht : Z) : Z :=
  sum_upto (λ y, sum_upto (λ x, if c x y =? 1 then 1 else 0) (Z.to_nat w))
           (Z.to_nat ht).

(** The number of ALIVE cells of a [w] by [ht] grid. *)
Definition population_of (h : heap) (g : loc) (w ht : Z) : Z :=
  population (cellAt h g) w ht.

(** The eight offsets of the Moore neighbourhood, as [(dx, dy)]. *)
Definition moore : list (Z * Z) :=
  [(-1, -1); (0, -1); (1, -1); (-1, 0); (1, 0); (-1, 1); (0, 1); (1, 1)].

(** Where the neighbour at offset [(dx, dy)] of [(x, y)] lies: reduced
    modulo the dimensions on a torus, nowhere when outside a bounded grid. *)
Definition neighbor_pos (wr : bool) (w ht x y : Z) (d : Z * Z) : option (Z * Z) :=
  let nx := x + d.1 in
  let ny := y + d.2 in
  if wr then Some (nx `mod` w, ny `mod` ht)
  else if bool_decide (0 ≤ nx < w ∧ 0 ≤ ny < ht) then Some (nx, ny)
  else None.

Definition neighbor_alive (c : Z → Z → Z) (wr : bool) (w ht x y : Z)
    (d : Z * Z) : bool :=
  match neighbor_pos wr w ht x y d with
  | Some (nx, ny) => c nx ny =? 1
  | None => false
  end.

(** The number of offsets of the Moore neighbourhood that lead to an ALIVE
    cell of the view [c]. *)
Definition alive_neighbors (c : Z → Z → Z) (wr : bool) (w ht x y : Z) : Z :=
  Z.of_nat (length (filter (λ d, neighbor_alive c wr w ht x y d = true) moore)).

(** Conway's rule on a view. *)
Definition rule (c : Z → Z → Z) (wr : bool) (w ht x y : Z) : Z :=
  let n := alive_neighbors c wr w ht x y in
  if c x y =? 1 then (if (n =? 2) || (n =? 3) then 1 else 0)
  else (if n =? 3 then 1 else 0).

(** ** Invariants of the loops *)

(** The state of the loop of [createEmpty] after [y] rows. *)
Definition building (h : heap) (g : loc) (w : Z) (y : Z) (hh : heap) : Prop :=
  rows h ⊆ rows hh ∧
  ∃ ga, grids hh = <[g := ga]> (grids h) ∧ dense ga ∧ alength ga = y ∧
    (∀ y' r, props ga !! y' = Some r →
       rows h !! r = None ∧
       ∃ ra, rows hh !! r = Some ra ∧ row_ok w ra ∧
             ∀ x v, props ra !! x = Some v → v = 0) ∧
    (∀ y1 y2 r, props ga !! y1 = Some r → props ga !! y2 = Some r → y1 = y2).

(** The state of the sweep of [nextGeneration] when it reaches cell [(x, y)]:
    the objects of the heap [h] it started from are unchanged, the cells
    before [(x, y)] in sweep order hold the rule's verdict on the grid of
    [h], the others are still 0, and [population] counts the new grid. *)
Definition sweeping (h : heap) (this : Life) (g : loc) (y x : Z)
    (s : Z * heap) : Prop :=
  let '(population, hh) := s in
  heap_le h hh ∧ grid_new h hh g ∧
  grid_ok hh (width this) (height this) g ∧
  (∀ x' y', cellAt hh g x' y' =
     if bool_decide (0 ≤ x' < width this ∧ 0 ≤ y' ∧ (y' < y ∨ (y' = y ∧ x' < x)))
     then rule (cellAt h (cells this)) (wrap this) (width this) (height this) x' y'
     else 0) ∧
  population = population_of hh g (width this) (height this).

Section RandomSource.
Variable draws : nat → Q.
Variable this : Life.
Variable prob : Q.
Variable k : nat.
Variable h : heap.

(** The cell that the draw at position [i] of the stream decides. *)
Definition drawn (i : Z) : Z :=
  if Qlt_le_dec (draws (Z.to_nat i)) prob then 1 else 0.

(** The state of the sweep of [randomize] when it reaches cell [(x, y)]. *)
Definition randomizing (y x : Z) (s : nat * heap) : Prop :=
  let '(k', hh) := s in
  wf hh this ∧ grids hh = grids h ∧
  Z.of_nat k' = Z.of_nat k + y * width this + x ∧
  ∀ x' y', 0 ≤ x' < width this → 0 ≤ y' → y' < y ∨ (y' = y ∧ x' < x) →
    cellAt hh (cells this) x' y' = drawn (Z.of_nat k + y' * width this + x').
End RandomSource.

(** ** Engines built by the program, and their alive sets *)

(** [new Life(w, ht, wr)] in the empty heap, then a click on each cell of
    [cs] in turn. *)
Definition build (w ht : Z) (wr : bool) (cs : list (Z * Z)) : result (Life * heap) :=
  '(life, h) ← Life_new w ht wr empty_heap;
  h' ← foldl (λ r c, h ← r; toggle life h c.1 c.2) (Ok h) cs;
  Ok (life, h').

Definition engine_of (r : result (Life * heap)) : Life * heap :=
  match r with
  | Ok e => e
  | Throw _ => (MkLife 0 0 1%positive false, empty_heap)
  end.

(** The ALIVE cells of the grid of [this] are exactly those of [cs]. *)
Definition alive_set (h : heap) (this : Life) (cs : list (Z * Z)) : Prop :=
  ∀ x y, 0 ≤ x < width this → 0 ≤ y < height this →
    (cellAt h (cells this) x y = 1 ↔ (x, y) ∈ cs).

Definition alive_set_check (h : heap) (this : Life) (cs : list (Z * Z)) : bool :=
  forallb (λ y,
    forallb (λ x, bool_decide (cellAt h (cells this) x y = 1 ↔ (x, y) ∈ cs))
            (seqZ 0 (width this)))
    (seqZ 0 (height this)).

(** The arrays of grid [g] have lengths [ht] (outer) and [w] (each row). *)
Definition has_dims (h : heap) (g : loc) (w ht : Z) : Prop :=
  ∃ ga, grids h !! g = Some ga ∧ alength ga = ht ∧
    ∀ y, 0 ≤ y < ht →
      ∃ r ra, props ga !! y = Some r ∧ rows h !! r = Some ra ∧ alength ra = w.

(** Engines used as concrete inputs, as [build] leaves them. *)
Definition corner_3x3_wrap : Life * heap :=
  Eval vm_compute in engine_of (build 3 3 true [(0, 0)]).
Definition corner_3x3_flat : Life * heap :=
  Eval vm_compute in engine_of (build 3 3 false [(0, 0)]).
Definition blinker_5x5 : Life * heap :=
  Eval vm_compute in engine_of (build 5 5 false [(1, 2); (2, 2); (3, 2)]).
Definition glider_4x4 : Life * heap :=
  Eval vm_compute in
    engine_of (build 4 4 true [(1, 0); (2, 1); (0, 2); (1, 2); (2, 2)]).

(** A stream of draws in [0, 1): 0, 1/7, ..., 6/7, 0, ... *)
Definition sevenths (i : nat) : Q := (Z.of_nat i `mod` 7) # 7.

(** ** The rest of class Life *)

(** [a.slice()]: a new array of the length of [a], with the elements that
    [a] has at its indices below that length. *)
Definition slice {V} (a : jsarray V) : jsarray V :=
  {| props := filter (λ kv, 0 ≤ kv.1 < alength a) (props a);
     alength := alength a |}.

(** [cloneCells()], that is [this.cells.map(row => row.slice())]: [map]
    makes an array of the length of [cells] and, for each index that [cells]
    has below this length, stores there what the callback returns. *)
Definition cloneCells (this : Life) (h : heap) : result (loc * heap) :=
  match grids h !! cells this with
  | None => Throw Dangling
  | Some ga =>
      let len := alength ga in
      let '(g, h0) := alloc_grid {| props := ∅; alength := len |} h in
      h1 ← for_upto len (λ k hh,
             match grids hh !! cells this with
             | None => Throw Dangling
             | Some ga1 =>
                 match props ga1 !! k with
                 | None => Ok hh
                 | Some r =>
                     match rows hh !! r with
                     | None => Throw Dangling
                     | Some ra =>
                         let '(r', hh1) := alloc_row (slice ra) hh in
                         grid_set_row hh1 g k r'
                     end
                 end
             end) h0;
      Ok (g, h1)
  end.

(** The state of the loop of [map] in [cloneCells] after [k] rows. *)
Definition cloning (h : heap) (w : Z) (ga : jsarray loc) (g : loc) (k : Z)
    (hh : heap) : Prop :=
  rows h ⊆ rows hh ∧
  ∃ ga', grids hh = <[g := ga']> (grids h) ∧ alength ga' = alength ga ∧
    (∀ i, is_Some (props ga' !! i) ↔ 0 ≤ i < k) ∧
    (∀ i r', props ga' !! i = Some r' →
       rows h !! r' = None ∧
       ∃ r ra, props ga !! i = Some r ∧ rows h !! r = Some ra ∧
               row_ok w ra ∧ rows hh !! r' = Some ra) ∧
    (∀ i1 i2 r', props ga' !! i1 = Some r' → props ga' !! i2 = Some r' → i1 = i2).

(** More engines used as concrete inputs. *)
Definition empty_3x2 : Life * heap :=
  Eval vm_compute in engine_of (build 3 2 true []).
Definition uniform_3x2 : Life * heap :=
  Eval vm_compute in
    engine_of (build 3 2 true [(0, 0); (1, 0); (2, 0); (0, 1); (1, 1); (2, 1)]).
Definition block_4x4 : Life * heap :=
  Eval vm_compute in engine_of (build 4 4 false [(1, 1); (2, 1); (1, 2); (2, 2)]).

(** ** class Renderer *)

(** A call on the 2d context of the canvas, or an assignment to one of its
    properties.  Coordinates are rationals: products of integers, and for
    the grid lines such a product plus 0.5. *)
Inductive ctx_call : Type :=
| clearRect (x y w h : Q)
| set_fillStyle (c : string)
| fillRect (x y w h : Q)
| set_strokeStyle (c : string)
| set_lineWidth (w : Q)
| beginPath
| moveTo (x y : Q)
| lineTo (x y : Q)
| stroke.

Definition aliveColor : string := "#222".
Definition deadColor : string := "#ffffff".
Definition gridColor : string := "#e6e6e6".

(** What [canvas.width] (default 300) or [canvas.height] (default 150)
    holds after it is assigned the integer [v]: the attribute is an unsigned
    long, so [v] is reduced modulo 2^32, and it keeps the default when the
    result is above 2^31 - 1. *)
Definition canvas_dim (v default : Z) : Z :=
  let u := v `mod` 4294967296 in
  if u <=? 2147483647 then u else default.

(** The calls of [draw] for an ALIVE cell, and for a grid line. *)
Definition cell_square (cellSize x y : Z) : list ctx_call :=
  [set_fillStyle aliveColor;
   fillRect (inject_Z (x * cellSize)) (inject_Z (y * cellSize))
            (inject_Z cellSize) (inject_Z cellSize)].

Definition vertical_line (cellSize h x : Z) : list ctx_call :=
  [beginPath;
   moveTo (inject_Z (x * cellSize) + (1 # 2))%Q 0%Q;
   lineTo (inject_Z (x * cellSize) + (1 # 2))%Q (inject_Z (h * cellSize));
   stroke].

Definition horizontal_line (cellSize w y : Z) : list ctx_call :=
  [beginPath;
   moveTo 0%Q (inject_Z (y * cellSize) + (1 # 2))%Q;
   lineTo (inject_Z (w * cellSize)) (inject_Z (y * cellSize) + (1 # 2))%Q;
   stroke].

Module Renderer.

(** The fields of a renderer, the canvas being given by its two dimensions
    and by the calls made on its context since it was last sized.  The field
    [life] refers to the engine that the application holds too: it is an
    argument of the methods here. *)
Record t : Type := Make {
  canvas_width : Z;
  canvas_height : Z;
  calls : list ctx_call;
  cellSize : Z
}.

(** [resizeCanvas()]; sizing a canvas clears it and resets its context. *)
Definition resizeCanvas (life : Life) (r : t) : t :=
  {| canvas_width := canvas_dim (width life * cellSize r) 300;
     canvas_height := canvas_dim (height life * cellSize r) 150;
     calls := [];
     cellSize := cellSize r |}.

(** [new Renderer(canvas, life, cellSize)], for a canvas that has a 2d
    context. *)
Definition new (canvas_width canvas_height : Z) (life : Life) (cellSize : Z) : t :=
  resizeCanvas life
    {| canvas_width := canvas_width; canvas_height := canvas_height;
       calls := []; cellSize := cellSize |}.

(** [setCellSize(s)]. *)
Definition setCellSize (life : Life) (s : Z) (r : t) : t :=
  resizeCanvas life
    {| canvas_width := canvas_width r; canvas_height := canvas_height r;
       calls := calls r; cellSize := s |}.

(** [draw()]. *)
Definition draw (life : Life) (h : heap) (r : t) : result t :=
  let w := width life in
  let ht := height life in
  let c0 := calls r ++
    [clearRect 0 0 (inject_Z (canvas_width r)) (inject_Z (canvas_height r));
     set_fillStyle deadColor;
     fillRect 0 0 (inject_Z (canvas_width r)) (inject_Z (canvas_height r))] in
  c1 ← for_upto ht (λ y c,
          for_upto w (λ x c,
            v ← cell_read h (cells life) (Num y) (Num x);
            if elem_is v 1 then Ok (c ++ cell_square (cellSize r) x y)
            else Ok c) c) c0;
  let c2 := c1 ++ [set_strokeStyle gridColor; set_lineWidth (1 # 2)] in
  c3 ← for_upto (w + 1) (λ x c, Ok (c ++ vertical_line (cellSize r) ht x)) c2;
  c4 ← for_upto (ht + 1) (λ y c, Ok (c ++ horizontal_line (cellSize r) w y)) c3;
  Ok {| canvas_width := canvas_width r; canvas_height := canvas_height r;
        calls := c4; cellSize := cellSize r |}.

End Renderer.

(** The ALIVE cells of a view in the order of the sweeps, row by row. *)
Definition alive_cells (c : Z → Z → Z) (w ht : Z) : list (Z * Z) :=
  flat_map (λ y, (λ x, (x, y)) <$> filter (λ x, c x y = 1) (seqZ 0 w))
           (seqZ 0 ht).

(** The calls of one [draw] of the view [c]. *)
Definition frame (c : Z → Z → Z) (w ht cellSize cw ch : Z) : list ctx_call :=
  [clearRect 0 0 (inject_Z cw) (inject_Z ch);
   set_fillStyle deadColor;
   fillRect 0 0 (inject_Z cw) (inject_Z ch)]
  ++ flat_map (λ p, cell_square cellSize p.1 p.2) (alive_cells c w ht)
  ++ [set_strokeStyle gridColor; set_lineWidth (1 # 2)]
  ++ flat_map (vertical_line cellSize ht) (seqZ 0 (w + 1))
  ++ flat_map (horizontal_line cellSize w) (seqZ 0 (ht + 1)).

(** The state of the cell sweep of [draw] when it reaches cell [(x, y)]. *)
Definition drawing (c : Z → Z → Z) (w cellSize : Z) (c0 : list ctx_call)
    (y x : Z) (cs : list ctx_call) : Prop :=
  cs = c0 ++ flat_map (λ p, cell_square cellSize p.1 p.2)
               (alive_cells c w y
                ++ ((λ x, (x, y)) <$> filter (λ x, c x y = 1) (seqZ 0 x))).

(** ** class App *)

(** The double that the literal [0.15] denotes. *)
Definition prob_0_15 : Q := 5404319552844595 # 36028797018963968.

Module App.

(** The elements of the page that the application writes: the [disabled]
    flag of two buttons and the [textContent] of four labels, a label
    [String(n)] being kept as the integer [n]. *)
Record page : Type := Page {
  startBtn_disabled : bool;
  stopBtn_disabled : bool;
  speedVal : Z;
  cellVal : Z;
  genEl : Z;
  popEl : Z
}.

Record t : Type := Make {
  life : Life;
  renderer : Renderer.t;
  animationId : option positive;
  running : bool;
  speedMs : Z;
  generation : Z;
  population : Z;
  elements : page
}.

(** The application in its environment: the heap of the engine, the pending
    timeouts of the window (identifier and delay; their callback is always
    [tick]) and the position reached in the stream of [Math.random()]. *)
Record world : Type := World {
  mem : heap;
  app : t;
  timers : gmap positive Z;
  random_pos : nat
}.

Definition with_app (a : t) (w : world) : world :=
  {| mem := mem w; app := a; timers := timers w; random_pos := random_pos w |}.

(** [updateUI()]. *)
Definition updateUI (a : t) : t :=
  {| life := life a; renderer := renderer a; animationId := animationId a;
     running := running a; speedMs := speedMs a; generation := generation a;
     population := population a;
     elements :=
       {| genEl := generation a; popEl := population a; speedVal := speedMs a;
          cellVal := Renderer.cellSize (renderer a);
          startBtn_disabled := running a;
          stopBtn_disabled := negb (running a) |} |}.

(** [loopStep()]. *)
Definition loopStep (w : world) : result world :=
  let a := app w in
  '(newCells, res_population, life', h') ← nextGeneration (life a) (mem w);
  r' ← Renderer.draw life' h' (renderer a);
  Ok {| mem := h';
        app := updateUI
          {| life := life'; renderer := r'; animationId := animationId a;
             running := running a; speedMs := speedMs a;
             generation := generation a + 1; population := res_population;
             elements := elements a |};
        timers := timers w; random_pos := random_pos w |}.

(** The closure [tick] of [start()]; [setTimeout] returns an identifier
    that no pending timeout has. *)
Definition tick (w : world) : result world :=
  w1 ← loopStep w;
  let a := app w1 in
  if negb (running a) then Ok w1
  else
    let id := fresh (dom (timers w1)) in
    Ok {| mem := mem w1;
          app := {| life := life a; renderer := renderer a;
                    animationId := Some id;
                    running := running a; speedMs := speedMs a;
                    generation := generation a; population := population a;
                    elements := elements a |};
          timers := <[id := speedMs a]> (timers w1);
          random_pos := random_pos w1 |}.

(** [start()]. *)
Definition start (w : world) : result world :=
  let a := app w in
  if running a then Ok w
  else
    tick (with_app
            (updateUI
               {| life := life a; renderer := renderer a;
                  animationId := animationId a;
                  running := true; speedMs := speedMs a;
                  generation := generation a; population := population a;
                  elements := elements a |}) w).

(** [stop()]; [clearTimeout] of an identifier that is not pending does
    nothing. *)
Definition stop (w : world) : world :=
  let a := app w in
  let '(id', timers') :=
    match animationId a with
    | Some id => (None, delete id (timers w))
    | None => (None, timers w)
    end in
  {| mem := mem w;
     app := updateUI
       {| life := life a; renderer := renderer a; animationId := id';
          running := false; speedMs := speedMs a;
          generation := generation a; population := population a;
          elements := elements a |};
     timers := timers'; random_pos := random_pos w |}.

(** [step()]. *)
Definition step (w : world) : result world :=
  if running (app w) then Ok w else loopStep w.

(** The listener of the Clear button. *)
Definition on_clear (w : world) : result world :=
  let a := app w in
  '(life', h') ← clear (life a) (mem w);
  r' ← Renderer.draw life' h' (renderer a);
  Ok {| mem := h';
        app := updateUI
          {| life := life'; renderer := r'; animationId := animationId a;
             running := running a; speedMs := speedMs a;
             generation := 0; population := 0;
             elements := elements a |};
        timers := timers w; random_pos := random_pos w |}.

(** The listener of the Random button: [randomize(0.25)]. *)
Definition on_random (draws : nat → Q) (w : world) : result world :=
  let a := app w in
  '(k', h') ← randomize draws (life a) (1 # 4) (random_pos w) (mem w);
  r' ← Renderer.draw (life a) h' (renderer a);
  Ok {| mem := h';
        app := updateUI
          {| life := life a; renderer := r'; animationId := animationId a;
             running := running a; speedMs := speedMs a;
             generation := 0; population := population a;
             elements := elements a |};
        timers := timers w; random_pos := k' |}.

(** The listener of the speed slider, [value] being [Number(speedRange.value)]. *)
Definition on_speed (value : Z) (w : world) : world :=
  let a := app w in
  let e := elements a in
  with_app
    {| life := life a; renderer := renderer a; animationId := animationId a;
       running := running a; speedMs := value;
       generation := generation a; population := population a;
       elements :=
         {| startBtn_disabled := startBtn_disabled e;
            stopBtn_disabled := stopBtn_disabled e;
            speedVal := value; cellVal := cellVal e;
            genEl := genEl e; popEl := popEl e |} |} w.

(** The listener of the cell-size slider, [s] being [Number(cellRange.value)]. *)
Definition on_cell (s : Z) (w : world) : result world :=
  let a := app w in
  let e := elements a in
  r' ← Renderer.draw (life a) (mem w) (Renderer.setCellSize (life a) s (renderer a));
  Ok (with_app
        {| life := life a; renderer := r'; animationId := animationId a;
           running := running a; speedMs := speedMs a;
           generation := generation a; population := population a;
           elements :=
             {| startBtn_disabled := startBtn_disabled e;
                stopBtn_disabled := stopBtn_disabled e;
                speedVal := speedVal e; cellVal := s;
                genEl := genEl e; popEl := popEl e |} |} w).

(** The listener of the wrap selector, [value] being [wrapSelect.value]. *)
Definition on_wrap (value : string) (w : world) : world :=
  let a := app w in
  with_app
    {| life := {| width := width (life a); height := height (life a);
                  cells := cells (life a); wrap := String.eqb value "wrap" |};
       renderer := renderer a; animationId := animationId a;
       running := running a; speedMs := speedMs a;
       generation := generation a; population := population a;
       elements := elements a |} w.

(** The click listener of the canvas, [x] and [y] being the cell
    coordinates that [xyFromEvent] computes from the event: integers, when
    the cell size is not 0 and the canvas has a box on the page.  The
    listener for coordinates that are NaN, as they are at cell size 0, is
    [canvas_click] below. *)
Definition on_click (x y : Z) (w : world) : result world :=
  let a := app w in
  match xyFromEvent (life a) x y with
  | None => Ok w
  | Some (x, y) =>
      c ← cell_read (mem w) (cells (life a)) (Num y) (Num x);
      h' ← cell_write (mem w) (cells (life a)) y x (if elem_is c 1 then 0 else 1);
      r' ← Renderer.draw (life a) h' (renderer a);
      Ok {| mem := h';
            app := updateUI
              {| life := life a; renderer := r'; animationId := animationId a;
                 running := running a; speedMs := speedMs a;
                 generation := generation a; population := population a;
                 elements := elements a |};
            timers := timers w; random_pos := random_pos w |}
  end.

(** The timeout [id] expires: it is no longer pending and its callback
    runs.  Nothing runs for an identifier that is not pending. *)
Definition on_timeout (id : positive) (w : world) : result world :=
  match timers w !! id with
  | None => Ok w
  | Some _ =>
      tick {| mem := mem w; app := app w; timers := delete id (timers w);
              random_pos := random_pos w |}
  end.

(** [new App(canvas)] for a canvas of the given dimensions, on a page that
    has the elements the constructor looks up; then the rest of the
    [DOMContentLoaded] listener: [randomize(0.15)], [draw()], [updateUI()]. *)
Definition main (draws : nat → Q) (canvas_width canvas_height : Z)
  : result world :=
  let initialCellSize := 8 in
  let cols := canvas_width `div` initialCellSize in
  let rows := canvas_height `div` initialCellSize in
  '(life0, h0) ← Life_new cols rows true empty_heap;
  let r0 := Renderer.new canvas_width canvas_height life0 initialCellSize in
  r1 ← Renderer.draw life0 h0 r0;
  let a1 := updateUI
    {| life := life0; renderer := r1; animationId := None; running := false;
       speedMs := 200; generation := 0; population := 0;
       elements := {| startBtn_disabled := false; stopBtn_disabled := false;
                      speedVal := 0; cellVal := 0; genEl := 0; popEl := 0 |} |} in
  '(k', h1) ← randomize draws life0 prob_0_15 0 h0;
  r2 ← Renderer.draw life0 h1 (renderer a1);
  Ok {| mem := h1;
        app := updateUI
          {| life := life0; renderer := r2; animationId := animationId a1;
             running := running a1; speedMs := speedMs a1;
             generation := generation a1; population := population a1;
             elements := elements a1 |};
        timers := ∅; random_pos := k' |}.

(** What can happen to the page once it is loaded. *)
Inductive event : Type :=
| StartClick
| StopClick
| StepClick
| ClearClick
| RandomClick
| SpeedInput (value : Z)
| CellInput (value : Z)
| WrapChange (value : string)
| CanvasClick (x y : Z)
| Timeout (id : positive).

Definition handle (draws : nat → Q) (e : event) (w : world) : result world :=
  match e with
  | StartClick => start w
  | StopClick => Ok (stop w)
  | StepClick => step w
  | ClearClick => on_clear w
  | RandomClick => on_random draws w
  | SpeedInput v => Ok (on_speed v w)
  | CellInput s => on_cell s w
  | WrapChange v => Ok (on_wrap v w)
  | CanvasClick x y => on_click x y w
  | Timeout id => on_timeout id w
  end.

(** The events of a list, one after the other. *)
Fixpoint run (draws : nat → Q) (es : list event) (w : world) : result world :=
  match es with
  | [] => Ok w
  | e :: es' => w' ← handle draws e w; run draws es' w'
  end.

End App.

(** What holds of the application between two events, timeouts apart: the
    engine is well formed; the buttons and the labels agree with the fields;
    the canvas has the size of the grid in cells of [cellSize], and the last
    calls on its context are those of a [draw] of the current grid. *)
Definition app_base (w : App.world) : Prop :=
  let a := App.app w in
  let r := App.renderer a in
  let e := App.elements a in
  wf (App.mem w) (App.life a) ∧
  (App.startBtn_disabled e = App.running a ∧
   App.stopBtn_disabled e = negb (App.running a) ∧
   App.speedVal e = App.speedMs a ∧
   App.cellVal e = Renderer.cellSize r ∧
   App.genEl e = App.generation a ∧
   App.popEl e = App.population a) ∧
  Renderer.canvas_width r
    = canvas_dim (width (App.life a) * Renderer.cellSize r) 300 ∧
  Renderer.canvas_height r
    = canvas_dim (height (App.life a) * Renderer.cellSize r) 150 ∧
  ∃ before,
    Renderer.calls r =
    before ++ frame (cellAt (App.mem w) (cells (App.life a)))
                (width (App.life a)) (height (App.life a))
                (Renderer.cellSize r)
                (Renderer.canvas_width r) (Renderer.canvas_height r).

(** The pending timeouts are the one of [animationId], which is set exactly
    when the application runs. *)
Definition timer_ok (w : App.world) : Prop :=
  if App.running (App.app w)
  then ∃ id delay,
         App.animationId (App.app w) = Some id ∧ App.timers w = {[id := delay]}
  else App.animationId (App.app w) = None ∧ App.timers w = ∅.

(** The invariant of the application. *)
Definition app_inv (w : App.world) : Prop := app_base w ∧ timer_ok w.

(** What one [loopStep] does to the engine and to the counters. *)
Definition stepped (w w' : App.world) : Prop :=
  let a := App.app w in
  let a' := App.app w' in
  App.generation a' = App.generation a + 1 ∧
  App.speedMs a' = App.speedMs a ∧
  App.random_pos w' = App.random_pos w ∧
  Renderer.cellSize (App.renderer a') = Renderer.cellSize (App.renderer a) ∧
  width (App.life a') = width (App.life a) ∧
  height (App.life a') = height (App.life a) ∧
  wrap (App.life a') = wrap (App.life a) ∧
  heap_le (App.mem w) (App.mem w') ∧
  App.population a'
    = population_of (App.mem w') (cells (App.life a'))
        (width (App.life a)) (height (App.life a)) ∧
  ∀ x y, 0 ≤ x < width (App.life a) → 0 ≤ y < height (App.life a) →
    cellAt (App.mem w') (cells (App.life a')) x y =
    rule (cellAt (App.mem w) (cells (App.life a))) (wrap (App.life a))
      (width (App.life a)) (height (App.life a)) x y.

(** The cell sizes for which the coordinates that [draw] computes are exact:
    a grid has at most 2^32 - 1 columns and rows, so the products are below
    2^52 in absolute value, and they and the halves added to them are
    doubles. *)
Definition cell_size_ok (s : Z) : Prop := -1048576 ≤ s ≤ 1048576.

(** The events whose cell size is in this range. *)
Definition event_ok (e : App.event) : Prop :=
  match e with
  | App.CellInput s => cell_size_ok s
  | _ => True
  end.

(** Pages used as concrete inputs: a canvas of 24 by 24 pixels once the page
    is loaded with the draws [sevenths], which gives a grid of 3 by 3 whose
    ALIVE cells are (0,0), (1,0), (1,2) and (2,2), the draws 0 and 1/7 being
    below 0.15; the same after a click on Start; and a renderer for the 4 by
    4 grid of [glider_4x4]. *)
Definition world_of (r : result App.world) : App.world :=
  match r with
  | Ok w => w
  | Throw _ =>
      {| App.mem := empty_heap;
         App.app :=
           {| App.life := MkLife 0 0 1%positive false;
              App.renderer := Renderer.Make 0 0 [] 0;
              App.animationId := None; App.running := false;
              App.speedMs := 0; App.generation := 0; App.population := 0;
              App.elements := App.Page false false 0 0 0 0 |};
         App.timers := ∅; App.random_pos := 0 |}
  end.

Definition page_24 : App.world :=
  Eval vm_compute in world_of (App.main sevenths 24 24).
Definition page_24_started : App.world :=
  Eval vm_compute in world_of (w ← App.main sevenths 24 24; App.start w).
Definition canvas_32 : Renderer.t :=
  Eval vm_compute in Renderer.new 32 32 glider_4x4.1 8.

(** ** The range of exact arithmetic *)

(** The safe integers of JavaScript.  A sum of two of them that is again one
    of them is what the addition of the code yields; further out the
    addition rounds, and the integer sum is no longer what the code
    computes.  Inside a well-formed grid every coordinate and every sum is a
    safe integer; the properties about coordinates outside the grid state
    this range. *)
Definition MAX_SAFE_INTEGER : Z := 9007199254740991.
Definition safe_integer (z : Z) : Prop :=
  - MAX_SAFE_INTEGER ≤ z ≤ MAX_SAFE_INTEGER.

(** ** The canvas click when the coordinates are no numbers *)

(** The events that leave the cell size different from 0. *)
Definition keeps_cell_size (e : App.event) : Prop :=
  match e with
  | App.CellInput s => s ≠ 0
  | _ => True
  end.





(** * Properties *)

(** ** Loops *)

Lemma for_loop_inv {St} (P : Z → St → Prop) (body : Z → St → result St) n i s :
  P i s →
  (∀ j t, i ≤ j < i + Z.of_nat n → P j t → ∃ t', body j t = Ok t' ∧ P (j + 1) t') →
  ∃ s', for_loop n i body s = Ok s' ∧ P (i + Z.of_nat n) s'.
Proof.
  revert i s. induction n as [|n IH]; intros i s Hi Hstep.
  - exists s. split; [done|]. by replace (i + Z.of_nat 0) with i by lia.
  - destruct (Hstep i s) as (t & Hb & Ht); [lia|done|].
    destruct (IH (i + 1) t) as (s' & Hl & Hs'); [done| |].
    + intros j u Hj Hu. apply Hstep; [lia|done].
    + exists s'. split.
      * cbn [for_loop]. rewrite Hb. exact Hl.
      * by replace (i + Z.of_nat (S n)) with (i + 1 + Z.of_nat n) by lia.
Qed.

Lemma for_upto_inv {St} (P : Z → St → Prop) (body : Z → St → result St) hi s :
  0 ≤ hi →
  P 0 s →
  (∀ j t, 0 ≤ j < hi → P j t → ∃ t', body j t = Ok t' ∧ P (j + 1) t') →
  ∃ s', for_upto hi body s = Ok s' ∧ P hi s'.
Proof.
  intros Hhi H0 Hstep. unfold for_upto.
  destruct (for_loop_inv P body (Z.to_nat hi) 0 s) as (s' & Hl & Hs'); [done| |].
  - intros j t Hj. apply Hstep. lia.
  - exists s'. split; [done|]. by replace hi with (0 + Z.of_nat (Z.to_nat hi)) by lia.
Qed.

(** ** Arrays *)

Lemma lookup_fill_from {V} (v : V) i n j :
  fill_from v i n !! j = if bool_decide (i ≤ j < i + Z.of_nat n) then Some v else None.
Proof.
  revert i. induction n as [|n IH]; intros i.
  - cbn. rewrite lookup_empty. case_bool_decide; [lia|done].
  - cbn [fill_from]. destruct (decide (i = j)) as [->|Hne].
    + rewrite lookup_insert_eq. case_bool_decide; [done|lia].
    + rewrite lookup_insert_ne by done. rewrite IH.
      repeat case_bool_decide; try done; lia.
Qed.

Lemma new_Array_fill_ok n :
  0 ≤ n ≤ MAX_ARRAY_LENGTH →
  ∃ a, new_Array_fill n 0 = Ok a ∧ row_ok n a ∧ ∀ x v, props a !! x = Some v → v = 0.
Proof.
  intros Hn. unfold new_Array_fill.
  destruct ((n <? 0) || (MAX_ARRAY_LENGTH <? n)) eqn:E.
  { apply orb_true_iff in E as [E|E]; lia. }
  eexists. split; [done|]. unfold row_ok, dense. cbn.
  split; [split; [|split]|].
  - intros i. rewrite lookup_fill_from. case_bool_decide.
    + split; [lia|eauto].
    + split; [intros [? ?]; done|lia].
  - done.
  - intros x v. rewrite lookup_fill_from. case_bool_decide; [|done].
    intros [= <-]. by left.
  - intros x v. rewrite lookup_fill_from. case_bool_decide; [|done].
    by intros [= <-].
Qed.

Lemma set_prop_dense_in {V} (a : jsarray V) i v :
  dense a → 0 ≤ i < alength a →
  dense (set_prop a i v) ∧ alength (set_prop a i v) = alength a.
Proof.
  intros Hd Hi. assert (Hlen : alength (set_prop a i v) = alength a).
  { cbn. destruct ((0 <=? i) && (i <? MAX_ARRAY_LENGTH)); lia. }
  split; [|done]. intros j. rewrite Hlen. cbn.
  rewrite lookup_insert_is_Some. rewrite (Hd j). split; [|lia].
  intros [Heq|[_ ?]]; lia.
Qed.

Lemma set_prop_dense_push {V} (a : jsarray V) v :
  dense a → 0 ≤ alength a < MAX_ARRAY_LENGTH →
  dense (set_prop a (alength a) v) ∧
  alength (set_prop a (alength a) v) = alength a + 1.
Proof.
  intros Hd Hi. assert (Hlen : alength (set_prop a (alength a) v) = alength a + 1).
  { cbn. destruct ((0 <=? alength a) && (alength a <? MAX_ARRAY_LENGTH)) eqn:E; [lia|].
    apply andb_false_iff in E as [E|E]; lia. }
  split; [|done]. intros j. rewrite Hlen. cbn.
  rewrite lookup_insert_is_Some. rewrite (Hd j). split; [|lia].
  intros [Heq|[_ ?]]; lia.
Qed.

(** ** Reading and writing cells *)

Lemma heap_le_refl h : heap_le h h.
Proof. by split. Qed.

Lemma heap_le_trans h1 h2 h3 : heap_le h1 h2 → heap_le h2 h3 → heap_le h1 h3.
Proof. intros [? ?] [? ?]. split; by etrans. Qed.

Lemma grid_ok_mono h hh w ht g :
  heap_le h hh → grid_ok h w ht g → grid_ok hh w ht g.
Proof.
  intros [Hr Hg] (ga & Hga & Hd & Hlen & Hrows & Hinj).
  exists ga. split; [by eapply lookup_weaken|]. do 2 (split; [done|]).
  split; [|done]. intros y r Hy. destruct (Hrows y r Hy) as (ra & Hra & Hok).
  exists ra. split; [by eapply lookup_weaken|done].
Qed.

Lemma cellAt_mono h hh w ht g x y :
  heap_le h hh → grid_ok h w ht g → cellAt hh g x y = cellAt h g x y.
Proof.
  intros [Hr Hg] (ga & Hga & Hd & Hlen & Hrows & Hinj).
  unfold cellAt, cell_read. rewrite Hga, (lookup_weaken _ _ _ _ Hga Hg). cbn.
  destruct (props ga !! y) as [r|] eqn:Hy; [|done].
  destruct (Hrows y r Hy) as (ra & Hra & Hok).
  by rewrite Hra, (lookup_weaken _ _ _ _ Hra Hr).
Qed.

Lemma cell_read_ok h w ht g x y :
  grid_ok h w ht g → 0 ≤ x < w → 0 ≤ y < ht →
  cell_read h g (Num y) (Num x) = Ok (Some (cellAt h g x y)) ∧
  (cellAt h g x y = 0 ∨ cellAt h g x y = 1).
Proof.
  intros (ga & Hga & Hd & Hlen & Hrows & Hinj) Hx Hy.
  destruct (proj2 (Hd y)) as [r Hr]; [lia|].
  destruct (Hrows y r Hr) as (ra & Hra & Hda & Hla & Hv).
  destruct (proj2 (Hda x)) as [v Hxv]; [lia|].
  unfold cellAt, cell_read. rewrite Hga. cbn. rewrite Hr, Hra. cbn. rewrite Hxv.
  split; [done|]. by eapply Hv.
Qed.

Lemma cellAt_outside h w ht g x y :
  grid_ok h w ht g → ¬ (0 ≤ x < w ∧ 0 ≤ y < ht) → cellAt h g x y = 0.
Proof.
  intros (ga & Hga & Hd & Hlen & Hrows & Hinj) Hout.
  unfold cellAt, cell_read. rewrite Hga. cbn.
  destruct (props ga !! y) as [r|] eqn:Hr; [|done].
  assert (0 ≤ y < ht) by (rewrite <- Hlen; apply Hd; eauto).
  destruct (Hrows y r Hr) as (ra & Hra & Hda & Hla & Hv). rewrite Hra. cbn.
  destruct (props ra !! x) as [v|] eqn:Hxv; [|done].
  assert (0 ≤ x < w) by (rewrite <- Hla; apply Hda; eauto). lia.
Qed.

Lemma cell_write_ok h w ht g x y v :
  grid_ok h w ht g → 0 ≤ x < w → 0 ≤ y < ht → v = 0 ∨ v = 1 →
  ∃ h' ga r ra,
    cell_write h g y x v = Ok h' ∧
    grids h !! g = Some ga ∧ props ga !! y = Some r ∧
    grids h' = grids h ∧ rows h' = <[r := ra]> (rows h) ∧
    grid_ok h' w ht g ∧
    ∀ x' y', cellAt h' g x' y' =
             if bool_decide (x' = x ∧ y' = y) then v else cellAt h g x' y'.
Proof.
  intros (ga & Hga & Hd & Hlen & Hrows & Hinj) Hx Hy Hv.
  destruct (proj2 (Hd y)) as [r Hr]; [lia|].
  destruct (Hrows y r Hr) as (ra & Hra & Hda & Hla & Hval).
  unfold cell_write. rewrite Hga, Hr, Hra.
  eexists _, ga, r, (set_prop ra x v). split; [done|]. cbn.
  do 4 (split; [done|]).
  destruct (set_prop_dense_in ra x v Hda) as [Hda' Hla']; [lia|].
  split.
  - exists ga. cbn. do 3 (split; [done|]). split; [|done].
    intros y1 r1 Hy1. destruct (decide (r1 = r)) as [->|Hne].
    + exists (set_prop ra x v). rewrite lookup_insert_eq. split; [done|].
      split; [done|]. split; [lia|]. cbn. intros x1 v1.
      rewrite lookup_insert_Some. intros [[_ <-]|[_ ?]]; [done|by eapply Hval].
    + destruct (Hrows y1 r1 Hy1) as (ra1 & Hra1 & Hok1).
      exists ra1. by rewrite lookup_insert_ne.
  - intros x' y'. unfold cellAt, cell_read. cbn. rewrite Hga. cbn.
    destruct (props ga !! y') as [r'|] eqn:Hr'.
    2:{ case_bool_decide as Hc; [|done]. destruct Hc as [_ ->]. congruence. }
    destruct (decide (r' = r)) as [->|Hne].
    + assert (y' = y) as -> by (by eapply Hinj).
      rewrite lookup_insert_eq, Hra. cbn.
      destruct (decide (x' = x)) as [->|Hnx].
      * rewrite lookup_insert_eq. by rewrite bool_decide_eq_true_2.
      * rewrite lookup_insert_ne by done. rewrite bool_decide_eq_false_2; [done|].
        intros [? _]. done.
    + rewrite lookup_insert_ne by done.
      rewrite bool_decide_eq_false_2; [done|]. intros [_ ->]. congruence.
Qed.

(** ** createEmpty *)

Lemma fresh_row_None (h : heap) : rows h !! fresh (dom (rows h)) = None.
Proof. apply not_elem_of_dom, is_fresh. Qed.

Lemma fresh_grid_None (h : heap) : grids h !! fresh (dom (grids h)) = None.
Proof. apply not_elem_of_dom, is_fresh. Qed.

Lemma building_step h g w y hh :
  0 ≤ w ≤ MAX_ARRAY_LENGTH → 0 ≤ y < MAX_ARRAY_LENGTH →
  building h g w y hh →
  ∃ hh', (a ← new_Array_fill w 0;
          let '(r, hh1) := alloc_row a hh in
          grid_set_row hh1 g y r) = Ok hh' ∧ building h g w (y + 1) hh'.
Proof.
  intros Hw Hy (Hsub & ga & Hgr & Hd & Hlen & Hrows & Hinj).
  destruct (new_Array_fill_ok w Hw) as (a & -> & Hok & Hz). cbn.
  unfold grid_set_row. cbn. rewrite Hgr, lookup_insert_eq.
  eexists. split; [done|].
  pose proof (fresh_row_None hh) as Hfr. set (r := fresh (dom (rows hh))) in *.
  assert (Hfr0 : rows h !! r = None).
  { destruct (rows h !! r) eqn:E; [|done].
    by rewrite (lookup_weaken _ _ _ _ E Hsub) in Hfr. }
  split; cbn.
  { by apply insert_subseteq_r. }
  exists (set_prop ga y r). rewrite insert_insert_eq. split; [done|].
  subst y. destruct (set_prop_dense_push ga r Hd) as [Hd' Hl']; [lia|].
  do 2 (split; [done|]). split.
  - intros y' r'. cbn. rewrite lookup_insert_Some. intros [[_ <-]|[Hne Hy']].
    + split; [done|]. exists a. by rewrite lookup_insert_eq.
    + destruct (Hrows y' r' Hy') as (Hn & ra & Hra & Hrest). split; [done|].
      exists ra. rewrite lookup_insert_ne; [done|]. intros <-. congruence.
  - intros y1 y2 r'. cbn. rewrite !lookup_insert_Some.
    intros [[<- <-]|[Hn1 H1]] [[<- Heq]|[Hn2 H2]].
    + done.
    + destruct (Hrows y2 r H2) as (_ & ra & Hra & _). congruence.
    + subst r'. destruct (Hrows y1 r H1) as (_ & ra & Hra & _). congruence.
    + by eapply Hinj.
Qed.

Lemma createEmpty_ok w ht h :
  0 ≤ w ≤ MAX_ARRAY_LENGTH → 0 ≤ ht ≤ MAX_ARRAY_LENGTH →
  ∃ g hh, createEmpty w ht h = Ok (g, hh) ∧
    heap_le h hh ∧ grid_new h hh g ∧ grid_ok hh w ht g ∧
    ∀ x y, cellAt hh g x y = 0.
Proof.
  intros Hw Hht. unfold createEmpty, alloc_grid. cbv beta iota zeta.
  pose proof (fresh_grid_None h) as Hfg. set (g := fresh (dom (grids h))) in *.
  destruct (for_upto_inv (building h g w)
              (λ y hh, a ← new_Array_fill w 0;
                       let '(r, hh1) := alloc_row a hh in
                       grid_set_row hh1 g y r) ht
              {| rows := rows h; grids := <[g := JsArray ∅ 0]> (grids h) |})
    as (hh & Hloop & Hsub & ga & Hgr & Hd & Hlen & Hrows & Hinj).
  - lia.
  - split; [done|]. exists (JsArray ∅ 0). cbn. split; [done|]. split.
    { intros i. cbn. rewrite lookup_empty. split; [by intros [? ?]|lia]. }
    split; [done|]. split; intros *; cbn; by rewrite lookup_empty.
  - intros j t Hj Hb. apply building_step; [done|lia|done].
  - exists g, hh. rewrite Hloop. cbn. split; [done|].
    assert (Hgg : grids hh !! g = Some ga) by (by rewrite Hgr, lookup_insert_eq).
    split; [|split; [|split]].
    + split; [done|]. rewrite Hgr. by apply insert_subseteq.
    + split; [done|]. intros ga' y r Hga' Hy. rewrite Hgg in Hga'.
      injection Hga' as <-. by destruct (Hrows y r Hy).
    + exists ga. do 3 (split; [done|]). split; [|done].
      intros y r Hy. destruct (Hrows y r Hy) as (_ & ra & Hra & Hok & _). eauto.
    + intros x y. unfold cellAt, cell_read. rewrite Hgg. cbn.
      destruct (props ga !! y) as [r|] eqn:Hy; [|done].
      destruct (Hrows y r Hy) as (_ & ra & Hra & _ & Hz). rewrite Hra. cbn.
      destruct (props ra !! x) as [v|] eqn:Hx; [|done]. by eapply Hz.
Qed.

Lemma createEmpty_no_rows w ht h :
  ht ≤ 0 → ∃ g hh, createEmpty w ht h = Ok (g, hh).
Proof.
  intros Hht. unfold createEmpty, alloc_grid, for_upto.
  replace (Z.to_nat ht) with O by lia. cbn. eauto.
Qed.

Lemma createEmpty_RangeError w ht h :
  0 < ht → w < 0 ∨ MAX_ARRAY_LENGTH < w → createEmpty w ht h = Throw RangeError.
Proof.
  intros Hht Hw. unfold createEmpty, alloc_grid, for_upto.
  destruct (Z.to_nat ht) as [|n] eqn:E; [lia|]. cbn [for_loop].
  unfold new_Array_fill.
  destruct ((w <? 0) || (MAX_ARRAY_LENGTH <? w)) eqn:Eb; [done|].
  apply orb_false_iff in Eb as [? ?]. lia.
Qed.

Lemma createEmpty_succeeds w ht h :
  0 ≤ w ≤ MAX_ARRAY_LENGTH → ∃ g hh, createEmpty w ht h = Ok (g, hh).
Proof.
  intros Hw. destruct (decide (ht ≤ 0)) as [Hle|Hgt].
  { by apply createEmpty_no_rows. }
  unfold createEmpty, alloc_grid. cbv beta iota zeta.
  set (g := fresh (dom (grids h))).
  destruct (for_upto_inv (λ _ hh, is_Some (grids hh !! g))
              (λ y hh, a ← new_Array_fill w 0;
                       let '(r, hh1) := alloc_row a hh in
                       grid_set_row hh1 g y r) ht
              {| rows := rows h; grids := <[g := JsArray ∅ 0]> (grids h) |})
    as (hh & Hloop & _).
  - lia.
  - cbn. rewrite lookup_insert_eq. eauto.
  - intros j t _ [ga Hga]. destruct (new_Array_fill_ok w Hw) as (a & -> & _).
    cbn. unfold grid_set_row. cbn. rewrite Hga. eexists. split; [done|].
    cbn. rewrite lookup_insert_eq. eauto.
  - rewrite Hloop. cbn. eauto.
Qed.

(** ** countNeighbors *)

Lemma jsrem_wrapped a n :
  0 ≤ a + n → 0 < n → jsrem (a + n) n = Num (a `mod` n).
Proof.
  intros Ha Hn. unfold jsrem. destruct (n =? 0) eqn:E; [lia|].
  rewrite Z.rem_mod_nonneg by lia. f_equal.
  replace (a + n) with (a + 1 * n) by lia. apply Z_mod_plus_full.
Qed.

Lemma inBounds_decide this x y :
  inBounds this x y = bool_decide (0 ≤ x < width this ∧ 0 ≤ y < height this).
Proof.
  unfold inBounds. case_bool_decide as H.
  - repeat (apply andb_true_intro; split); lia.
  - apply not_true_is_false. intros E.
    repeat (apply andb_prop in E as [E ?]). lia.
Qed.

Lemma countNeighbors_body_ok h this x y dy dx c :
  wf h this → 0 ≤ x < width this → 0 ≤ y < height this →
  -1 ≤ dx ≤ 1 → -1 ≤ dy ≤ 1 → ¬ (dx = 0 ∧ dy = 0) →
  countNeighbors_body this h x y dy dx (Num c) =
  Ok (Num (c + if neighbor_alive (cellAt h (cells this)) (wrap this)
                    (width this) (height this) x y (dx, dy) then 1 else 0)).
Proof.
  intros (Hw & Hh & Hg) Hx Hy Hdx Hdy Hne.
  unfold countNeighbors_body, neighbor_alive, neighbor_pos. cbn [fst snd].
  destruct ((dx =? 0) && (dy =? 0)) eqn:E.
  { apply andb_prop in E as [? ?]. lia. }
  destruct (wrap this).
  - unfold getWrapped. rewrite !jsrem_wrapped by lia.
    destruct (cell_read_ok h _ _ _ ((x + dx) `mod` width this)
                ((y + dy) `mod` height this) Hg) as [-> Hv].
    { apply Z.mod_pos_bound. lia. }
    { apply Z.mod_pos_bound. lia. }
    cbn. do 2 f_equal. destruct Hv as [-> | ->]; done.
  - rewrite inBounds_decide. case_bool_decide as Hin.
    + destruct (cell_read_ok h _ _ _ (x + dx) (y + dy) Hg) as [-> Hv]; [lia..|].
      cbn. do 2 f_equal. destruct Hv as [-> | ->]; done.
    + do 2 f_equal. lia.
Qed.

Lemma filter_length_cons {A} (P : A → Prop) `{∀ a, Decision (P a)} a l :
  Z.of_nat (length (filter P (a :: l))) =
  (if decide (P a) then 1 else 0) + Z.of_nat (length (filter P l)).
Proof. rewrite filter_cons. destruct (decide (P a)); cbn [length]; lia. Qed.

Lemma countNeighbors_body_center h this x y c :
  countNeighbors_body this h x y 0 0 c = Ok c.
Proof. reflexivity. Qed.

Lemma decide_true_if (b : bool) :
  (if decide (b = true) then 1 else 0) = (if b then 1 else 0).
Proof. by destruct b. Qed.

Lemma countNeighbors_ok h this x y :
  wf h this → 0 ≤ x < width this → 0 ≤ y < height this →
  countNeighbors this h x y =
  Ok (Num (alive_neighbors (cellAt h (cells this)) (wrap this)
             (width this) (height this) x y)).
Proof.
  intros Hwf Hx Hy. unfold countNeighbors. cbn [for_loop].
  change (-1 + 1) with 0. change (0 + 1) with 1.
  repeat (first [ rewrite countNeighbors_body_center
                | rewrite (countNeighbors_body_ok h this x y)
                    by (first [assumption | lia]) ];
          cbn [mbind result_bind]).
  do 2 f_equal. unfold alive_neighbors, moore.
  rewrite !filter_length_cons, !decide_true_if, filter_nil. cbn [length].
  ring.
Qed.

Lemma alive_neighbors_bounds c wr w ht x y :
  0 ≤ alive_neighbors c wr w ht x y ≤ 8.
Proof.
  unfold alive_neighbors.
  pose proof (length_filter (λ d, neighbor_alive c wr w ht x y d = true) moore) as H.
  cbn [moore length] in H. lia.
Qed.

(** ** Sums and populations *)

Lemma sum_upto_ext f g n :
  (∀ i, 0 ≤ i < Z.of_nat n → f i = g i) → sum_upto f n = sum_upto g n.
Proof.
  induction n as [|n IH]; intros Hfg; [done|].
  cbn [sum_upto]. rewrite IH, Hfg; [done|lia|]. intros i Hi. apply Hfg. lia.
Qed.

Lemma sum_upto_update f g n j :
  0 ≤ j < Z.of_nat n → (∀ i, i ≠ j → f i = g i) →
  sum_upto g n = sum_upto f n - f j + g j.
Proof.
  induction n as [|n IH]; intros Hj Hfg; [lia|].
  cbn [sum_upto]. destruct (decide (j = Z.of_nat n)) as [->|Hne].
  - rewrite (sum_upto_ext g f n); [lia|]. intros i Hi. symmetry. apply Hfg. lia.
  - rewrite IH by (done || lia). rewrite (Hfg (Z.of_nat n)) by done. lia.
Qed.

Lemma sum_upto_const k n : sum_upto (λ _, k) n = Z.of_nat n * k.
Proof. induction n as [|n IH]; [done|]. cbn [sum_upto]. rewrite IH. lia. Qed.

Lemma population_update c c' w ht x y :
  0 ≤ x < w → 0 ≤ y < ht →
  (∀ x' y', ¬ (x' = x ∧ y' = y) → c' x' y' = c x' y') →
  population c' w ht =
  population c w ht - (if c x y =? 1 then 1 else 0) + (if c' x y =? 1 then 1 else 0).
Proof.
  intros Hx Hy Hc. unfold population.
  rewrite (sum_upto_update
             (λ y, sum_upto (λ x, if c x y =? 1 then 1 else 0) (Z.to_nat w))
             _ _ y); [|lia|].
  - rewrite (sum_upto_update (λ x, if c x y =? 1 then 1 else 0)
               (λ x, if c' x y =? 1 then 1 else 0) _ x); [lia|lia|].
    intros i Hi. rewrite Hc; [done|]. intros [? _]. done.
  - intros i Hi. apply sum_upto_ext. intros j _. rewrite Hc; [done|].
    intros [_ ?]. done.
Qed.

Lemma alive_neighbors_ext c c' wr w ht x y :
  (∀ i j, c i j = c' i j) →
  alive_neighbors c wr w ht x y = alive_neighbors c' wr w ht x y.
Proof.
  intros Hc. unfold alive_neighbors. do 2 f_equal. apply list_filter_iff.
  intros d. unfold neighbor_alive. destruct (neighbor_pos wr w ht x y d) as [[nx ny]|].
  - by rewrite Hc.
  - done.
Qed.

Lemma rule_01 c wr w ht x y : rule c wr w ht x y = 0 ∨ rule c wr w ht x y = 1.
Proof.
  unfold rule. destruct (c x y =? 1).
  - destruct ((_ =? 2) || (_ =? 3)); auto.
  - destruct (_ =? 3); auto.
Qed.

(** ** nextGeneration *)

Lemma next_state_rule c n :
  next_state (Some c) (Num n) =
  if c =? 1 then (if (n =? 2) || (n =? 3) then 1 else 0)
  else (if n =? 3 then 1 else 0).
Proof. reflexivity. Qed.

Lemma sweeping_step h this g y x s :
  wf h this → 0 ≤ x < width this → 0 ≤ y < height this →
  sweeping h this g y x s →
  ∃ s', (let '(population, hh) := s in
         n ← countNeighbors this hh x y;
         c ← cell_read hh (cells this) (Num y) (Num x);
         let next := next_state c n in
         hh1 ← cell_write hh g y x next;
         Ok (population + next, hh1)) = Ok s' ∧
        sweeping h this g y (x + 1) s'.
Proof.
  intros Hwf Hx Hy. destruct s as [pop hh].
  intros (Hle & Hnew & Hok & Hview & Hpop).
  destruct Hwf as (Hw & Hh & Hg).
  assert (Hwf' : wf hh this).
  { split; [done|]. split; [done|]. by eapply grid_ok_mono. }
  assert (Hc : ∀ i j, cellAt hh (cells this) i j = cellAt h (cells this) i j).
  { intros i j. by eapply cellAt_mono. }
  rewrite (countNeighbors_ok hh this x y Hwf') by done. cbn [mbind result_bind].
  destruct (cell_read_ok hh _ _ _ x y (proj2 (proj2 Hwf'))) as [-> _]; [done..|].
  cbn [mbind result_bind]. rewrite next_state_rule.
  rewrite (alive_neighbors_ext _ _ _ _ _ _ _ Hc), Hc.
  fold (rule (cellAt h (cells this)) (wrap this) (width this) (height this) x y).
  set (next := rule _ _ _ _ x y).
  destruct (cell_write_ok hh _ _ g x y next Hok)
    as (hh' & ga & r & ra & -> & Hga & Hr & Hgr & Hrw & Hok' & Hview');
    [done|done|apply rule_01|].
  cbn [mbind result_bind]. eexists. split; [done|]. cbn.
  destruct Hle as [Hler Hleg]. destruct Hnew as [Hn1 Hn2].
  assert (Hold : cellAt hh g x y = 0).
  { rewrite Hview. rewrite bool_decide_eq_false_2; [done|]. lia. }
  split; [|split; [|split; [|split]]].
  - split; [|by rewrite Hgr]. rewrite Hrw. apply insert_subseteq_r; [|done].
    by eapply Hn2.
  - split; [done|]. rewrite Hgr. done.
  - done.
  - intros x' y'. rewrite Hview', Hview.
    destruct (decide (x' = x ∧ y' = y)) as [[-> ->]|Hne].
    + rewrite !bool_decide_eq_true_2 by lia. done.
    + rewrite (bool_decide_eq_false_2 (x' = x ∧ y' = y)) by done.
      repeat case_bool_decide; first [done | lia].
  - unfold population_of.
    rewrite (population_update (cellAt hh g) (cellAt hh' g) _ _ x y); [|done|done|].
    + rewrite Hview', bool_decide_eq_true_2 by done. rewrite Hold, Hpop.
      unfold population_of. destruct (rule_01 (cellAt h (cells this)) (wrap this)
        (width this) (height this) x y) as [E|E]; fold next in E; rewrite E; cbn; lia.
    + intros x' y' Hne. rewrite Hview'. by rewrite bool_decide_eq_false_2.
Qed.

Lemma sweeping_next_row h this g y s :
  sweeping h this g y (width this) s → sweeping h this g (y + 1) 0 s.
Proof.
  destruct s as [pop hh]. intros (Hle & Hnew & Hok & Hview & Hpop).
  do 3 (split; [done|]). split; [|done].
  intros x' y'. rewrite Hview. repeat case_bool_decide; first [done | lia].
Qed.

Lemma nextGeneration_ok h this :
  wf h this →
  ∃ g pop hh,
    nextGeneration this h = Ok (g, pop, with_cells this g, hh) ∧
    heap_le h hh ∧ grid_new h hh g ∧ wf hh (with_cells this g) ∧
    (∀ x y, 0 ≤ x < width this → 0 ≤ y < height this →
       cellAt hh g x y =
       rule (cellAt h (cells this)) (wrap this) (width this) (height this) x y) ∧
    pop = population_of hh g (width this) (height this).
Proof.
  intros Hwf. pose proof Hwf as (Hw & Hh & Hg). unfold nextGeneration.
  destruct (createEmpty_ok (width this) (height this) h Hw Hh)
    as (g & h0 & -> & Hle0 & Hnew0 & Hok0 & Hz).
  cbn [mbind result_bind].
  match goal with
  | |- context [for_upto ?hi ?body ?s0] =>
      destruct (for_upto_inv (λ y s, sweeping h this g y 0 s) body hi s0)
        as ([pop hh] & Hloop & Hfin)
  end.
  - lia.
  - do 3 (split; [done|]). split.
    + intros x' y'. rewrite Hz. rewrite bool_decide_eq_false_2; [done|]. lia.
    + unfold population_of, population. symmetry.
      rewrite (sum_upto_ext _ (λ _, 0)); [by rewrite sum_upto_const; lia|].
      intros i _. rewrite (sum_upto_ext _ (λ _, 0)); [by rewrite sum_upto_const; lia|].
      intros j _. by rewrite Hz.
  - intros y s Hy Hs.
    destruct (for_upto_inv (λ x s, sweeping h this g y x s)
                (λ x '(population, hh),
                   n ← countNeighbors this hh x y;
                   c ← cell_read hh (cells this) (Num y) (Num x);
                   let next := next_state c n in
                   hh1 ← cell_write hh g y x next;
                   Ok (population + next, hh1)) (width this) s)
      as (s' & Hl & Hs'); [lia|done| |].
    + intros x t Hx Ht. by apply sweeping_step.
    + exists s'. split; [done|]. by apply sweeping_next_row.
  - rewrite Hloop. cbn [mbind result_bind].
    destruct Hfin as (Hle & Hnew & Hok & Hview & Hpop).
    exists g, pop, hh. split; [done|]. do 2 (split; [done|]).
    split; [unfold wf; cbn; done|]. split; [|done].
    intros x y Hx Hy. rewrite Hview. rewrite bool_decide_eq_true_2; [done|]. lia.
Qed.

(** ** The constructor and clear *)

Lemma Life_new_ok w ht wr h :
  0 ≤ w ≤ MAX_ARRAY_LENGTH → 0 ≤ ht ≤ MAX_ARRAY_LENGTH →
  ∃ g hh, Life_new w ht wr h = Ok (MkLife w ht g wr, hh) ∧
    heap_le h hh ∧ grid_new h hh g ∧ wf hh (MkLife w ht g wr) ∧
    ∀ x y, cellAt hh g x y = 0.
Proof.
  intros Hw Hht. unfold Life_new.
  destruct (createEmpty_ok w ht h Hw Hht) as (g & hh & -> & Hle & Hnew & Hok & Hz).
  exists g, hh. cbn. split; [done|]. do 2 (split; [done|]). split; [|done].
  unfold wf. cbn. done.
Qed.

Lemma clear_ok h this :
  wf h this →
  ∃ g hh, clear this h = Ok (with_cells this g, hh) ∧
    heap_le h hh ∧ grid_new h hh g ∧ wf hh (with_cells this g) ∧
    ∀ x y, cellAt hh g x y = 0.
Proof.
  intros (Hw & Hht & _). unfold clear.
  destruct (createEmpty_ok (width this) (height this) h Hw Hht)
    as (g & hh & -> & Hle & Hnew & Hok & Hz).
  exists g, hh. cbn. split; [done|]. do 2 (split; [done|]). split; [|done].
  unfold wf. cbn. done.
Qed.

(** ** The toggle *)

Lemma xyFromEvent_inside life x y :
  0 ≤ x < width life → 0 ≤ y < height life → xyFromEvent life x y = Some (x, y).
Proof.
  intros Hx Hy. unfold xyFromEvent.
  destruct ((x <? 0) || (x >=? width life) || (y <? 0) || (y >=? height life)) eqn:E;
    [|done].
  repeat (apply orb_prop in E as [E|E]); lia.
Qed.

Lemma xyFromEvent_outside life x y :
  ¬ (0 ≤ x < width life ∧ 0 ≤ y < height life) → xyFromEvent life x y = None.
Proof.
  intros Hout. unfold xyFromEvent.
  destruct ((x <? 0) || (x >=? width life) || (y <? 0) || (y >=? height life)) eqn:E;
    [done|].
  repeat (apply orb_false_elim in E as [E ?]). lia.
Qed.

Lemma toggle_outside life h x y :
  ¬ (0 ≤ x < width life ∧ 0 ≤ y < height life) → toggle life h x y = Ok h.
Proof. intros Hout. unfold toggle. by rewrite xyFromEvent_outside. Qed.

Lemma toggle_inside life h x y :
  wf h life → 0 ≤ x < width life → 0 ≤ y < height life →
  ∃ h', toggle life h x y = Ok h' ∧ wf h' life ∧ grids h' = grids h ∧
    ∀ x' y', cellAt h' (cells life) x' y' =
      if bool_decide (x' = x ∧ y' = y)
      then (if cellAt h (cells life) x y =? 1 then 0 else 1)
      else cellAt h (cells life) x' y'.
Proof.
  intros (Hw & Hht & Hg) Hx Hy. unfold toggle. rewrite xyFromEvent_inside by done.
  destruct (cell_read_ok h _ _ _ x y Hg) as [-> _]; [done..|].
  cbn [mbind result_bind elem_is].
  destruct (cell_write_ok h _ _ (cells life) x y
              (if cellAt h (cells life) x y =? 1 then 0 else 1) Hg)
    as (h' & ga & r & ra & -> & Hga & Hr & Hgr & Hrw & Hok' & Hview'); [done..| |].
  { destruct (_ =? 1); auto. }
  exists h'. split; [done|]. split; [unfold wf; auto|]. split; [done|]. done.
Qed.

Lemma toggle_wf life h x y h' :
  wf h life → toggle life h x y = Ok h' → wf h' life.
Proof.
  intros Hwf Ht. destruct (decide (0 ≤ x < width life ∧ 0 ≤ y < height life)) as [[Hx Hy]|Hout].
  - destruct (toggle_inside life h x y Hwf Hx Hy) as (h'' & Ht' & Hwf' & _). congruence.
  - rewrite toggle_outside in Ht by done. congruence.
Qed.

Lemma set_prop_restore (ra : jsarray Z) x v v' :
  dense ra → props ra !! x = Some v →
  set_prop (set_prop ra x v') x v = ra.
Proof.
  intros Hd Hx. assert (0 ≤ x < alength ra) by (apply Hd; eauto).
  destruct ra as [p n]. unfold set_prop. cbn in *. f_equal.
  - rewrite insert_insert_eq. by apply insert_id.
  - destruct ((0 <=? x) && (x <? MAX_ARRAY_LENGTH)); lia.
Qed.

(** ** randomize *)

Section Randomize.
Variable draws : nat → Q.
Variable this : Life.
Variable prob : Q.
Variable k : nat.
Variable h : heap.

Lemma randomizing_step y x s :
  0 ≤ x < width this → 0 ≤ y < height this →
  randomizing draws this prob k h y x s →
  ∃ s', (let '(k, hh) := s in
         let v := if Qlt_le_dec (draws k) prob then 1 else 0 in
         hh1 ← cell_write hh (cells this) y x v;
         Ok (S k, hh1)) = Ok s' ∧
        randomizing draws this prob k h y (x + 1) s'.
Proof.
  intros Hx Hy. destruct s as [k' hh]. intros ((Hw & Hht & Hg) & Hgr & Hk & Hview).
  cbv zeta.
  destruct (cell_write_ok hh _ _ (cells this) x y
              (if Qlt_le_dec (draws k') prob then 1 else 0) Hg)
    as (hh' & ga & r & ra & -> & Hga & Hr & Hgr' & Hrw & Hok' & Hview'); [done..| |].
  { destruct (Qlt_le_dec _ _); auto. }
  cbn [mbind result_bind]. eexists. split; [done|]. cbn.
  split; [unfold wf; auto|]. split; [congruence|]. split; [lia|].
  intros x' y' Hx' Hy' Hbefore. rewrite Hview'. case_bool_decide as Heq.
  - destruct Heq as [-> ->]. unfold drawn. rewrite <- Hk, Nat2Z.id. done.
  - apply Hview; [done..|]. lia.
Qed.

Lemma randomizing_next_row y s :
  randomizing draws this prob k h y (width this) s →
  randomizing draws this prob k h (y + 1) 0 s.
Proof.
  destruct s as [k' hh]. intros (Hwf & Hgr & Hk & Hview).
  do 2 (split; [done|]). split; [lia|].
  intros x' y' Hx' Hy' Hbefore. apply Hview; [done..|]. lia.
Qed.

Lemma randomize_ok :
  wf h this →
  ∃ k' hh, randomize draws this prob k h = Ok (k', hh) ∧
    wf hh this ∧ grids hh = grids h ∧
    Z.of_nat k' = Z.of_nat k + height this * width this ∧
    ∀ x y, 0 ≤ x < width this → 0 ≤ y < height this →
      cellAt hh (cells this) x y =
      drawn draws prob (Z.of_nat k + y * width this + x).
Proof.
  intros Hwf. pose proof Hwf as (Hw & Hht & Hg). unfold randomize.
  destruct (for_upto_inv (λ y s, randomizing draws this prob k h y 0 s)
              (λ y s, for_upto (width this) (λ x '(k, hh),
                 let v := if Qlt_le_dec (draws k) prob then 1 else 0 in
                 hh1 ← cell_write hh (cells this) y x v;
                 Ok (S k, hh1)) s) (height this) (k, h))
    as ([k' hh] & Hloop & Hfin).
  - lia.
  - do 2 (split; [done|]). split; [lia|]. intros; lia.
  - intros y s Hy Hs.
    destruct (for_upto_inv (λ x s, randomizing draws this prob k h y x s)
                (λ x '(k, hh),
                   let v := if Qlt_le_dec (draws k) prob then 1 else 0 in
                   hh1 ← cell_write hh (cells this) y x v;
                   Ok (S k, hh1)) (width this) s)
      as (s' & Hl & Hs'); [lia|done| |].
    + intros x t Hx Ht. by apply randomizing_step.
    + exists s'. split; [done|]. by apply randomizing_next_row.
  - exists k', hh. split; [done|]. destruct Hfin as (Hwf' & Hgr & Hk & Hview).
    do 2 (split; [done|]). split; [lia|].
    intros x y Hx Hy. apply Hview; lia.
Qed.
End Randomize.

(** ** Engines that [build] makes *)

Lemma alive_set_check_sound h this cs :
  alive_set_check h this cs = true → alive_set h this cs.
Proof.
  unfold alive_set_check. rewrite forallb_forall. intros Hall x y Hx Hy.
  assert (Hy' : In y (seqZ 0 (height this))).
  { apply list_elem_of_In, elem_of_seqZ. lia. }
  specialize (Hall y Hy'). rewrite forallb_forall in Hall.
  assert (Hx' : In x (seqZ 0 (width this))).
  { apply list_elem_of_In, elem_of_seqZ. lia. }
  specialize (Hall x Hx'). by apply bool_decide_eq_true in Hall.
Qed.

Lemma toggles_wf life cs : ∀ h h',
  wf h life →
  foldl (λ r c, h ← r; toggle life h c.1 c.2) (Ok h) cs = Ok h' → wf h' life.
Proof.
  induction cs as [|c cs IH]; intros h h' Hwf Hf; cbn in Hf.
  - by injection Hf as <-.
  - destruct (toggle life h c.1 c.2) as [h1|e] eqn:Ht.
    + eapply IH; [|done]. by eapply toggle_wf.
    + exfalso. clear -Hf. induction cs as [|c' cs IH']; cbn in Hf; [done|].
      by apply IH'.
Qed.

Lemma build_wf w ht wr cs life h :
  0 ≤ w ≤ MAX_ARRAY_LENGTH → 0 ≤ ht ≤ MAX_ARRAY_LENGTH →
  build w ht wr cs = Ok (life, h) → wf h life.
Proof.
  intros Hw Hht. unfold build.
  destruct (Life_new_ok w ht wr empty_heap Hw Hht) as (g & h0 & -> & _ & _ & Hwf & _).
  cbn [mbind result_bind].
  destruct (foldl _ _ cs) as [h'|e] eqn:Hf; cbn; [|done].
  intros [= <- <-]. by eapply toggles_wf.
Qed.

Lemma grid_ok_dims h w ht g : grid_ok h w ht g → has_dims h g w ht.
Proof.
  intros (ga & Hga & Hd & Hlen & Hrows & _). exists ga. do 2 (split; [done|]).
  intros y Hy. destruct (proj2 (Hd y)) as [r Hr]; [lia|].
  destruct (Hrows y r Hr) as (ra & Hra & _ & Hla & _). eauto.
Qed.

(** ** The rule on a bounded grid with a known alive set *)

Lemma neighbor_alive_bounded c w ht x y d (A : Z → Z → bool) :
  (∀ i j, 0 ≤ i < w → 0 ≤ j < ht → (c i j =? 1) = A i j) →
  (∀ i j, A i j = true → 0 ≤ i < w ∧ 0 ≤ j < ht) →
  neighbor_alive c false w ht x y d = A (x + d.1) (y + d.2).
Proof.
  intros Hc HA. unfold neighbor_alive, neighbor_pos. case_bool_decide as Hin.
  - apply Hc; lia.
  - destruct (A (x + d.1) (y + d.2)) eqn:E; [|done]. apply HA in E. lia.
Qed.

Lemma rule_bounded c w ht x y (A : Z → Z → bool) :
  (∀ i j, 0 ≤ i < w → 0 ≤ j < ht → (c i j =? 1) = A i j) →
  (∀ i j, A i j = true → 0 ≤ i < w ∧ 0 ≤ j < ht) →
  0 ≤ x < w → 0 ≤ y < ht →
  rule c false w ht x y =
  let b (dx dy : Z) : Z := if A (x + dx) (y + dy) then 1 else 0 in
  let n := b (-1) (-1) + b 0 (-1) + b 1 (-1) + b (-1) 0 + b 1 0
           + b (-1) 1 + b 0 1 + b 1 1 in
  if A x y then (if (n =? 2) || (n =? 3) then 1 else 0)
  else (if n =? 3 then 1 else 0).
Proof.
  intros Hc HA Hx Hy. unfold rule, alive_neighbors, moore.
  rewrite !filter_length_cons, !decide_true_if, filter_nil. cbn [length].
  rewrite !(neighbor_alive_bounded c w ht x y _ A Hc HA). cbn [fst snd].
  rewrite (Hc x y Hx Hy). cbv zeta.
  replace (Z.of_nat 0) with 0 by done. rewrite !Z.add_0_r, !Z.add_assoc.
  done.
Qed.

(** Case analysis on the comparisons of coordinates in the goal. *)
Ltac split_cmp :=
  repeat match goal with
    | |- context [?a =? ?b] =>
        lazymatch a with
        | context [if _ then _ else _] => fail
        | _ => destruct (Z.eqb_spec a b); try lia
        end
    | |- context [?a <=? ?b] => destruct (Z.leb_spec a b); try lia
    end.

(** A horizontal blinker becomes a vertical one. *)
Lemma blinker_h_arith x y :
  let A (i j : Z) := (j =? 2) && (1 <=? i) && (i <=? 3) in
  let b (dx dy : Z) : Z := if A (x + dx) (y + dy) then 1 else 0 in
  let n := b (-1) (-1) + b 0 (-1) + b 1 (-1) + b (-1) 0 + b 1 0
           + b (-1) 1 + b 0 1 + b 1 1 in
  (if A x y then (if (n =? 2) || (n =? 3) then 1 else 0)
   else (if n =? 3 then 1 else 0)) = 1 ↔ x = 2 ∧ 1 ≤ y ≤ 3.
Proof.
  cbv zeta.
  assert (Hx : x ≤ -1 ∨ x = 0 ∨ x = 1 ∨ x = 2 ∨ x = 3 ∨ x = 4 ∨ 5 ≤ x) by lia.
  assert (Hy : y ≤ 0 ∨ y = 1 ∨ y = 2 ∨ y = 3 ∨ 4 ≤ y) by lia.
  destruct Hx as [Hx|[Hx|[Hx|[Hx|[Hx|[Hx|Hx]]]]]];
    destruct Hy as [Hy|[Hy|[Hy|[Hy|Hy]]]];
    split_cmp; cbn [andb]; split_cmp; cbn [orb]; lia.
Qed.

(** A vertical blinker becomes a horizontal one. *)
Lemma blinker_v_arith x y :
  let A (i j : Z) := (i =? 2) && (1 <=? j) && (j <=? 3) in
  let b (dx dy : Z) : Z := if A (x + dx) (y + dy) then 1 else 0 in
  let n := b (-1) (-1) + b 0 (-1) + b 1 (-1) + b (-1) 0 + b 1 0
           + b (-1) 1 + b 0 1 + b 1 1 in
  (if A x y then (if (n =? 2) || (n =? 3) then 1 else 0)
   else (if n =? 3 then 1 else 0)) = 1 ↔ y = 2 ∧ 1 ≤ x ≤ 3.
Proof.
  cbv zeta.
  assert (Hy : y ≤ -1 ∨ y = 0 ∨ y = 1 ∨ y = 2 ∨ y = 3 ∨ y = 4 ∨ 5 ≤ y) by lia.
  assert (Hx : x ≤ 0 ∨ x = 1 ∨ x = 2 ∨ x = 3 ∨ 4 ≤ x) by lia.
  destruct Hy as [Hy|[Hy|[Hy|[Hy|[Hy|[Hy|Hy]]]]]];
    destruct Hx as [Hx|[Hx|[Hx|[Hx|Hx]]]];
    split_cmp; cbn [andb]; split_cmp; cbn [orb]; lia.
Qed.

Lemma elem_blinker_h x y : (x, y) ∈ [(1, 2); (2, 2); (3, 2)] ↔ y = 2 ∧ 1 ≤ x ≤ 3.
Proof.
  rewrite !elem_of_cons, elem_of_nil. split.
  - intros [ [= -> ->] | [ [= -> ->] | [ [= -> ->] | HF ] ] ];
      first [lia | destruct HF].
  - intros [-> Hx]. assert (x = 1 ∨ x = 2 ∨ x = 3) as [-> | [-> | ->] ] by lia; auto.
Qed.

Lemma elem_blinker_v x y : (x, y) ∈ [(2, 1); (2, 2); (2, 3)] ↔ x = 2 ∧ 1 ≤ y ≤ 3.
Proof.
  rewrite !elem_of_cons, elem_of_nil. split.
  - intros [ [= -> ->] | [ [= -> ->] | [ [= -> ->] | HF ] ] ];
      first [lia | destruct HF].
  - intros [-> Hy]. assert (y = 1 ∨ y = 2 ∨ y = 3) as [-> | [-> | ->] ] by lia; auto.
Qed.

Lemma rule_blinker_h c w ht :
  5 ≤ w → 5 ≤ ht →
  (∀ x y, 0 ≤ x < w → 0 ≤ y < ht → (c x y = 1 ↔ (x, y) ∈ [(1, 2); (2, 2); (3, 2)])) →
  ∀ x y, 0 ≤ x < w → 0 ≤ y < ht →
    (rule c false w ht x y = 1 ↔ (x, y) ∈ [(2, 1); (2, 2); (2, 3)]).
Proof.
  intros Hw Hht Hc x y Hx Hy.
  rewrite (rule_bounded c w ht x y (λ i j, (j =? 2) && (1 <=? i) && (i <=? 3)));
    [|..|done|done].
  - rewrite elem_blinker_v. apply blinker_h_arith.
  - intros i j Hi Hj. specialize (Hc i j Hi Hj). rewrite elem_blinker_h in Hc.
    destruct (Z.eqb_spec (c i j) 1) as [E|E]; split_cmp; cbn [andb]; try done;
      exfalso; lia.
  - intros i j. split_cmp; cbn [andb]; first [done | lia].
Qed.

Lemma rule_blinker_v c w ht :
  5 ≤ w → 5 ≤ ht →
  (∀ x y, 0 ≤ x < w → 0 ≤ y < ht → (c x y = 1 ↔ (x, y) ∈ [(2, 1); (2, 2); (2, 3)])) →
  ∀ x y, 0 ≤ x < w → 0 ≤ y < ht →
    (rule c false w ht x y = 1 ↔ (x, y) ∈ [(1, 2); (2, 2); (3, 2)]).
Proof.
  intros Hw Hht Hc x y Hx Hy.
  rewrite (rule_bounded c w ht x y (λ i j, (i =? 2) && (1 <=? j) && (j <=? 3)));
    [|..|done|done].
  - rewrite elem_blinker_h. apply blinker_v_arith.
  - intros i j Hi Hj. specialize (Hc i j Hi Hj). rewrite elem_blinker_v in Hc.
    destruct (Z.eqb_spec (c i j) 1) as [E|E]; split_cmp; cbn [andb]; try done;
      exfalso; lia.
  - intros i j. split_cmp; cbn [andb]; first [done | lia].
Qed.

(** ** Small grids *)

Lemma alive_set_eqb h this cs x y :
  alive_set h this cs → 0 ≤ x < width this → 0 ≤ y < height this →
  (cellAt h (cells this) x y =? 1) = bool_decide ((x, y) ∈ cs).
Proof.
  intros Ha Hx Hy. specialize (Ha x y Hx Hy).
  destruct (Z.eqb_spec (cellAt h (cells this) x y) 1) as [E|E]; symmetry.
  - apply bool_decide_eq_true_2. by apply Ha.
  - apply bool_decide_eq_false_2. intros Hin. by apply E, Ha.
Qed.

Lemma neighbor_alive_wrap c w ht x y d :
  neighbor_alive c true w ht x y d =
  (c ((x + d.1) `mod` w) ((y + d.2) `mod` ht) =? 1).
Proof. reflexivity. Qed.

Lemma neighbor_alive_inside c w ht x y d :
  0 ≤ x + d.1 < w → 0 ≤ y + d.2 < ht →
  neighbor_alive c false w ht x y d = (c (x + d.1) (y + d.2) =? 1).
Proof.
  intros Hx Hy. unfold neighbor_alive, neighbor_pos.
  by rewrite bool_decide_eq_true_2.
Qed.

Lemma neighbor_alive_outside c w ht x y d :
  ¬ (0 ≤ x + d.1 < w ∧ 0 ≤ y + d.2 < ht) →
  neighbor_alive c false w ht x y d = false.
Proof.
  intros Hout. unfold neighbor_alive, neighbor_pos.
  by rewrite bool_decide_eq_false_2.
Qed.

Lemma alive_neighbors_unfold c wr w ht x y :
  alive_neighbors c wr w ht x y =
  let b (d : Z * Z) : Z := if neighbor_alive c wr w ht x y d then 1 else 0 in
  b (-1, -1) + (b (0, -1) + (b (1, -1) + (b (-1, 0) + (b (1, 0)
  + (b (-1, 1) + (b (0, 1) + (b (1, 1) + 0))))))).
Proof.
  unfold alive_neighbors, moore.
  by rewrite !filter_length_cons, !decide_true_if, filter_nil.
Qed.

Lemma corner_3x3 h this :
  wf h this → width this = 3 → height this = 3 → alive_set h this [(0, 0)] →
  countNeighbors this h 2 2 = Ok (Num (if wrap this then 1 else 0)).
Proof.
  intros Hwf Hw Hht Ha. rewrite countNeighbors_ok by (done || lia).
  do 2 f_equal. rewrite alive_neighbors_unfold. cbv zeta. rewrite Hw, Hht.
  destruct (wrap this).
  - rewrite !neighbor_alive_wrap. cbn [fst snd].
    repeat match goal with
      | |- context [(?a + ?b) `mod` ?n] =>
          let v := eval vm_compute in ((a + b) `mod` n) in
          change ((a + b) `mod` n) with v
      end.
    rewrite !(alive_set_eqb h this [(0, 0)]) by (done || lia). reflexivity.
  - rewrite (neighbor_alive_inside _ _ _ _ _ (-1, -1)) by (cbn; lia).
    rewrite (neighbor_alive_inside _ _ _ _ _ (0, -1)) by (cbn; lia).
    rewrite (neighbor_alive_inside _ _ _ _ _ (-1, 0)) by (cbn; lia).
    rewrite !neighbor_alive_outside by (cbn; lia). cbn [fst snd].
    change (2 + -1) with 1. change (2 + 0) with 2.
    rewrite !(alive_set_eqb h this [(0, 0)]) by (done || lia). reflexivity.
Qed.




Lemma population_const c w ht v :
  0 ≤ w → 0 ≤ ht →
  (∀ x y, 0 ≤ x < w → 0 ≤ y < ht → c x y = v) →
  population c w ht = ht * (w * (if v =? 1 then 1 else 0)).
Proof.
  intros Hw Hht Hc. unfold population.
  rewrite (sum_upto_ext _ (λ _, w * (if v =? 1 then 1 else 0))).
  - by rewrite sum_upto_const, Z2Nat.id.
  - intros y Hy. rewrite (sum_upto_ext _ (λ _, if v =? 1 then 1 else 0)).
    + by rewrite sum_upto_const, Z2Nat.id.
    + intros x Hx. rewrite Hc; [done|lia|lia].
Qed.

Ltac built w ht wr cs :=
  apply (build_wf w ht wr cs);
  [ unfold MAX_ARRAY_LENGTH; lia
  | unfold MAX_ARRAY_LENGTH; lia
  | vm_compute; reflexivity ].

Lemma corner_3x3_wrap_wf : wf corner_3x3_wrap.2 corner_3x3_wrap.1.
Proof. built 3 3 true [(0, 0)]. Qed.

Lemma corner_3x3_flat_wf : wf corner_3x3_flat.2 corner_3x3_flat.1.
Proof. built 3 3 false [(0, 0)]. Qed.

Lemma blinker_5x5_wf : wf blinker_5x5.2 blinker_5x5.1.
Proof. built 5 5 false [(1, 2); (2, 2); (3, 2)]. Qed.


Lemma glider_4x4_wf : wf glider_4x4.2 glider_4x4.1.
Proof. built 4 4 true [(1, 0); (2, 1); (0, 2); (1, 2); (2, 2)]. Qed.

(** C1. For a well-formed engine, [nextGeneration] returns a grid in which an
    in-bounds cell is ALIVE exactly when it was ALIVE with 2 or 3 neighbours
    or DEAD with exactly 3, the neighbour counts being those of
    [countNeighbors] on the heap before the step; every object of that heap,
    the input grid included, is unchanged by the sweep. *)
Theorem nextGeneration_rule h this :
  wf h this →
  ∃ newCells population h',
    nextGeneration this h = Ok (newCells, population, with_cells this newCells, h') ∧
    heap_le h h' ∧
    (∀ x y, cellAt h' (cells this) x y = cellAt h (cells this) x y) ∧
    ∀ x y, 0 ≤ x < width this → 0 ≤ y < height this →
      ∃ n, countNeighbors this h x y = Ok (Num n) ∧
        (cellAt h (cells this) x y = 0 ∨ cellAt h (cells this) x y = 1) ∧
        (cellAt h' newCells x y = 0 ∨ cellAt h' newCells x y = 1) ∧
        (cellAt h' newCells x y = 1 ↔
           (cellAt h (cells this) x y = 1 ∧ (n = 2 ∨ n = 3)) ∨
           (cellAt h (cells this) x y = 0 ∧ n = 3)).
Proof.
  intros Hwf.
  destruct (nextGeneration_ok h this Hwf)
    as (g & pop & hh & Hng & Hle & Hnew & Hwf' & Hrule & Hpop).
  exists g, pop, hh. do 2 (split; [done|]). split.
  { intros x y. destruct Hwf as (_ & _ & Hg). by eapply cellAt_mono. }
  intros x y Hx Hy. eexists. split; [by apply countNeighbors_ok|].
  destruct Hwf as (_ & _ & Hg).
  destruct (cell_read_ok h _ _ _ x y Hg Hx Hy) as [_ Hc].
  split; [done|]. rewrite (Hrule x y Hx Hy).
  split; [apply rule_01|]. unfold rule.
  set (n := alive_neighbors _ _ _ _ x y). clearbody n.
  destruct Hc as [-> | ->]; cbn [Z.eqb Pos.eqb]; split_cmp; cbn [orb]; lia.
Qed.

Lemma nextGeneration_rule_witness :
  wf glider_4x4.2 glider_4x4.1 ∧
  ∃ newCells population h',
    nextGeneration glider_4x4.1 glider_4x4.2 =
      Ok (newCells, population, with_cells glider_4x4.1 newCells, h') ∧
    (cellAt h' newCells 1 1 = 1 ↔
       (cellAt glider_4x4.2 (cells glider_4x4.1) 1 1 = 1 ∧
        (countNeighbors glider_4x4.1 glider_4x4.2 1 1 = Ok (Num 2) ∨
         countNeighbors glider_4x4.1 glider_4x4.2 1 1 = Ok (Num 3))) ∨
       (cellAt glider_4x4.2 (cells glider_4x4.1) 1 1 = 0 ∧
        countNeighbors glider_4x4.1 glider_4x4.2 1 1 = Ok (Num 3))).
Proof.
  split; [exact glider_4x4_wf|].
  destruct (nextGeneration_rule glider_4x4.2 glider_4x4.1 glider_4x4_wf)
    as (g & pop & h' & Hng & _ & _ & Hrule).
  exists g, pop, h'. split; [exact Hng|].
  destruct (Hrule 1 1) as (n & Hn & _ & _ & Hiff); [cbn; lia..|].
  rewrite Hn, Hiff. split.
  - intros [[? [-> | ->]]|[? ->]]; auto.
  - intros [[? [[= ->] | [= ->]]]|[? [= ->]]]; auto.
Defined.

(** C2. The population that [nextGeneration] returns is the number of ALIVE
    cells of the grid it returns, and that grid is the new live grid of the
    engine. *)
Theorem nextGeneration_population h this :
  wf h this →
  ∃ newCells population this' h',
    nextGeneration this h = Ok (newCells, population, this', h') ∧
    cells this' = newCells ∧
    population = population_of h' newCells (width this') (height this').
Proof.
  intros Hwf.
  destruct (nextGeneration_ok h this Hwf)
    as (g & pop & hh & Hng & _ & _ & _ & _ & Hpop).
  exists g, pop, (with_cells this g), hh. done.
Qed.

Lemma nextGeneration_population_witness :
  wf glider_4x4.2 glider_4x4.1 ∧
  ∃ newCells population this' h',
    nextGeneration glider_4x4.1 glider_4x4.2 = Ok (newCells, population, this', h') ∧
    cells this' = newCells ∧
    population = population_of h' newCells (width this') (height this') ∧
    population = 8.
Proof.
  split; [exact glider_4x4_wf|].
  destruct (nextGeneration_population glider_4x4.2 glider_4x4.1 glider_4x4_wf)
    as (g & pop & this' & h' & Hng & Hc & Hpop).
  exists g, pop, this', h'. do 3 (split; [assumption|]).
  assert (Hv : ∃ g0 t0 h0, nextGeneration glider_4x4.1 glider_4x4.2
                           = Ok (g0, 8, t0, h0)).
  { vm_compute. eauto. }
  destruct Hv as (g0 & t0 & h0 & Hv). rewrite Hng in Hv. congruence.
Defined.

(** C3. For an in-bounds cell, [countNeighbors] returns an integer of
    [0, 8]: the number of offsets of the Moore neighbourhood that lead to an
    ALIVE cell, coordinates being reduced modulo the dimensions with wrap and
    positions outside the grid counting for nothing without.  On a 3 by 3
    grid whose only ALIVE cell is (0,0), the count at (2,2) is 1 with wrap
    and 0 without. *)
Theorem countNeighbors_moore h this x y :
  wf h this → 0 ≤ x < width this → 0 ≤ y < height this →
  (∃ n, countNeighbors this h x y = Ok (Num n) ∧ 0 ≤ n ≤ 8 ∧
        n = alive_neighbors (cellAt h (cells this)) (wrap this)
              (width this) (height this) x y) ∧
  (width this = 3 → height this = 3 → alive_set h this [(0, 0)] →
   countNeighbors this h 2 2 = Ok (Num (if wrap this then 1 else 0))).
Proof.
  intros Hwf Hx Hy. split.
  - eexists. split; [by apply countNeighbors_ok|]. split; [|done].
    apply alive_neighbors_bounds.
  - intros Hw Hht Ha. by apply corner_3x3.
Qed.

Lemma countNeighbors_moore_witness :
  (wf corner_3x3_wrap.2 corner_3x3_wrap.1 ∧
   alive_set corner_3x3_wrap.2 corner_3x3_wrap.1 [(0, 0)] ∧
   countNeighbors corner_3x3_wrap.1 corner_3x3_wrap.2 2 2 = Ok (Num 1)) ∧
  (wf corner_3x3_flat.2 corner_3x3_flat.1 ∧
   alive_set corner_3x3_flat.2 corner_3x3_flat.1 [(0, 0)] ∧
   countNeighbors corner_3x3_flat.1 corner_3x3_flat.2 2 2 = Ok (Num 0)).
Proof.
  assert (A1 : alive_set corner_3x3_wrap.2 corner_3x3_wrap.1 [(0, 0)]).
  { apply alive_set_check_sound. vm_compute. reflexivity. }
  assert (A2 : alive_set corner_3x3_flat.2 corner_3x3_flat.1 [(0, 0)]).
  { apply alive_set_check_sound. vm_compute. reflexivity. }
  split; (split; [first [exact corner_3x3_wrap_wf | exact corner_3x3_flat_wf]|]);
    (split; [assumption|]).
  - refine (proj2 (countNeighbors_moore corner_3x3_wrap.2 corner_3x3_wrap.1 2 2
                     corner_3x3_wrap_wf _ _) _ _ A1);
      first [reflexivity | cbn; lia].
  - refine (proj2 (countNeighbors_moore corner_3x3_flat.2 corner_3x3_flat.1 2 2
                     corner_3x3_flat_wf _ _) _ _ A2);
      first [reflexivity | cbn; lia].
Defined.

(** C4. For a well-formed engine, the grid that [nextGeneration] returns has
    the width and the height of the engine, which keeps them; and a toggle,
    [clear] and [randomize] leave the engine with a grid of these
    dimensions. *)
Theorem dimensions_preserved h this :
  wf h this →
  (∃ newCells population this' h',
     nextGeneration this h = Ok (newCells, population, this', h') ∧
     width this' = width this ∧ height this' = height this ∧
     has_dims h' newCells (width this) (height this)) ∧
  (∀ x y, ∃ h', toggle this h x y = Ok h' ∧
     has_dims h' (cells this) (width this) (height this)) ∧
  (∃ this' h', clear this h = Ok (this', h') ∧
     width this' = width this ∧ height this' = height this ∧
     has_dims h' (cells this') (width this) (height this)) ∧
  (∀ draws prob k, ∃ k' h', randomize draws this prob k h = Ok (k', h') ∧
     has_dims h' (cells this) (width this) (height this)).
Proof.
  intros Hwf. split; [|split; [|split]].
  - destruct (nextGeneration_ok h this Hwf)
      as (g & pop & hh & Hng & _ & _ & (_ & _ & Hok) & _).
    exists g, pop, (with_cells this g), hh. do 3 (split; [done|]).
    by apply grid_ok_dims.
  - intros x y.
    destruct (decide (0 ≤ x < width this ∧ 0 ≤ y < height this)) as [[Hx Hy]|Hout].
    + destruct (toggle_inside this h x y Hwf Hx Hy) as (h' & Ht & (_ & _ & Hok) & _).
      exists h'. split; [done|]. by apply grid_ok_dims.
    + exists h. split; [by apply toggle_outside|].
      destruct Hwf as (_ & _ & Hok). by apply grid_ok_dims.
  - destruct (clear_ok h this Hwf) as (g & hh & Hcl & _ & _ & (_ & _ & Hok) & _).
    exists (with_cells this g), hh. do 3 (split; [done|]). by apply grid_ok_dims.
  - intros draws prob k.
    destruct (randomize_ok draws this prob k h Hwf)
      as (k' & hh & Hr & (_ & _ & Hok) & _).
    exists k', hh. split; [done|]. by apply grid_ok_dims.
Qed.

Lemma dimensions_preserved_witness :
  wf glider_4x4.2 glider_4x4.1 ∧
  (∃ newCells population this' h',
     nextGeneration glider_4x4.1 glider_4x4.2 = Ok (newCells, population, this', h') ∧
     width this' = 4 ∧ height this' = 4 ∧ has_dims h' newCells 4 4) ∧
  (∃ h', toggle glider_4x4.1 glider_4x4.2 3 3 = Ok h' ∧
     has_dims h' (cells glider_4x4.1) 4 4) ∧
  (∃ k' h', randomize sevenths glider_4x4.1 (1 # 2) 0 glider_4x4.2 = Ok (k', h') ∧
     has_dims h' (cells glider_4x4.1) 4 4).
Proof.
  split; [exact glider_4x4_wf|].
  destruct (dimensions_preserved glider_4x4.2 glider_4x4.1 glider_4x4_wf)
    as (Hng & Ht & _ & Hr).
  split; [exact Hng|]. split; [exact (Ht 3 3)|]. exact (Hr sevenths (1 # 2)%Q 0%nat).
Defined.

(** C5, as the code has it.  The constructor checks no dimension and knows
    no InvalidDimension: it fails exactly when there is a row to allocate
    ([height > 0]) and [width] is no array length, with the RangeError of
    [new Array]; so it succeeds for every [height ≤ 0] and for [width = 0].
    For positive dimensions (array lengths) it yields a [width] by [height]
    grid in which every cell is DEAD, with the given wrap flag. *)
Theorem Life_new_outcome w ht wr h :
  (failed (Life_new w ht wr h) ↔ 0 < ht ∧ (w < 0 ∨ MAX_ARRAY_LENGTH < w)) ∧
  (0 < ht ∧ (w < 0 ∨ MAX_ARRAY_LENGTH < w) →
   Life_new w ht wr h = Throw RangeError) ∧
  (0 < w ≤ MAX_ARRAY_LENGTH → 0 < ht ≤ MAX_ARRAY_LENGTH →
   ∃ this h', Life_new w ht wr h = Ok (this, h') ∧
     width this = w ∧ height this = ht ∧ wrap this = wr ∧
     wf h' this ∧ has_dims h' (cells this) w ht ∧
     ∀ x y, cellAt h' (cells this) x y = 0).
Proof.
  assert (Hfail : 0 < ht ∧ (w < 0 ∨ MAX_ARRAY_LENGTH < w) →
                  Life_new w ht wr h = Throw RangeError).
  { intros [Hht Hw]. unfold Life_new. by rewrite createEmpty_RangeError. }
  split; [|split; [done|]].
  - split; [|by intros ->%Hfail].
    intros Hf. destruct (decide (0 < ht ∧ (w < 0 ∨ MAX_ARRAY_LENGTH < w)))
      as [|Hn]; [done|]. exfalso.
    assert (Hok : ∃ g hh, createEmpty w ht h = Ok (g, hh)).
    { destruct (decide (ht ≤ 0)); [by apply createEmpty_no_rows|].
      apply createEmpty_succeeds. lia. }
    destruct Hok as (g & hh & Hok). unfold Life_new in Hf. by rewrite Hok in Hf.
  - intros Hw Hht.
    destruct (Life_new_ok w ht wr h) as (g & hh & Hn & _ & _ & Hwf & Hz); [lia..|].
    exists (MkLife w ht g wr), hh. do 5 (split; [done|]). split; [|done].
    destruct Hwf as (_ & _ & Hok). by apply grid_ok_dims.
Qed.

Lemma Life_new_outcome_witness :
  (0 < 3 ≤ MAX_ARRAY_LENGTH) ∧
  (∃ this h', Life_new 3 3 true empty_heap = Ok (this, h') ∧
     width this = 3 ∧ height this = 3 ∧ wrap this = true ∧
     ∀ x y, cellAt h' (cells this) x y = 0) ∧
  (0 < 2 ∧ (-1 < 0 ∨ MAX_ARRAY_LENGTH < -1)) ∧
  Life_new (-1) 2 true empty_heap = Throw RangeError.
Proof.
  assert (H3 : 0 < 3 ≤ MAX_ARRAY_LENGTH) by (unfold MAX_ARRAY_LENGTH; lia).
  assert (Hneg : 0 < 2 ∧ (-1 < 0 ∨ MAX_ARRAY_LENGTH < -1)) by lia.
  split; [exact H3|]. split; [|split; [exact Hneg|]].
  - destruct (proj2 (proj2 (Life_new_outcome 3 3 true empty_heap)) H3 H3)
      as (this & h' & Hn & Hw & Hh & Hwr & _ & _ & Hz).
    exists this, h'. auto.
  - exact (proj1 (proj2 (Life_new_outcome (-1) 2 true empty_heap)) Hneg).
Defined.

(** C5 as stated fails: with width 0 and height 5 the claim wants a failure,
    and the constructor returns an engine. *)
Lemma Life_new_zero_width_succeeds :
  ¬ (failed (Life_new 0 5 true empty_heap) ↔ (0 ≤ 0 ∨ 5 ≤ 0)).
Proof.
  intros [_ Hf]. assert (Hc : failed (Life_new 0 5 true empty_heap)) by (apply Hf; lia).
  vm_compute in Hc. exact Hc.
Qed.




Lemma reads_ok h this x y :
  wf h this → 0 ≤ x < width this → 0 ≤ y < height this →
  cell_read h (cells this) (Num y) (Num x) = Ok (Some (cellAt h (cells this) x y)).
Proof.
  intros (_ & _ & Hg) Hx Hy. by destruct (cell_read_ok h _ _ _ x y Hg Hx Hy).
Qed.

(** C7. On a bounded grid of at least 5 by 5 whose ALIVE cells are exactly
    (1,2), (2,2), (3,2), one [nextGeneration] gives exactly the ALIVE set
    (2,1), (2,2), (2,3), and a second one gives back exactly the first set.
    Each time the engine is the one of before with the returned grid as its
    cells, that grid has the dimensions of the engine, and the engine is
    well formed. *)
Theorem blinker_period_2 h this :
  wf h this → wrap this = false → 5 ≤ width this → 5 ≤ height this →
  alive_set h this [(1, 2); (2, 2); (3, 2)] →
  ∃ g1 p1 this1 h1 g2 p2 this2 h2,
    nextGeneration this h = Ok (g1, p1, this1, h1) ∧
    this1 = with_cells this g1 ∧ wf h1 this1 ∧
    has_dims h1 g1 (width this) (height this) ∧
    alive_set h1 this1 [(2, 1); (2, 2); (2, 3)] ∧
    nextGeneration this1 h1 = Ok (g2, p2, this2, h2) ∧
    this2 = with_cells this g2 ∧ wf h2 this2 ∧
    has_dims h2 g2 (width this) (height this) ∧
    alive_set h2 this2 [(1, 2); (2, 2); (3, 2)].
Proof.
  intros Hwf Hwr Hw Hht Ha.
  destruct (nextGeneration_ok h this Hwf)
    as (g1 & p1 & h1 & Hn1 & _ & _ & Hwf1 & Hrule1 & _).
  destruct (nextGeneration_ok h1 (with_cells this g1) Hwf1)
    as (g2 & p2 & h2 & Hn2 & _ & _ & Hwf2 & Hrule2 & _).
  pose proof Hwf1 as (_ & _ & Hg1). pose proof Hwf2 as (_ & _ & Hg2).
  cbn [width height wrap cells with_cells] in *. rewrite Hwr in *.
  assert (Ha1 : alive_set h1 (with_cells this g1) [(2, 1); (2, 2); (2, 3)]).
  { intros x y Hx Hy. cbn [width height wrap cells with_cells] in *.
    rewrite Hrule1 by done. by apply rule_blinker_h. }
  exists g1, p1, (with_cells this g1), h1, g2, p2, (with_cells this g2), h2.
  do 3 (split; [done|]). split; [by apply grid_ok_dims|]. split; [done|].
  split; [exact Hn2|]. split; [done|]. split; [exact Hwf2|].
  split; [by apply grid_ok_dims|].
  intros x y Hx Hy. cbn [width height wrap cells with_cells] in *.
  rewrite Hrule2 by done. by apply rule_blinker_v.
Qed.

Lemma blinker_period_2_witness :
  (wf blinker_5x5.2 blinker_5x5.1 ∧ wrap blinker_5x5.1 = false ∧
   5 ≤ width blinker_5x5.1 ∧ 5 ≤ height blinker_5x5.1 ∧
   alive_set blinker_5x5.2 blinker_5x5.1 [(1, 2); (2, 2); (3, 2)]) ∧
  ∃ g1 p1 this1 h1 g2 p2 this2 h2,
    nextGeneration blinker_5x5.1 blinker_5x5.2 = Ok (g1, p1, this1, h1) ∧
    this1 = with_cells blinker_5x5.1 g1 ∧ wf h1 this1 ∧
    has_dims h1 g1 (width blinker_5x5.1) (height blinker_5x5.1) ∧
    alive_set h1 this1 [(2, 1); (2, 2); (2, 3)] ∧
    nextGeneration this1 h1 = Ok (g2, p2, this2, h2) ∧
    this2 = with_cells blinker_5x5.1 g2 ∧ wf h2 this2 ∧
    has_dims h2 g2 (width blinker_5x5.1) (height blinker_5x5.1) ∧
    alive_set h2 this2 [(1, 2); (2, 2); (3, 2)].
Proof.
  assert (Ha : alive_set blinker_5x5.2 blinker_5x5.1 [(1, 2); (2, 2); (3, 2)]).
  { apply alive_set_check_sound. vm_compute. reflexivity. }
  assert (Hw : 5 ≤ width blinker_5x5.1) by (cbn; lia).
  assert (Hht : 5 ≤ height blinker_5x5.1) by (cbn; lia).
  split.
  - split; [exact blinker_5x5_wf|]. split; [reflexivity|]. auto.
  - exact (blinker_period_2 blinker_5x5.2 blinker_5x5.1 blinker_5x5_wf
             eq_refl Hw Hht Ha).
Defined.

(** C8. For a well-formed engine and an in-bounds cell, two toggles of the
    cell in succession give back the heap they started from, hence the
    original grid. *)
Theorem toggle_twice h this x y :
  wf h this → 0 ≤ x < width this → 0 ≤ y < height this →
  ∃ h1, toggle this h x y = Ok h1 ∧ toggle this h1 x y = Ok h.
Proof.
  intros (Hw & Hht & ga & Hga & Hd & Hlen & Hrows & Hinj) Hx Hy.
  destruct (proj2 (Hd y)) as [r Hr]; [lia|].
  destruct (Hrows y r Hr) as (ra & Hra & Hda & Hla & Hval).
  destruct (proj2 (Hda x)) as [v Hxv]; [lia|].
  unfold toggle. rewrite xyFromEvent_inside by done.
  unfold cell_read, cell_write. cbn. rewrite Hga. cbn. rewrite Hr, Hra. cbn.
  eexists. split; [done|]. cbn. rewrite Hga. cbn. rewrite Hr, lookup_insert_eq. cbn.
  rewrite lookup_insert_eq, Hxv. cbn. f_equal. destruct h as [rs gs]. cbn in *. f_equal.
  rewrite insert_insert_eq.
  assert (Hv : (if (if v =? 1 then 0 else 1) =? 1 then 0 else 1) = v).
  { destruct (Hval x v Hxv) as [-> | ->]; done. }
  rewrite Hv. rewrite set_prop_restore by done. by apply insert_id.
Qed.

Lemma toggle_twice_witness :
  (wf glider_4x4.2 glider_4x4.1 ∧
   0 ≤ 2 < width glider_4x4.1 ∧ 0 ≤ 1 < height glider_4x4.1) ∧
  ∃ h1, toggle glider_4x4.1 glider_4x4.2 2 1 = Ok h1 ∧
        cellAt h1 (cells glider_4x4.1) 2 1 = 0 ∧
        toggle glider_4x4.1 h1 2 1 = Ok glider_4x4.2.
Proof.
  assert (Hx : 0 ≤ 2 < width glider_4x4.1) by (cbn; lia).
  assert (Hy : 0 ≤ 1 < height glider_4x4.1) by (cbn; lia).
  split; [split; [exact glider_4x4_wf|auto]|].
  destruct (toggle_twice glider_4x4.2 glider_4x4.1 2 1 glider_4x4_wf Hx Hy)
    as (h1 & H1 & H2).
  exists h1. split; [exact H1|]. split; [|exact H2].
  assert (Hv : ∃ h0, toggle glider_4x4.1 glider_4x4.2 2 1 = Ok h0
                     ∧ cellAt h0 (cells glider_4x4.1) 2 1 = 0).
  { eexists. split; vm_compute; reflexivity. }
  destruct Hv as (h0 & Hv & Hc). rewrite H1 in Hv. by injection Hv as ->.
Defined.

(** C9. After [clear] every cell is DEAD and the population is 0; whatever
    the draws in [0, 1), after [randomize(0)] every cell is DEAD and the
    population is 0, and after [randomize(1)] every cell is ALIVE and the
    population is width times height.  In each case the engine is well
    formed afterwards, with the dimensions and the wrap mode of before, and
    the state of a cell is what reading it from the grid yields. *)
Theorem clear_randomize_extremes h this :
  wf h this →
  (∃ this' h', clear this h = Ok (this', h') ∧
     width this' = width this ∧ height this' = height this ∧
     wrap this' = wrap this ∧ wf h' this' ∧
     has_dims h' (cells this') (width this) (height this) ∧
     (∀ x y, 0 ≤ x < width this → 0 ≤ y < height this →
        cell_read h' (cells this') (Num y) (Num x) = Ok (Some 0)) ∧
     (∀ x y, 0 ≤ x < width this → 0 ≤ y < height this →
        cellAt h' (cells this') x y = 0) ∧
     population_of h' (cells this') (width this) (height this) = 0) ∧
  (∀ draws k, (∀ i, (0 <= draws i)%Q ∧ (draws i < 1)%Q) →
     (∃ k' h', randomize draws this 0%Q k h = Ok (k', h') ∧
        wf h' this ∧
        has_dims h' (cells this) (width this) (height this) ∧
        (∀ x y, 0 ≤ x < width this → 0 ≤ y < height this →
           cell_read h' (cells this) (Num y) (Num x) = Ok (Some 0)) ∧
        (∀ x y, 0 ≤ x < width this → 0 ≤ y < height this →
           cellAt h' (cells this) x y = 0) ∧
        population_of h' (cells this) (width this) (height this) = 0) ∧
     (∃ k' h', randomize draws this 1%Q k h = Ok (k', h') ∧
        wf h' this ∧
        has_dims h' (cells this) (width this) (height this) ∧
        (∀ x y, 0 ≤ x < width this → 0 ≤ y < height this →
           cell_read h' (cells this) (Num y) (Num x) = Ok (Some 1)) ∧
        (∀ x y, 0 ≤ x < width this → 0 ≤ y < height this →
           cellAt h' (cells this) x y = 1) ∧
        population_of h' (cells this) (width this) (height this)
        = width this * height this)).
Proof.
  intros Hwf. pose proof Hwf as (Hw & Hht & _). split.
  - destruct (clear_ok h this Hwf) as (g & hh & Hcl & _ & _ & Hwf' & Hz).
    exists (with_cells this g), hh. split; [done|]. do 3 (split; [done|]).
    split; [done|]. split; [apply grid_ok_dims, Hwf'|]. split.
    { intros x y Hx Hy. rewrite (reads_ok hh (with_cells this g)) by done.
      cbn [cells with_cells]. by rewrite Hz. }
    split; [by intros|].
    cbn [cells with_cells]. unfold population_of.
    rewrite (population_const _ _ _ 0); [cbn; lia|lia|lia|by intros].
  - intros draws k Hd. split.
    + destruct (randomize_ok draws this 0%Q k h Hwf) as (k' & hh & Hr & Hwf' & _ & _ & Hv).
      assert (Hz : ∀ x y, 0 ≤ x < width this → 0 ≤ y < height this →
                          cellAt hh (cells this) x y = 0).
      { intros x y Hx Hy. rewrite Hv by done. unfold drawn.
        destruct (Qlt_le_dec _ _) as [Hlt|_]; [|done].
        exfalso. eapply Qlt_not_le; [exact Hlt|]. apply Hd. }
      exists k', hh. do 2 (split; [done|]). split; [apply grid_ok_dims, Hwf'|]. split.
      { intros x y Hx Hy. rewrite (reads_ok hh this) by done. by rewrite Hz. }
      split; [done|]. unfold population_of.
      rewrite (population_const _ _ _ 0); [cbn; lia|lia|lia|done].
    + destruct (randomize_ok draws this 1%Q k h Hwf) as (k' & hh & Hr & Hwf' & _ & _ & Hv).
      assert (Hz : ∀ x y, 0 ≤ x < width this → 0 ≤ y < height this →
                          cellAt hh (cells this) x y = 1).
      { intros x y Hx Hy. rewrite Hv by done. unfold drawn.
        destruct (Qlt_le_dec _ _) as [_|Hle]; [done|].
        exfalso. eapply Qlt_not_le; [|exact Hle]. apply Hd. }
      exists k', hh. do 2 (split; [done|]). split; [apply grid_ok_dims, Hwf'|]. split.
      { intros x y Hx Hy. rewrite (reads_ok hh this) by done. by rewrite Hz. }
      split; [done|]. unfold population_of.
      rewrite (population_const _ _ _ 1); [cbn; lia|lia|lia|done].
Qed.

Lemma sevenths_unit i : (0 <= sevenths i)%Q ∧ (sevenths i < 1)%Q.
Proof.
  unfold sevenths, Qle, Qlt. cbn.
  pose proof (Z.mod_pos_bound (Z.of_nat i) 7). lia.
Qed.

Lemma clear_randomize_extremes_witness :
  (wf glider_4x4.2 glider_4x4.1 ∧
   ∀ i, (0 <= sevenths i)%Q ∧ (sevenths i < 1)%Q) ∧
  (∃ this' h', clear glider_4x4.1 glider_4x4.2 = Ok (this', h') ∧
     width this' = 4 ∧ height this' = 4 ∧ wf h' this' ∧
     has_dims h' (cells this') 4 4 ∧
     cell_read h' (cells this') (Num 3) (Num 3) = Ok (Some 0) ∧
     population_of h' (cells this') 4 4 = 0) ∧
  (∃ k' h', randomize sevenths glider_4x4.1 0%Q 0 glider_4x4.2 = Ok (k', h') ∧
     wf h' glider_4x4.1 ∧
     cell_read h' (cells glider_4x4.1) (Num 0) (Num 1) = Ok (Some 0) ∧
     population_of h' (cells glider_4x4.1) 4 4 = 0) ∧
  (∃ k' h', randomize sevenths glider_4x4.1 1%Q 0 glider_4x4.2 = Ok (k', h') ∧
     wf h' glider_4x4.1 ∧
     cell_read h' (cells glider_4x4.1) (Num 0) (Num 0) = Ok (Some 1) ∧
     population_of h' (cells glider_4x4.1) 4 4 = 16).
Proof.
  split; [split; [exact glider_4x4_wf|exact sevenths_unit]|].
  destruct (clear_randomize_extremes glider_4x4.2 glider_4x4.1 glider_4x4_wf)
    as ((this' & h' & Hcl & Hw & Hh & _ & Hwf & Hdim & Hrd & _ & Hp) & Hr).
  destruct (Hr sevenths 0%nat sevenths_unit)
    as ((k0 & h0 & Hr0 & Hwf0 & _ & Hrd0 & _ & Hp0)
        & (k1 & h1 & Hr1 & Hwf1 & _ & Hrd1 & _ & Hp1)).
  assert (H3 : 0 ≤ 3 < width glider_4x4.1) by (cbn; lia).
  assert (H1 : 0 ≤ 1 < width glider_4x4.1) by (cbn; lia).
  assert (H0 : 0 ≤ 0 < width glider_4x4.1) by (cbn; lia).
  split.
  { exists this', h'. split; [exact Hcl|]. split; [exact Hw|]. split; [exact Hh|].
    split; [exact Hwf|]. split; [exact Hdim|]. split; [exact (Hrd 3 3 H3 H3)|exact Hp]. }
  split.
  { exists k0, h0. split; [exact Hr0|]. split; [exact Hwf0|].
    split; [exact (Hrd0 1 0 H1 H0)|exact Hp0]. }
  exists k1, h1. split; [exact Hr1|]. split; [exact Hwf1|].
  split; [exact (Hrd1 0 0 H0 H0)|exact Hp1].
Defined.



(** * Further properties of the engine *)

(** ** cloneCells *)

Lemma slice_dense {V} (a : jsarray V) : dense a → slice a = a.
Proof.
  intros Hd. destruct a as [p n]. unfold slice. cbn. f_equal.
  apply map_filter_id. intros i x Hi. cbn. apply (Hd i). eauto.
Qed.

Lemma cloning_step h w ga g k hh this :
  grids h !! cells this = Some ga → cells this ≠ g → dense ga →
  (∀ y r, props ga !! y = Some r → ∃ ra, rows h !! r = Some ra ∧ row_ok w ra) →
  0 ≤ k < alength ga →
  cloning h w ga g k hh →
  ∃ hh', match grids hh !! cells this with
         | None => Throw Dangling
         | Some ga1 =>
             match props ga1 !! k with
             | None => Ok hh
             | Some r =>
                 match rows hh !! r with
                 | None => Throw Dangling
                 | Some ra =>
                     let '(r', hh1) := alloc_row (slice ra) hh in
                     grid_set_row hh1 g k r'
                 end
             end
         end = Ok hh' ∧ cloning h w ga g (k + 1) hh'.
Proof.
  intros Hga Hne Hd Hrows Hk (Hsub & ga' & Hgr & Hlen & Hdom & Hcopy & Hinj).
  rewrite Hgr, lookup_insert_ne, Hga by done.
  destruct (proj2 (Hd k)) as [r Hr]; [lia|]. rewrite Hr.
  destruct (Hrows k r Hr) as (ra & Hra & Hok).
  rewrite (lookup_weaken _ _ _ _ Hra Hsub).
  rewrite (slice_dense ra) by apply Hok.
  unfold alloc_row, grid_set_row. cbn. rewrite Hgr, lookup_insert_eq.
  eexists. split; [done|].
  pose proof (fresh_row_None hh) as Hfr. set (r' := fresh (dom (rows hh))) in *.
  assert (Hfr0 : rows h !! r' = None).
  { destruct (rows h !! r') eqn:E; [|done].
    by rewrite (lookup_weaken _ _ _ _ E Hsub) in Hfr. }
  clearbody r'. split; cbn.
  { by apply insert_subseteq_r. }
  exists (set_prop ga' k r'). rewrite insert_insert_eq. split; [done|]. split.
  { cbn. destruct ((0 <=? k) && (k <? MAX_ARRAY_LENGTH)); lia. }
  split; [|split].
  - intros i. cbn. rewrite lookup_insert_is_Some, (Hdom i). lia.
  - intros i r1. cbn. rewrite lookup_insert_Some. intros [[<- <-]|[Hni Hi]].
    + split; [done|]. exists r, ra. by rewrite lookup_insert_eq.
    + destruct (Hcopy i r1 Hi) as (Hn & r0 & ra0 & H1 & H2 & H3 & H4).
      split; [done|]. exists r0, ra0. do 3 (split; [done|]).
      rewrite lookup_insert_ne; [done|]. intros <-. congruence.
  - intros i1 i2 r1. cbn. rewrite !lookup_insert_Some.
    intros [[E1 E1']|[Hn1 H1]] [[E2 E2']|[Hn2 H2]].
    + congruence.
    + subst r1. destruct (Hcopy i2 r' H2) as (_ & ? & ? & _ & _ & _ & H4). congruence.
    + subst r1. destruct (Hcopy i1 r' H1) as (_ & ? & ? & _ & _ & _ & H4). congruence.
    + by eapply Hinj.
Qed.

Lemma cloneCells_ok h this :
  wf h this →
  ∃ g hh, cloneCells this h = Ok (g, hh) ∧
    heap_le h hh ∧ grid_new h hh g ∧ wf hh (with_cells this g) ∧
    ∀ x y, cellAt hh g x y = cellAt h (cells this) x y.
Proof.
  intros (Hw & Hht & ga & Hga & Hd & Hlen & Hrows & Hinj).
  unfold cloneCells. rewrite Hga. unfold alloc_grid. cbv beta iota zeta.
  pose proof (fresh_grid_None h) as Hfg. set (g := fresh (dom (grids h))) in *.
  assert (Hne : cells this ≠ g) by (intros E; rewrite E in Hga; congruence).
  match goal with
  | |- context [for_upto ?hi ?body ?s0] =>
      destruct (for_upto_inv (cloning h (width this) ga g) body hi s0)
        as (hh & Hloop & Hsub & ga' & Hgr & Hlen' & Hdom & Hcopy & Hinj')
  end.
  - lia.
  - split; [done|]. eexists. cbn. split; [done|]. split; [done|].
    split; [|split]; intros *; rewrite ?lookup_empty; try done.
    split; [by intros [? ?]|lia].
  - intros k t Hk Ht. by eapply cloning_step.
  - exists g, hh. rewrite Hloop. cbn. split; [done|].
    assert (Hgg : grids hh !! g = Some ga') by (by rewrite Hgr, lookup_insert_eq).
    split; [|split; [|split]].
    + split; [done|]. rewrite Hgr. by apply insert_subseteq.
    + split; [done|]. intros ga1 y r Hga1 Hy. rewrite Hgg in Hga1.
      injection Hga1 as <-. by destruct (Hcopy y r Hy).
    + unfold wf. cbn. do 2 (split; [done|]). exists ga'.
      split; [done|]. split; [by intros i; rewrite Hlen'|]. split; [congruence|].
      split; [|done]. intros y r Hy.
      destruct (Hcopy y r Hy) as (_ & r0 & ra & _ & _ & Hok & Hra). eauto.
    + intros x y. unfold cellAt, cell_read. rewrite Hgg, Hga.
      cbn. destruct (props ga' !! y) as [r'|] eqn:Hy.
      * destruct (Hcopy y r' Hy) as (_ & r0 & ra & Hr0 & Hra0 & _ & Hra).
        rewrite Hra, Hr0, Hra0. done.
      * destruct (props ga !! y) as [r|] eqn:Hy0; [|done].
        assert (is_Some (props ga' !! y)) as [? ?]; [|congruence].
        apply Hdom. apply Hd. eauto.
Qed.

Lemma cell_write_new_grid h hh g x y v hh' :
  heap_le h hh → grid_new h hh g → cell_write hh g y x v = Ok hh' →
  heap_le h hh' ∧ grid_new h hh' g.
Proof.
  intros [Hr Hg] [Hn1 Hn2]. unfold cell_write.
  destruct (grids hh !! g) as [ga|] eqn:Hga; [|done].
  destruct (props ga !! y) as [r|] eqn:Hy; [|done].
  destruct (rows hh !! r) as [ra|] eqn:Hra; [|done].
  intros [= <-]. split; [split|split]; cbn.
  - apply insert_subseteq_r; [|done]. by eapply Hn2.
  - done.
  - done.
  - intros ga0 y0 r0 E. apply Hn2. congruence.
Qed.

Lemma cell_write_other_grid hh g1 g2 x y v hh' :
  cell_write hh g1 y x v = Ok hh' →
  (∀ ga1 ga2 y1 y2 r, grids hh !! g1 = Some ga1 → grids hh !! g2 = Some ga2 →
     props ga1 !! y1 = Some r → props ga2 !! y2 = Some r → False) →
  ∀ x' y', cellAt hh' g2 x' y' = cellAt hh g2 x' y'.
Proof.
  unfold cell_write.
  destruct (grids hh !! g1) as [ga1|] eqn:Hga1; [|done].
  destruct (props ga1 !! y) as [r|] eqn:Hy; [|done].
  destruct (rows hh !! r) as [ra|] eqn:Hra; [|done].
  intros [= <-] Hdis x' y'. unfold cellAt, cell_read. cbn.
  destruct (grids hh !! g2) as [ga2|] eqn:Hga2; [|done]. cbn.
  destruct (props ga2 !! y') as [r2|] eqn:Hy2; [|done].
  rewrite lookup_insert_ne; [done|]. intros <-.
  by eapply (Hdis ga1 ga2 y y' r).
Qed.

Lemma toggle_new_grid h hh this x y hh' :
  heap_le h hh → grid_new h hh (cells this) → toggle this hh x y = Ok hh' →
  heap_le h hh' ∧ grid_new h hh' (cells this).
Proof.
  intros Hle Hnew. unfold toggle. destruct (xyFromEvent this x y) as [[x0 y0]|].
  - destruct (cell_read hh (cells this) (Num y0) (Num x0)) as [c|]; [|done].
    cbn. by apply cell_write_new_grid.
  - by intros [= <-].
Qed.

Lemma toggle_other_grid hh this g2 x y hh' :
  toggle this hh x y = Ok hh' →
  (∀ ga1 ga2 y1 y2 r, grids hh !! cells this = Some ga1 → grids hh !! g2 = Some ga2 →
     props ga1 !! y1 = Some r → props ga2 !! y2 = Some r → False) →
  ∀ x' y', cellAt hh' g2 x' y' = cellAt hh g2 x' y'.
Proof.
  unfold toggle. destruct (xyFromEvent this x y) as [[x0 y0]|].
  - destruct (cell_read hh (cells this) (Num y0) (Num x0)) as [c|]; [|done].
    cbn. apply cell_write_other_grid.
  - by intros [= <-].
Qed.

(** X1. [cloneCells] returns a deep copy: a grid of the same dimensions and
    cell states whose arrays are new objects.  Toggling a cell through the
    copy leaves the cells of the live grid as they were, and toggling a cell
    of the live grid leaves the copy as it was. *)
Theorem cloneCells_deep_copy h this :
  wf h this →
  ∃ g h1, cloneCells this h = Ok (g, h1) ∧ heap_le h h1 ∧
    has_dims h1 g (width this) (height this) ∧
    (∀ x y, cellAt h1 g x y = cellAt h (cells this) x y) ∧
    (∀ x y h2, toggle (with_cells this g) h1 x y = Ok h2 →
       ∀ x' y', cellAt h2 (cells this) x' y' = cellAt h (cells this) x' y') ∧
    (∀ x y h2, toggle this h1 x y = Ok h2 →
       ∀ x' y', cellAt h2 g x' y' = cellAt h (cells this) x' y').
Proof.
  intros Hwf.
  destruct (cloneCells_ok h this Hwf) as (g & h1 & Hc & Hle & Hnew & Hwf1 & Hview).
  exists g, h1. do 2 (split; [done|]).
  split; [destruct Hwf1 as (_ & _ & Hok); by apply grid_ok_dims|].
  split; [done|]. destruct Hwf as (Hw & Hht & Hg). split.
  - intros x y h2 Ht x' y'.
    destruct (toggle_new_grid h h1 (with_cells this g) x y h2 Hle Hnew Ht) as [Hle2 _].
    by eapply cellAt_mono.
  - intros x y h2 Ht x' y'. rewrite <- Hview.
    apply (toggle_other_grid h1 this g x y h2 Ht).
    intros ga1 ga2 y1 y2 r Hga1 Hga2 Hy1 Hy2.
    destruct Hnew as [_ Hn2]. pose proof (Hn2 ga2 y2 r Hga2 Hy2) as Hnone.
    destruct Hg as (ga & Hga & _ & _ & Hrows & _).
    destruct Hle as [Hler Hleg].
    rewrite (lookup_weaken _ _ _ _ Hga Hleg) in Hga1. injection Hga1 as <-.
    destruct (Hrows y1 r Hy1) as (ra & Hra & _). congruence.
Qed.

Lemma cloneCells_deep_copy_witness :
  wf glider_4x4.2 glider_4x4.1 ∧
  ∃ g h1 h2, cloneCells glider_4x4.1 glider_4x4.2 = Ok (g, h1) ∧
    cellAt h1 g 1 0 = 1 ∧
    toggle (with_cells glider_4x4.1 g) h1 1 0 = Ok h2 ∧
    cellAt h2 g 1 0 = 0 ∧
    cellAt h2 (cells glider_4x4.1) 1 0 = 1.
Proof.
  split; [exact glider_4x4_wf|].
  destruct (cloneCells_deep_copy glider_4x4.2 glider_4x4.1 glider_4x4_wf)
    as (g & h1 & Hc & _ & _ & Hview & Hfree & _).
  assert (Hv : ∃ g0 h0 h2, cloneCells glider_4x4.1 glider_4x4.2 = Ok (g0, h0) ∧
             toggle (with_cells glider_4x4.1 g0) h0 1 0 = Ok h2 ∧
             cellAt h2 g0 1 0 = 0).
  { do 3 eexists. split; [vm_compute; reflexivity|].
    split; vm_compute; reflexivity. }
  destruct Hv as (g0 & h0 & h2 & Hc0 & Ht & Hz). rewrite Hc in Hc0.
  injection Hc0 as <- <-. exists g, h1, h2. split; [exact Hc|].
  split; [rewrite Hview; reflexivity|]. split; [exact Ht|]. split; [exact Hz|].
  rewrite (Hfree 1 0 h2 Ht). reflexivity.
Defined.

(** ** getWrapped *)

Lemma rem_below_zero a n :
  0 < n → a + n < 0 → ¬ (n | a) → Z.rem (a + n) n < 0.
Proof.
  intros Hn Ha Hdiv.
  pose proof (Z.rem_bound_pos_neg (a + n) n Hn) as Hb.
  assert (Z.rem (a + n) n ≠ 0); [|lia].
  intros E. apply Z.rem_divide in E; [|lia]. apply Hdiv.
  replace a with (a + n - n) by lia. apply Z.divide_sub_r; [done|].
  apply Z.divide_refl.
Qed.

(** X2. Within one period below zero and anywhere above, as far as the
    coordinates and their sums with the dimensions are safe integers,
    [getWrapped] reads the cell at the coordinates reduced modulo the
    dimensions: for [x ≥ -width] and [y ≥ -height] it returns the state of
    cell [(x mod width, y mod height)]. *)
Theorem getWrapped_torus h this x y :
  wf h this → 0 < width this → 0 < height this →
  safe_integer x → safe_integer (x + width this) →
  safe_integer y → safe_integer (y + height this) →
  - width this ≤ x → - height this ≤ y →
  getWrapped this h x y =
  Ok (Some (cellAt h (cells this) (x `mod` width this) (y `mod` height this))).
Proof.
  intros (_ & _ & Hg) Hw Hht _ _ _ _ Hx Hy. unfold getWrapped.
  rewrite !jsrem_wrapped by lia.
  destruct (cell_read_ok h _ _ _ (x `mod` width this) (y `mod` height this) Hg)
    as [-> _]; [apply Z.mod_pos_bound; lia..|done].
Qed.

Lemma getWrapped_torus_witness :
  (wf corner_3x3_wrap.2 corner_3x3_wrap.1 ∧
   0 < width corner_3x3_wrap.1 ∧ 0 < height corner_3x3_wrap.1 ∧
   safe_integer 3 ∧ safe_integer (3 + width corner_3x3_wrap.1) ∧
   safe_integer (-3) ∧ safe_integer (-3 + height corner_3x3_wrap.1) ∧
   - width corner_3x3_wrap.1 ≤ 3 ∧ - height corner_3x3_wrap.1 ≤ -3) ∧
  getWrapped corner_3x3_wrap.1 corner_3x3_wrap.2 3 (-3) = Ok (Some 1).
Proof.
  assert (Hw : 0 < width corner_3x3_wrap.1) by (cbn; lia).
  assert (Hht : 0 < height corner_3x3_wrap.1) by (cbn; lia).
  assert (S1 : safe_integer 3) by (unfold safe_integer, MAX_SAFE_INTEGER; lia).
  assert (S2 : safe_integer (3 + width corner_3x3_wrap.1))
    by (unfold safe_integer, MAX_SAFE_INTEGER; cbn; lia).
  assert (S3 : safe_integer (-3)) by (unfold safe_integer, MAX_SAFE_INTEGER; lia).
  assert (S4 : safe_integer (-3 + height corner_3x3_wrap.1))
    by (unfold safe_integer, MAX_SAFE_INTEGER; cbn; lia).
  assert (Hx : - width corner_3x3_wrap.1 ≤ 3) by (cbn; lia).
  assert (Hy : - height corner_3x3_wrap.1 ≤ -3) by (cbn; lia).
  split; [split; [exact corner_3x3_wrap_wf|auto 10]|].
  rewrite (getWrapped_torus corner_3x3_wrap.2 corner_3x3_wrap.1 3 (-3)
             corner_3x3_wrap_wf Hw Hht S1 S2 S3 S4 Hx Hy).
  reflexivity.
Defined.

Lemma getWrapped_negative_column h this x y :
  wf h this → 0 < width this → 0 < height this →
  x + width this < 0 → ¬ (width this | x) → - height this ≤ y →
  getWrapped this h x y = Ok None.
Proof.
  intros (_ & _ & ga & Hga & Hd & Hlen & Hrows & _) Hw Hht Hx Hdiv Hy.
  unfold getWrapped, cell_read. rewrite Hga.
  rewrite (jsrem_wrapped y) by lia. cbn.
  destruct (proj2 (Hd (y `mod` height this))) as [r Hr].
  { rewrite Hlen. apply Z.mod_pos_bound. lia. }
  rewrite Hr. destruct (Hrows _ r Hr) as (ra & Hra & Hda & Hla & _). rewrite Hra.
  unfold jsrem. destruct (width this =? 0) eqn:E; [lia|]. cbn. f_equal.
  pose proof (rem_below_zero x (width this) Hw Hx Hdiv) as Hneg.
  destruct (props ra !! Z.rem (x + width this) (width this)) as [v|] eqn:Hv; [|done].
  assert (0 ≤ Z.rem (x + width this) (width this) < alength ra)
    by (apply Hda; eauto). lia.
Qed.

(** X3. More than one period below zero [getWrapped] does not wrap, the
    coordinates being safe integers: when [x + width < 0] and [x] is no
    multiple of [width] it reads at a negative index and returns undefined,
    and when [y + height < 0] and [y] is no multiple of [height] it raises a
    TypeError. *)
Theorem getWrapped_below_period h this x y :
  wf h this → 0 < width this → 0 < height this →
  safe_integer x → safe_integer (x + width this) →
  safe_integer y → safe_integer (y + height this) →
  (x + width this < 0 → ¬ (width this | x) → - height this ≤ y →
   getWrapped this h x y = Ok None) ∧
  (y + height this < 0 → ¬ (height this | y) →
   getWrapped this h x y = Throw TypeError).
Proof.
  intros Hwf Hw Hht _ _ _ _. split.
  - intros Hx Hdiv Hy. by apply getWrapped_negative_column.
  - destruct Hwf as (_ & _ & ga & Hga & Hd & Hlen & Hrows & _).
    unfold getWrapped, cell_read. rewrite Hga.
    intros Hy Hdiv. unfold jsrem.
    destruct (height this =? 0) eqn:E; [lia|]. cbn.
    pose proof (rem_below_zero y (height this) Hht Hy Hdiv) as Hneg.
    destruct (props ga !! Z.rem (y + height this) (height this)) as [r|] eqn:Hr; [|done].
    assert (0 ≤ Z.rem (y + height this) (height this) < alength ga)
      by (apply Hd; eauto). lia.
Qed.

Lemma getWrapped_below_period_witness :
  (wf corner_3x3_wrap.2 corner_3x3_wrap.1 ∧
   0 < width corner_3x3_wrap.1 ∧ 0 < height corner_3x3_wrap.1 ∧
   safe_integer (-4) ∧ safe_integer (-4 + width corner_3x3_wrap.1) ∧
   safe_integer 0 ∧ safe_integer (0 + height corner_3x3_wrap.1) ∧
   -4 + width corner_3x3_wrap.1 < 0 ∧ ¬ (width corner_3x3_wrap.1 | -4) ∧
   - height corner_3x3_wrap.1 ≤ 0) ∧
  getWrapped corner_3x3_wrap.1 corner_3x3_wrap.2 (-4) 0 = Ok None ∧
  getWrapped corner_3x3_wrap.1 corner_3x3_wrap.2 0 (-4) = Throw TypeError.
Proof.
  assert (Hw : 0 < width corner_3x3_wrap.1) by (cbn; lia).
  assert (Hht : 0 < height corner_3x3_wrap.1) by (cbn; lia).
  assert (S1 : safe_integer (-4)) by (unfold safe_integer, MAX_SAFE_INTEGER; lia).
  assert (S2 : safe_integer (-4 + width corner_3x3_wrap.1))
    by (unfold safe_integer, MAX_SAFE_INTEGER; cbn; lia).
  assert (S3 : safe_integer 0) by (unfold safe_integer, MAX_SAFE_INTEGER; lia).
  assert (S4 : safe_integer (0 + height corner_3x3_wrap.1))
    by (unfold safe_integer, MAX_SAFE_INTEGER; cbn; lia).
  assert (H4 : -4 + 3 < 0) by lia.
  assert (Hdiv : ¬ (3 | -4)).
  { intros [q Hq]. lia. }
  assert (Hy : - height corner_3x3_wrap.1 ≤ 0) by (cbn; lia).
  split; [split; [exact corner_3x3_wrap_wf|]; do 2 (split; [assumption|]);
          do 4 (split; [assumption|]);
          split; [exact H4|]; split; [exact Hdiv|exact Hy]|].
  split.
  - exact (proj1 (getWrapped_below_period corner_3x3_wrap.2 corner_3x3_wrap.1 (-4) 0
                    corner_3x3_wrap_wf Hw Hht S1 S2 S3 S4) H4 Hdiv Hy).
  - exact (proj2 (getWrapped_below_period corner_3x3_wrap.2 corner_3x3_wrap.1 0 (-4)
                    corner_3x3_wrap_wf Hw Hht S3 S4 S1 S2) H4 Hdiv).
Defined.

(** ** countNeighbors at any centre *)

Lemma countNeighbors_body_flat h this x y dy dx c :
  wf h this → wrap this = false → ¬ (dx = 0 ∧ dy = 0) →
  countNeighbors_body this h x y dy dx (Num c) =
  Ok (Num (c + if neighbor_alive (cellAt h (cells this)) false
                    (width this) (height this) x y (dx, dy) then 1 else 0)).
Proof.
  intros (Hw & Hh & Hg) Hwr Hne.
  unfold countNeighbors_body, neighbor_alive, neighbor_pos. cbn [fst snd].
  destruct ((dx =? 0) && (dy =? 0)) eqn:E.
  { apply andb_prop in E as [? ?]. lia. }
  rewrite Hwr, inBounds_decide. case_bool_decide as Hin.
  - destruct (cell_read_ok h _ _ _ (x + dx) (y + dy) Hg) as [-> Hv]; [lia..|].
    cbn. do 2 f_equal. destruct Hv as [-> | ->]; done.
  - do 2 f_equal. lia.
Qed.

(** X4. Without wrap [countNeighbors] is defined at every centre, inside the
    grid or not: it returns the number, between 0 and 8, of Moore neighbours
    of [(x, y)] that lie inside the grid and are ALIVE, which is 0 when the
    centre is two cells or more away from the grid. *)
Theorem countNeighbors_flat_any_centre h this x y :
  wf h this → wrap this = false →
  ∃ n, countNeighbors this h x y = Ok (Num n) ∧ 0 ≤ n ≤ 8 ∧
    n = alive_neighbors (cellAt h (cells this)) false
          (width this) (height this) x y ∧
    (x < -1 ∨ width this < x ∨ y < -1 ∨ height this < y → n = 0).
Proof.
  intros Hwf Hwr. eexists. split; [|split; [apply alive_neighbors_bounds|split; [done|]]].
  - unfold countNeighbors. cbn [for_loop].
    change (-1 + 1) with 0. change (0 + 1) with 1.
    repeat (first [ rewrite countNeighbors_body_center
                  | rewrite (countNeighbors_body_flat h this x y)
                      by (first [assumption | lia]) ];
            cbn [mbind result_bind]).
    do 2 f_equal. rewrite alive_neighbors_unfold. cbv zeta. ring.
  - intros Hfar. rewrite alive_neighbors_unfold. cbv beta zeta.
    rewrite !neighbor_alive_outside by (cbn [fst snd]; lia). done.
Qed.

Lemma countNeighbors_flat_any_centre_witness :
  (wf corner_3x3_flat.2 corner_3x3_flat.1 ∧ wrap corner_3x3_flat.1 = false) ∧
  countNeighbors corner_3x3_flat.1 corner_3x3_flat.2 (-1) (-1) = Ok (Num 1) ∧
  countNeighbors corner_3x3_flat.1 corner_3x3_flat.2 (-2) 0 = Ok (Num 0).
Proof.
  split; [split; [exact corner_3x3_flat_wf|reflexivity]|].
  split.
  - destruct (countNeighbors_flat_any_centre corner_3x3_flat.2 corner_3x3_flat.1
                (-1) (-1) corner_3x3_flat_wf eq_refl) as (n & -> & _ & -> & _).
    reflexivity.
  - destruct (countNeighbors_flat_any_centre corner_3x3_flat.2 corner_3x3_flat.1
                (-2) 0 corner_3x3_flat_wf eq_refl) as (n & -> & _ & _ & Hz).
    rewrite Hz; [reflexivity|lia].
Defined.

Lemma divide_or_not n a : n ≠ 0 → (n | a) ∨ ¬ (n | a).
Proof.
  intros Hn. destruct (Z.eq_dec (Z.rem a n) 0) as [E|E].
  - left. by apply Z.rem_divide.
  - right. intros Hd. by apply E, Z.rem_divide.
Qed.

Lemma getWrapped_far_left h this x y :
  wf h this → 0 < width this → 0 < height this →
  x + width this < 0 → - height this ≤ y →
  ∃ v, getWrapped this h x y = Ok v ∧ (¬ (width this | x) → v = None).
Proof.
  intros Hwf Hw Hht Hx Hy.
  destruct (divide_or_not (width this) x) as [Hdiv|Hdiv]; [lia| |].
  - destruct Hwf as (_ & _ & ga & Hga & Hd & Hlen & Hrows & _).
    unfold getWrapped, cell_read. rewrite Hga. rewrite (jsrem_wrapped y) by lia. cbn.
    destruct (proj2 (Hd (y `mod` height this))) as [r Hr].
    { rewrite Hlen. apply Z.mod_pos_bound. lia. }
    rewrite Hr. destruct (Hrows _ r Hr) as (ra & Hra & _). rewrite Hra.
    eexists. split; [done|]. done.
  - exists None. split; [|done].
    by apply getWrapped_negative_column.
Qed.

Lemma consecutive_not_both_multiples n a :
  2 ≤ n → (n | a) → ¬ (n | a - 1).
Proof.
  intros Hn Ha Hb.
  assert (H1 : (n | 1)).
  { replace 1 with (a - (a - 1)) by lia. by apply Z.divide_sub_r. }
  apply Z.divide_1_r_nonneg in H1; lia.
Qed.

(** X5. With wrap, on a grid at least 2 wide, [countNeighbors] at a centre
    more than one period left of the grid ([x + 1 + width < 0], [y] in
    range, [x - 1] still a safe integer, so that the three columns around
    [x] are distinct numbers) raises nothing and returns NaN: one of its
    reads is at a negative column and yields undefined. *)
Theorem countNeighbors_wrap_far_left_NaN h this x y :
  wf h this → wrap this = true → 2 ≤ width this →
  safe_integer (x - 1) →
  x + 1 + width this < 0 → 0 ≤ y < height this →
  countNeighbors this h x y = Ok NaN.
Proof.
  intros Hwf Hwr Hw _ Hx Hy.
  assert (G : ∀ dx dy, -1 ≤ dx ≤ 1 → -1 ≤ dy ≤ 1 →
            ∃ v, getWrapped this h (x + dx) (y + dy) = Ok v ∧
                 (¬ (width this | x + dx) → v = None)).
  { intros dx dy Hdx Hdy. apply getWrapped_far_left; first [done | lia]. }
  destruct (G (-1) (-1)) as (v1 & E1 & N1); [lia..|].
  destruct (G 0 (-1)) as (v2 & E2 & N2); [lia..|].
  destruct (G 1 (-1)) as (v3 & E3 & _); [lia..|].
  destruct (G (-1) 0) as (v4 & E4 & _); [lia..|].
  destruct (G 1 0) as (v5 & E5 & _); [lia..|].
  destruct (G (-1) 1) as (v6 & E6 & _); [lia..|].
  destruct (G 0 1) as (v7 & E7 & _); [lia..|].
  destruct (G 1 1) as (v8 & E8 & _); [lia..|].
  unfold countNeighbors. cbn [for_loop].
  change (-1 + 1) with 0. change (0 + 1) with 1. unfold countNeighbors_body.
  rewrite Hwr. cbn -[Z.add getWrapped jsadd].
  rewrite E1, E2, E3, E4, E5, E6, E7, E8. cbn [mbind result_bind].
  f_equal.
  assert (Hnone : v1 = None ∨ v2 = None).
  { destruct (divide_or_not (width this) (x + 0)) as [Hd|Hd]; [lia|left|right; auto].
    apply N1. replace (x + -1) with (x + 0 - 1) by lia.
    by apply consecutive_not_both_multiples. }
  destruct Hnone as [-> | ->];
    repeat match goal with
      | |- context [jsadd _ ?v] => is_var v; destruct v
      end; reflexivity.
Qed.

Lemma countNeighbors_wrap_far_left_NaN_witness :
  (wf corner_3x3_wrap.2 corner_3x3_wrap.1 ∧ wrap corner_3x3_wrap.1 = true ∧
   2 ≤ width corner_3x3_wrap.1 ∧ safe_integer (-5 - 1) ∧
   -5 + 1 + width corner_3x3_wrap.1 < 0 ∧
   0 ≤ 1 < height corner_3x3_wrap.1) ∧
  countNeighbors corner_3x3_wrap.1 corner_3x3_wrap.2 (-5) 1 = Ok NaN.
Proof.
  assert (Hw : 2 ≤ width corner_3x3_wrap.1) by (cbn; lia).
  assert (Hs : safe_integer (-5 - 1)) by (unfold safe_integer, MAX_SAFE_INTEGER; lia).
  assert (Hx : -5 + 1 + width corner_3x3_wrap.1 < 0) by (cbn; lia).
  assert (Hy : 0 ≤ 1 < height corner_3x3_wrap.1) by (cbn; lia).
  split; [split; [exact corner_3x3_wrap_wf|]; split; [reflexivity|auto]|].
  exact (countNeighbors_wrap_far_left_NaN corner_3x3_wrap.2 corner_3x3_wrap.1 (-5) 1
           corner_3x3_wrap_wf eq_refl Hw Hs Hx Hy).
Defined.

(** ** randomize and clear on the live grid *)

(** X6. [randomize] works in place and in row-major order: it takes exactly
    width times height draws from the stream, replaces no array of the grid,
    and leaves cell [(x, y)] ALIVE exactly when the draw number
    [y * width + x] of the call is below [prob], DEAD otherwise. *)
Theorem randomize_row_major draws this prob k h :
  wf h this →
  ∃ k' h', randomize draws this prob k h = Ok (k', h') ∧
    Z.of_nat k' = Z.of_nat k + height this * width this ∧
    grids h' = grids h ∧
    ∀ x y, 0 ≤ x < width this → 0 ≤ y < height this →
      (cellAt h' (cells this) x y = 1 ↔
         (draws (Z.to_nat (Z.of_nat k + y * width this + x)) < prob)%Q) ∧
      (cellAt h' (cells this) x y = 0 ↔
         (prob <= draws (Z.to_nat (Z.of_nat k + y * width this + x)))%Q).
Proof.
  intros Hwf.
  destruct (randomize_ok draws this prob k h Hwf) as (k' & h' & Hr & _ & Hgr & Hk & Hv).
  exists k', h'. do 3 (split; [done|]). intros x y Hx Hy.
  rewrite (Hv x y Hx Hy). unfold drawn.
  destruct (Qlt_le_dec _ _) as [Hlt|Hle]; split; split; try done.
  - intros Hle. exfalso. by eapply Qlt_not_le.
  - intros Hlt. exfalso. by eapply Qlt_not_le.
Qed.

Lemma randomize_row_major_witness :
  wf glider_4x4.2 glider_4x4.1 ∧
  ∃ h', randomize sevenths glider_4x4.1 (1 # 2) 0 glider_4x4.2 = Ok (16%nat, h') ∧
    cellAt h' (cells glider_4x4.1) 2 1 = 0 ∧
    cellAt h' (cells glider_4x4.1) 3 1 = 1.
Proof.
  split; [exact glider_4x4_wf|].
  destruct (randomize_row_major sevenths glider_4x4.1 (1 # 2) 0 glider_4x4.2
              glider_4x4_wf) as (k' & h' & Hr & Hk & _ & Hv).
  assert (k' = 16%nat) as -> by (revert Hk; cbn; lia).
  exists h'. split; [exact Hr|]. split.
  - apply (proj2 (Hv 2 1 ltac:(cbn; lia) ltac:(cbn; lia))). vm_compute. discriminate.
  - apply (proj1 (Hv 3 1 ltac:(cbn; lia) ltac:(cbn; lia))). vm_compute. reflexivity.
Defined.

(** X7. [clear] replaces the grid and does not touch the old one: the engine
    gets a grid that is a new object, every object of the heap before the
    call is unchanged, and the old grid still reads as before. *)
Theorem clear_keeps_old_grid h this :
  wf h this →
  ∃ this' h', clear this h = Ok (this', h') ∧
    cells this' ≠ cells this ∧ wrap this' = wrap this ∧ heap_le h h' ∧
    ∀ x y, cellAt h' (cells this) x y = cellAt h (cells this) x y.
Proof.
  intros Hwf.
  destruct (clear_ok h this Hwf) as (g & hh & Hcl & Hle & [Hn _] & _ & _).
  exists (with_cells this g), hh. split; [done|]. cbn [cells wrap with_cells].
  destruct Hwf as (_ & _ & Hg). split.
  { intros E. destruct Hg as (ga & Hga & _). rewrite <- E in Hga. congruence. }
  do 2 (split; [done|]). intros x y. by eapply cellAt_mono.
Qed.

Lemma clear_keeps_old_grid_witness :
  wf glider_4x4.2 glider_4x4.1 ∧
  ∃ this' h', clear glider_4x4.1 glider_4x4.2 = Ok (this', h') ∧
    cells this' ≠ cells glider_4x4.1 ∧
    cellAt h' (cells glider_4x4.1) 1 0 = 1 ∧ cellAt h' (cells this') 1 0 = 0.
Proof.
  split; [exact glider_4x4_wf|].
  destruct (clear_keeps_old_grid glider_4x4.2 glider_4x4.1 glider_4x4_wf)
    as (this' & h' & Hcl & Hne & _ & _ & Hold).
  exists this', h'. split; [exact Hcl|]. split; [exact Hne|].
  split; [rewrite Hold; reflexivity|].
  assert (Hv : ∃ t0 h0, clear glider_4x4.1 glider_4x4.2 = Ok (t0, h0)
                        ∧ cellAt h0 (cells t0) 1 0 = 0).
  { do 2 eexists. split; vm_compute; reflexivity. }
  destruct Hv as (t0 & h0 & Hv & Hz). rewrite Hcl in Hv. by injection Hv as -> ->.
Defined.

(** ** Generations of uniform grids and of the block *)

Lemma alive_neighbors_none c wr w ht x y :
  (∀ i j, c i j ≠ 1) → alive_neighbors c wr w ht x y = 0.
Proof.
  intros Hc. rewrite alive_neighbors_unfold. cbv beta zeta.
  assert (E : ∀ d, neighbor_alive c wr w ht x y d = false).
  { intros d. unfold neighbor_alive. destruct (neighbor_pos wr w ht x y d) as [[i j]|];
      [|done]. apply Z.eqb_neq, Hc. }
  by rewrite !E.
Qed.

Lemma alive_neighbors_all_wrap c w ht x y :
  0 < w → 0 < ht → (∀ i j, 0 ≤ i < w → 0 ≤ j < ht → c i j = 1) →
  alive_neighbors c true w ht x y = 8.
Proof.
  intros Hw Hht Hc. rewrite alive_neighbors_unfold. cbv beta zeta.
  assert (E : ∀ d, neighbor_alive c true w ht x y d = true).
  { intros d. rewrite neighbor_alive_wrap. apply Z.eqb_eq, Hc; apply Z.mod_pos_bound; lia. }
  by rewrite !E.
Qed.

(** X8. A grid without ALIVE cells stays so: [nextGeneration] returns
    population 0 and a grid all DEAD, with and without wrap.  The grid
    returned has the dimensions of the engine, which holds it afterwards and
    is well formed, and reading any of its cells yields 0. *)
Theorem nextGeneration_all_dead h this :
  wf h this →
  (∀ x y, 0 ≤ x < width this → 0 ≤ y < height this →
     cellAt h (cells this) x y = 0) →
  ∃ newCells this' h',
    nextGeneration this h = Ok (newCells, 0, this', h') ∧
    this' = with_cells this newCells ∧ wf h' this' ∧
    has_dims h' newCells (width this) (height this) ∧
    (∀ x y, 0 ≤ x < width this → 0 ≤ y < height this →
       cell_read h' newCells (Num y) (Num x) = Ok (Some 0)) ∧
    ∀ x y, 0 ≤ x < width this → 0 ≤ y < height this → cellAt h' newCells x y = 0.
Proof.
  intros Hwf Hdead. pose proof Hwf as (Hw & Hht & Hg).
  destruct (nextGeneration_ok h this Hwf)
    as (g & pop & hh & Hng & _ & _ & Hwf' & Hrule & Hpop).
  assert (Hc : ∀ i j, cellAt h (cells this) i j ≠ 1).
  { intros i j. destruct (decide (0 ≤ i < width this ∧ 0 ≤ j < height this)) as [[? ?]|Ho].
    - rewrite Hdead by done. done.
    - rewrite (cellAt_outside h _ _ _ i j Hg Ho). done. }
  assert (Hz : ∀ x y, 0 ≤ x < width this → 0 ≤ y < height this → cellAt hh g x y = 0).
  { intros x y Hx Hy. rewrite Hrule by done. unfold rule.
    rewrite alive_neighbors_none by done.
    destruct (Z.eqb_spec (cellAt h (cells this) x y) 1) as [E|_]; [by apply Hc in E|done]. }
  exists g, (with_cells this g), hh. split.
  { rewrite Hng, Hpop. unfold population_of.
    rewrite (population_const _ _ _ 0) by (done || lia). do 4 f_equal. cbn. lia. }
  do 2 (split; [done|]). split; [apply grid_ok_dims, Hwf'|]. split; [|done].
  intros x y Hx Hy. pose proof (reads_ok hh (with_cells this g) x y Hwf' Hx Hy) as Hrd.
  cbn [cells with_cells] in Hrd. by rewrite Hrd, Hz.
Qed.

Lemma empty_3x2_wf : wf empty_3x2.2 empty_3x2.1.
Proof. built 3 2 true (@nil (Z * Z)). Qed.

Lemma uniform_3x2_wf : wf uniform_3x2.2 uniform_3x2.1.
Proof. built 3 2 true [(0, 0); (1, 0); (2, 0); (0, 1); (1, 1); (2, 1)]. Qed.

Lemma block_4x4_wf : wf block_4x4.2 block_4x4.1.
Proof. built 4 4 false [(1, 1); (2, 1); (1, 2); (2, 2)]. Qed.

Lemma alive_set_nil_dead h this :
  wf h this → alive_set h this [] →
  ∀ x y, 0 ≤ x < width this → 0 ≤ y < height this → cellAt h (cells this) x y = 0.
Proof.
  intros (_ & _ & Hg) Ha x y Hx Hy.
  destruct (cell_read_ok h _ _ _ x y Hg Hx Hy) as [_ [E|E]]; [done|].
  apply Ha in E; [|done..]. by apply elem_of_nil in E.
Qed.

Lemma nextGeneration_all_dead_witness :
  (wf empty_3x2.2 empty_3x2.1 ∧
   ∀ x y, 0 ≤ x < width empty_3x2.1 → 0 ≤ y < height empty_3x2.1 →
     cellAt empty_3x2.2 (cells empty_3x2.1) x y = 0) ∧
  ∃ newCells this' h',
    nextGeneration empty_3x2.1 empty_3x2.2 = Ok (newCells, 0, this', h') ∧
    this' = with_cells empty_3x2.1 newCells ∧ wf h' this' ∧
    has_dims h' newCells 3 2 ∧
    cell_read h' newCells (Num 1) (Num 2) = Ok (Some 0).
Proof.
  assert (Hd : ∀ x y, 0 ≤ x < width empty_3x2.1 → 0 ≤ y < height empty_3x2.1 →
                 cellAt empty_3x2.2 (cells empty_3x2.1) x y = 0).
  { apply alive_set_nil_dead; [exact empty_3x2_wf|].
    apply alive_set_check_sound. vm_compute. reflexivity. }
  split; [split; [exact empty_3x2_wf|exact Hd]|].
  destruct (nextGeneration_all_dead empty_3x2.2 empty_3x2.1 empty_3x2_wf Hd)
    as (g & t & h' & Hng & Ht & Hwf & Hdim & Hrd & _).
  assert (Hx : 0 ≤ 2 < width empty_3x2.1) by (cbn; lia).
  assert (Hy : 0 ≤ 1 < height empty_3x2.1) by (cbn; lia).
  exists g, t, h'. split; [exact Hng|]. split; [exact Ht|]. split; [exact Hwf|].
  split; [exact Hdim|exact (Hrd 2 1 Hx Hy)].
Defined.

(** X9. With wrap, a grid whose cells are all ALIVE dies out in one step:
    every cell has a neighbour count of 8, whatever the dimensions, and
    [nextGeneration] returns population 0 and a grid all DEAD.  The grid
    returned has the dimensions of the engine, which holds it afterwards and
    is well formed, and reading any of its cells yields 0. *)
Theorem nextGeneration_wrap_all_alive h this :
  wf h this → wrap this = true →
  (∀ x y, 0 ≤ x < width this → 0 ≤ y < height this →
     cellAt h (cells this) x y = 1) →
  (∀ x y, 0 ≤ x < width this → 0 ≤ y < height this →
     countNeighbors this h x y = Ok (Num 8)) ∧
  ∃ newCells this' h',
    nextGeneration this h = Ok (newCells, 0, this', h') ∧
    this' = with_cells this newCells ∧ wf h' this' ∧
    has_dims h' newCells (width this) (height this) ∧
    (∀ x y, 0 ≤ x < width this → 0 ≤ y < height this →
       cell_read h' newCells (Num y) (Num x) = Ok (Some 0)) ∧
    ∀ x y, 0 ≤ x < width this → 0 ≤ y < height this → cellAt h' newCells x y = 0.
Proof.
  intros Hwf Hwr Halive. pose proof Hwf as (Hw & Hht & Hg).
  assert (Hn : ∀ x y, 0 ≤ x < width this → 0 ≤ y < height this →
             alive_neighbors (cellAt h (cells this)) (wrap this)
               (width this) (height this) x y = 8).
  { intros x y Hx Hy. rewrite Hwr. apply alive_neighbors_all_wrap; [lia..|done]. }
  split.
  { intros x y Hx Hy. rewrite countNeighbors_ok by done. by rewrite Hn. }
  destruct (nextGeneration_ok h this Hwf)
    as (g & pop & hh & Hng & _ & _ & Hwf' & Hrule & Hpop).
  assert (Hz : ∀ x y, 0 ≤ x < width this → 0 ≤ y < height this → cellAt hh g x y = 0).
  { intros x y Hx Hy. rewrite Hrule by done. unfold rule.
    rewrite Hn, Halive by done. done. }
  exists g, (with_cells this g), hh. split.
  { rewrite Hng, Hpop. unfold population_of.
    rewrite (population_const _ _ _ 0) by (done || lia). do 4 f_equal. cbn. lia. }
  do 2 (split; [done|]). split; [apply grid_ok_dims, Hwf'|]. split; [|done].
  intros x y Hx Hy. pose proof (reads_ok hh (with_cells this g) x y Hwf' Hx Hy) as Hrd.
  cbn [cells with_cells] in Hrd. by rewrite Hrd, Hz.
Qed.

Lemma nextGeneration_wrap_all_alive_witness :
  (wf uniform_3x2.2 uniform_3x2.1 ∧ wrap uniform_3x2.1 = true ∧
   ∀ x y, 0 ≤ x < width uniform_3x2.1 → 0 ≤ y < height uniform_3x2.1 →
     cellAt uniform_3x2.2 (cells uniform_3x2.1) x y = 1) ∧
  countNeighbors uniform_3x2.1 uniform_3x2.2 1 1 = Ok (Num 8) ∧
  ∃ newCells this' h',
    nextGeneration uniform_3x2.1 uniform_3x2.2 = Ok (newCells, 0, this', h') ∧
    this' = with_cells uniform_3x2.1 newCells ∧ wf h' this' ∧
    has_dims h' newCells 3 2 ∧
    cell_read h' newCells (Num 1) (Num 2) = Ok (Some 0).
Proof.
  assert (Ha : ∀ x y, 0 ≤ x < width uniform_3x2.1 → 0 ≤ y < height uniform_3x2.1 →
                 cellAt uniform_3x2.2 (cells uniform_3x2.1) x y = 1).
  { intros x y Hx Hy.
    assert (Hs : alive_set uniform_3x2.2 uniform_3x2.1
                   [(0, 0); (1, 0); (2, 0); (0, 1); (1, 1); (2, 1)]).
    { apply alive_set_check_sound. vm_compute. reflexivity. }
    apply Hs; [done..|]. cbn in Hx, Hy. rewrite !elem_of_cons.
    assert (x = 0 ∨ x = 1 ∨ x = 2) as [-> | [-> | ->] ] by lia;
      assert (y = 0 ∨ y = 1) as [-> | ->] by lia; auto 10. }
  split; [split; [exact uniform_3x2_wf|]; split; [reflexivity|exact Ha]|].
  destruct (nextGeneration_wrap_all_alive uniform_3x2.2 uniform_3x2.1
              uniform_3x2_wf eq_refl Ha)
    as (Hc & g & t & h' & Hng & Ht & Hwf & Hdim & Hrd & _).
  assert (Hx : 0 ≤ 2 < width uniform_3x2.1) by (cbn; lia).
  assert (Hy : 0 ≤ 1 < height uniform_3x2.1) by (cbn; lia).
  split; [apply Hc; cbn; lia|].
  exists g, t, h'. split; [exact Hng|]. split; [exact Ht|]. split; [exact Hwf|].
  split; [exact Hdim|exact (Hrd 2 1 Hx Hy)].
Defined.

(** ** The block *)

Lemma block_arith x y :
  let A (i j : Z) := (1 <=? i) && (i <=? 2) && (1 <=? j) && (j <=? 2) in
  let b (dx dy : Z) : Z := if A (x + dx) (y + dy) then 1 else 0 in
  let n := b (-1) (-1) + b 0 (-1) + b 1 (-1) + b (-1) 0 + b 1 0
           + b (-1) 1 + b 0 1 + b 1 1 in
  (if A x y then (if (n =? 2) || (n =? 3) then 1 else 0)
   else (if n =? 3 then 1 else 0)) = 1 ↔ 1 ≤ x ≤ 2 ∧ 1 ≤ y ≤ 2.
Proof.
  cbv zeta.
  assert (Hx : x ≤ -1 ∨ x = 0 ∨ x = 1 ∨ x = 2 ∨ x = 3 ∨ 4 ≤ x) by lia.
  assert (Hy : y ≤ -1 ∨ y = 0 ∨ y = 1 ∨ y = 2 ∨ y = 3 ∨ 4 ≤ y) by lia.
  destruct Hx as [Hx|[Hx|[Hx|[Hx|[Hx|Hx]]]]];
    destruct Hy as [Hy|[Hy|[Hy|[Hy|[Hy|Hy]]]]];
    split_cmp; cbn [andb]; split_cmp; cbn [orb]; lia.
Qed.

Lemma elem_block x y :
  (x, y) ∈ [(1, 1); (2, 1); (1, 2); (2, 2)] ↔ 1 ≤ x ≤ 2 ∧ 1 ≤ y ≤ 2.
Proof.
  rewrite !elem_of_cons, elem_of_nil. split.
  - intros [ [= -> ->] | [ [= -> ->] | [ [= -> ->] | [ [= -> ->] | HF ] ] ] ];
      first [lia | destruct HF].
  - intros [Hx Hy]. assert (x = 1 ∨ x = 2) as [-> | ->] by lia;
      assert (y = 1 ∨ y = 2) as [-> | ->] by lia; auto 10.
Qed.

(** X10. The block is a still life: on a grid without wrap, at least 4 by 4,
    whose ALIVE cells are exactly (1,1), (2,1), (1,2), (2,2),
    [nextGeneration] returns a grid with exactly the same ALIVE cells.  That
    grid has the dimensions of the engine, which holds it afterwards and is
    well formed. *)
Theorem block_still_life h this :
  wf h this → wrap this = false → 4 ≤ width this → 4 ≤ height this →
  alive_set h this [(1, 1); (2, 1); (1, 2); (2, 2)] →
  ∃ newCells population this' h',
    nextGeneration this h = Ok (newCells, population, this', h') ∧
    this' = with_cells this newCells ∧ wf h' this' ∧
    has_dims h' newCells (width this) (height this) ∧
    alive_set h' this' [(1, 1); (2, 1); (1, 2); (2, 2)].
Proof.
  intros Hwf Hwr Hw Hht Ha.
  destruct (nextGeneration_ok h this Hwf)
    as (g & pop & hh & Hng & _ & _ & Hwf' & Hrule & _).
  exists g, pop, (with_cells this g), hh. do 3 (split; [done|]).
  split; [apply grid_ok_dims, Hwf'|].
  intros x y Hx Hy. cbn [width height cells with_cells] in *.
  rewrite Hrule, Hwr by done.
  rewrite (rule_bounded _ _ _ x y
             (λ i j, (1 <=? i) && (i <=? 2) && (1 <=? j) && (j <=? 2)));
    [|..|done|done].
  - rewrite elem_block. apply block_arith.
  - intros i j Hi Hj. specialize (Ha i j Hi Hj). rewrite elem_block in Ha.
    destruct (Z.eqb_spec (cellAt h (cells this) i j) 1) as [E|E];
      split_cmp; cbn [andb]; try done; exfalso; lia.
  - intros i j. split_cmp; cbn [andb]; first [done | lia].
Qed.

Lemma block_still_life_witness :
  (wf block_4x4.2 block_4x4.1 ∧ wrap block_4x4.1 = false ∧
   4 ≤ width block_4x4.1 ∧ 4 ≤ height block_4x4.1 ∧
   alive_set block_4x4.2 block_4x4.1 [(1, 1); (2, 1); (1, 2); (2, 2)]) ∧
  ∃ newCells population this' h',
    nextGeneration block_4x4.1 block_4x4.2 = Ok (newCells, population, this', h') ∧
    this' = with_cells block_4x4.1 newCells ∧ wf h' this' ∧
    has_dims h' newCells (width block_4x4.1) (height block_4x4.1) ∧
    alive_set h' this' [(1, 1); (2, 1); (1, 2); (2, 2)].
Proof.
  assert (Ha : alive_set block_4x4.2 block_4x4.1 [(1, 1); (2, 1); (1, 2); (2, 2)]).
  { apply alive_set_check_sound. vm_compute. reflexivity. }
  assert (Hw : 4 ≤ width block_4x4.1) by (cbn; lia).
  assert (Hht : 4 ≤ height block_4x4.1) by (cbn; lia).
  split; [split; [exact block_4x4_wf|]; split; [reflexivity|auto]|].
  exact (block_still_life block_4x4.2 block_4x4.1 block_4x4_wf eq_refl Hw Hht Ha).
Defined.

(** * The renderer *)

Lemma seqZ_snoc n : 0 ≤ n → seqZ 0 (n + 1) = seqZ 0 n ++ [n].
Proof. intros Hn. rewrite seqZ_app by lia. done. Qed.

Lemma seqZ_to_nat n : seqZ 0 n = seqZ 0 (Z.of_nat (Z.to_nat n)).
Proof.
  destruct (decide (0 ≤ n)) as [Hn|Hn].
  - by rewrite Z2Nat.id.
  - rewrite seqZ_nil by lia. replace (Z.to_nat n) with O by lia. done.
Qed.

Lemma for_loop_append {A} (f : Z → list A) n : ∀ i c,
  for_loop n i (λ j c, Ok (c ++ f j)) c = Ok (c ++ flat_map f (seqZ i (Z.of_nat n))).
Proof.
  induction n as [|n IH]; intros i c.
  - cbn. by rewrite app_nil_r.
  - cbn [for_loop mbind result_bind]. rewrite IH.
    rewrite (seqZ_cons i (Z.of_nat (S n))) by lia.
    replace (Z.succ i) with (i + 1) by lia.
    replace (Z.pred (Z.of_nat (S n))) with (Z.of_nat n) by lia.
    cbn [flat_map]. by rewrite <- app_assoc.
Qed.

Lemma for_upto_append {A} (f : Z → list A) hi c :
  for_upto hi (λ j c, Ok (c ++ f j)) c = Ok (c ++ flat_map f (seqZ 0 hi)).
Proof. unfold for_upto. by rewrite for_loop_append, <- seqZ_to_nat. Qed.

Lemma alive_cells_next_row c w y :
  0 ≤ y →
  alive_cells c w (y + 1) =
  alive_cells c w y ++ ((λ x, (x, y)) <$> filter (λ x, c x y = 1) (seqZ 0 w)).
Proof.
  intros Hy. unfold alive_cells. rewrite seqZ_snoc, flat_map_app by done.
  cbn [flat_map]. by rewrite app_nil_r.
Qed.

Lemma elem_of_alive_cells c w ht x y :
  (x, y) ∈ alive_cells c w ht ↔ 0 ≤ x < w ∧ 0 ≤ y < ht ∧ c x y = 1.
Proof.
  unfold alive_cells. rewrite list_elem_of_In, in_flat_map. split.
  - intros (y' & Hy' & Hin). apply list_elem_of_In, elem_of_seqZ in Hy'.
    apply list_elem_of_In, list_elem_of_fmap in Hin as (x' & [= -> ->] & Hx').
    apply list_elem_of_filter in Hx' as [Hc Hx']. apply elem_of_seqZ in Hx'. lia.
  - intros (Hx & Hy & Hc). exists y. split.
    + apply list_elem_of_In, elem_of_seqZ. lia.
    + apply list_elem_of_In, list_elem_of_fmap. exists x. split; [done|].
      apply list_elem_of_filter. split; [done|]. apply elem_of_seqZ. lia.
Qed.

Lemma length_filter_seqZ (P : Z → Prop) `{∀ x, Decision (P x)} n :
  Z.of_nat (length (filter P (seqZ 0 (Z.of_nat n)))) =
  sum_upto (λ x, if decide (P x) then 1 else 0) n.
Proof.
  induction n as [|n IH]; [done|].
  rewrite seqZ_S, filter_app, length_app, Nat2Z.inj_add, IH. cbn [sum_upto].
  f_equal. rewrite Z.add_0_l, filter_cons, filter_nil.
  by destruct (decide (P (Z.of_nat n))).
Qed.

Lemma length_flat_map_seqZ {A} (f : Z → list A) n :
  Z.of_nat (length (flat_map f (seqZ 0 (Z.of_nat n)))) =
  sum_upto (λ i, Z.of_nat (length (f i))) n.
Proof.
  induction n as [|n IH]; [done|].
  rewrite seqZ_S, flat_map_app, length_app, Nat2Z.inj_add, IH. cbn [sum_upto flat_map].
  by rewrite app_nil_r, Z.add_0_l.
Qed.

Lemma length_alive_cells c w ht :
  Z.of_nat (length (alive_cells c w ht)) = population c w ht.
Proof.
  unfold alive_cells, population.
  rewrite (seqZ_to_nat ht), length_flat_map_seqZ. apply sum_upto_ext.
  intros y _. rewrite length_fmap, (seqZ_to_nat w), length_filter_seqZ.
  apply sum_upto_ext. intros x _.
  destruct (decide (c x y = 1)) as [->|Hne]; [done|].
  by destruct (Z.eqb_spec (c x y) 1).
Qed.

Lemma drawing_step h life cs c0 y x c :
  wf h life → 0 ≤ x < width life → 0 ≤ y < height life →
  drawing (cellAt h (cells life)) (width life) cs c0 y x c →
  ∃ c', (v ← cell_read h (cells life) (Num y) (Num x);
         if elem_is v 1 then Ok (c ++ cell_square cs x y) else Ok c) = Ok c' ∧
        drawing (cellAt h (cells life)) (width life) cs c0 y (x + 1) c'.
Proof.
  intros (_ & _ & Hg) Hx Hy ->.
  destruct (cell_read_ok h _ _ _ x y Hg Hx Hy) as [-> _].
  cbn [mbind result_bind elem_is]. unfold drawing.
  rewrite seqZ_snoc, filter_app, filter_cons, filter_nil by lia.
  destruct (Z.eqb_spec (cellAt h (cells life) x y) 1) as [E|E].
  - eexists. split; [done|]. rewrite decide_True by done.
    rewrite fmap_app, (app_assoc (alive_cells _ _ _)), !flat_map_app.
    cbn [fmap list_fmap flat_map fst snd]. by rewrite app_nil_r, <- !app_assoc.
  - eexists. split; [done|]. rewrite decide_False by done. by rewrite app_nil_r.
Qed.

Lemma draw_ok life h r :
  wf h life →
  Renderer.draw life h r =
  Ok {| Renderer.canvas_width := Renderer.canvas_width r;
        Renderer.canvas_height := Renderer.canvas_height r;
        Renderer.calls :=
          Renderer.calls r ++
          frame (cellAt h (cells life)) (width life) (height life)
            (Renderer.cellSize r) (Renderer.canvas_width r) (Renderer.canvas_height r);
        Renderer.cellSize := Renderer.cellSize r |}.
Proof.
  intros Hwf. pose proof Hwf as (Hw & Hht & _). unfold Renderer.draw. cbv zeta.
  match goal with
  | |- context [for_upto (height life) ?body ?s] => set (s0 := s)
  end.
  match goal with
  | |- context [for_upto (height life) ?body s0] =>
      destruct (for_upto_inv
                  (λ y c, drawing (cellAt h (cells life)) (width life)
                            (Renderer.cellSize r) s0 y 0 c) body (height life) s0)
        as (c1 & Hloop & Hc1)
  end.
  - lia.
  - unfold drawing, alive_cells. cbn. by rewrite app_nil_r.
  - intros y c Hy Hc.
    destruct (for_upto_inv
                (λ x c, drawing (cellAt h (cells life)) (width life)
                          (Renderer.cellSize r) s0 y x c)
                (λ x c, v ← cell_read h (cells life) (Num y) (Num x);
                        if elem_is v 1
                        then Ok (c ++ cell_square (Renderer.cellSize r) x y)
                        else Ok c) (width life) c)
      as (c' & Hl & Hc'); [lia|exact Hc| |].
    + intros x t Hx Ht. by apply drawing_step.
    + exists c'. split; [done|]. unfold drawing in *.
      rewrite Hc', alive_cells_next_row by lia.
      change (seqZ 0 0) with (@nil Z). rewrite filter_nil. cbn [fmap list_fmap].
      by rewrite app_nil_r.
  - rewrite Hloop. cbn [mbind result_bind]. rewrite for_upto_append.
    cbn [mbind result_bind]. rewrite for_upto_append. cbn [mbind result_bind].
    unfold drawing in Hc1. rewrite Hc1.
    change (seqZ 0 0) with (@nil Z). rewrite filter_nil. cbn [fmap list_fmap].
    rewrite app_nil_r. unfold frame. subst s0. by rewrite <- !app_assoc.
Qed.

(** * The application *)

(** Projections of the records of the application, and nothing else. *)
Ltac app_simpl :=
  cbv zeta;
  cbn [App.mem App.app App.timers App.random_pos App.with_app
       App.life App.renderer App.animationId App.running App.speedMs
       App.generation App.population App.elements App.updateUI
       App.startBtn_disabled App.stopBtn_disabled App.speedVal App.cellVal
       App.genEl App.popEl
       Renderer.canvas_width Renderer.canvas_height Renderer.calls
       Renderer.cellSize Renderer.resizeCanvas Renderer.setCellSize Renderer.new
       width height cells wrap with_cells mbind result_bind negb].

Tactic Notation "app_simpl" "in" "*" :=
  cbv zeta in *;
  cbn [App.mem App.app App.timers App.random_pos App.with_app
       App.life App.renderer App.animationId App.running App.speedMs
       App.generation App.population App.elements App.updateUI
       App.startBtn_disabled App.stopBtn_disabled App.speedVal App.cellVal
       App.genEl App.popEl
       Renderer.canvas_width Renderer.canvas_height Renderer.calls
       Renderer.cellSize Renderer.resizeCanvas Renderer.setCellSize Renderer.new
       width height cells wrap with_cells mbind result_bind negb] in *.

Lemma app_base_updateUI h life r aid run speed gen pop els ts k :
  wf h life →
  Renderer.canvas_width r = canvas_dim (width life * Renderer.cellSize r) 300 →
  Renderer.canvas_height r = canvas_dim (height life * Renderer.cellSize r) 150 →
  (∃ before, Renderer.calls r =
     before ++ frame (cellAt h (cells life)) (width life) (height life)
                 (Renderer.cellSize r)
                 (Renderer.canvas_width r) (Renderer.canvas_height r)) →
  app_base
    {| App.mem := h;
       App.app := App.updateUI
         {| App.life := life; App.renderer := r; App.animationId := aid;
            App.running := run; App.speedMs := speed; App.generation := gen;
            App.population := pop; App.elements := els |};
       App.timers := ts; App.random_pos := k |}.
Proof.
  intros Hwf Hcw Hch Hcalls. unfold app_base. app_simpl.
  split; [done|]. split; [by repeat split|]. by do 2 (split; [done|]).
Qed.

Lemma loopStep_ok w :
  app_base w →
  ∃ w', App.loopStep w = Ok w' ∧ app_base w' ∧ stepped w w' ∧
    App.timers w' = App.timers w ∧
    App.running (App.app w') = App.running (App.app w) ∧
    App.animationId (App.app w') = App.animationId (App.app w).
Proof.
  destruct w as [h [life r aid run speed gen pop els] ts k].
  intros (Hwf & Hels & Hcw & Hch & Hcalls). app_simpl in *.
  destruct (nextGeneration_ok h life Hwf)
    as (g & p & h' & Hng & Hle & _ & Hwf' & Hrule & Hpop).
  unfold App.loopStep. app_simpl. rewrite Hng. app_simpl.
  rewrite (draw_ok (with_cells life g) h' r Hwf'). app_simpl.
  eexists. split; [done|]. split; [|split; [|done]].
  - apply app_base_updateUI; app_simpl; eauto.
  - unfold stepped. app_simpl. by repeat (split; [done|]).
Qed.

Lemma tick_ok w :
  app_base w → App.running (App.app w) = true → App.timers w = ∅ →
  ∃ w' id, App.tick w = Ok w' ∧ app_inv w' ∧ stepped w w' ∧
    App.running (App.app w') = true ∧
    App.animationId (App.app w') = Some id ∧
    App.timers w' = {[id := App.speedMs (App.app w)]}.
Proof.
  intros Hbase Hrun Hts.
  destruct (loopStep_ok w Hbase) as (w1 & Hls & Hb1 & Hst & Hts1 & Hrun1 & _).
  assert (Hr1 : App.running (App.app w1) = true) by congruence.
  assert (Ht1 : App.timers w1 = ∅) by congruence.
  eexists _, _. split.
  { unfold App.tick. rewrite Hls. app_simpl. rewrite Hr1. cbn [negb]. reflexivity. }
  destruct w as [h [life r aid run speed gen pop els] ts k].
  destruct w1 as [h1 [life1 r1 aid1 run1 speed1 gen1 pop1 els1] ts1 k1].
  unfold stepped in *. unfold app_base in Hb1. app_simpl in *. subst.
  destruct Hst as (Hgen & Hspeed & Hst). subst speed1.
  split; [split|].
  - unfold app_base. app_simpl. done.
  - unfold timer_ok. app_simpl. eexists _, _. split; [done|]. apply insert_empty.
  - app_simpl. split; [by repeat (split; [done|])|]. do 2 (split; [done|]).
    apply insert_empty.
Qed.

Lemma timer_ok_stopped w :
  timer_ok w → App.running (App.app w) = false →
  App.animationId (App.app w) = None ∧ App.timers w = ∅.
Proof. unfold timer_ok. intros H Hr. by rewrite Hr in H. Qed.

Lemma start_ok w :
  app_inv w →
  ∃ w', App.start w = Ok w' ∧ app_inv w' ∧
    App.running (App.app w') = true ∧
    (App.running (App.app w) = true → w' = w) ∧
    (App.running (App.app w) = false →
     stepped w w' ∧
     ∃ id, App.animationId (App.app w') = Some id ∧
           App.timers w' = {[id := App.speedMs (App.app w)]}).
Proof.
  intros [Hbase Htimer]. unfold App.start. cbv zeta.
  destruct (App.running (App.app w)) eqn:Hrun.
  - exists w. split; [done|]. split; [by split|]. split; [done|]. split; [done|].
    intros [=].
  - destruct (timer_ok_stopped w Htimer Hrun) as [Haid Hts].
    destruct w as [h [life r aid run speed gen pop els] ts k].
    app_simpl in *. subst.
    match goal with
    | |- context [App.tick ?w0] =>
        destruct (tick_ok w0) as (w' & id & Ht & Hinv & Hst & Hrun' & Haid' & Hts')
    end.
    + unfold app_base in *. app_simpl in *.
      destruct Hbase as (Hwf & _ & Hrest). split; [done|]. split; [|done].
      by repeat split.
    + done.
    + done.
    + exists w'. split; [done|]. do 2 (split; [done|]). split; [done|].
      intros _. split; [|eauto]. unfold stepped in *. app_simpl in *. done.
Qed.

Lemma stop_ok w :
  app_inv w →
  app_inv (App.stop w) ∧
  App.running (App.app (App.stop w)) = false ∧
  App.timers (App.stop w) = ∅ ∧
  App.animationId (App.app (App.stop w)) = None ∧
  App.mem (App.stop w) = App.mem w ∧
  App.life (App.app (App.stop w)) = App.life (App.app w) ∧
  App.renderer (App.app (App.stop w)) = App.renderer (App.app w) ∧
  App.generation (App.app (App.stop w)) = App.generation (App.app w) ∧
  App.population (App.app (App.stop w)) = App.population (App.app w) ∧
  App.speedMs (App.app (App.stop w)) = App.speedMs (App.app w).
Proof.
  intros [Hbase Htimer].
  destruct w as [h [life r aid run speed gen pop els] ts k].
  unfold app_base, timer_ok in *. app_simpl in *.
  destruct Hbase as (Hwf & _ & Hcw & Hch & Hcalls).
  assert (Hts : match aid with Some id => delete id ts | None => ts end = ∅).
  { destruct run.
    - destruct Htimer as (id & d & -> & ->). apply delete_singleton_eq.
    - destruct Htimer as [-> ->]. done. }
  unfold App.stop. app_simpl.
  destruct aid as [id|]; app_simpl; rewrite ?Hts;
    (split; [split; [by apply app_base_updateUI|unfold timer_ok; app_simpl; done]|done]).
Qed.

Lemma step_ok w :
  app_inv w →
  ∃ w', App.step w = Ok w' ∧ app_inv w' ∧
    (App.running (App.app w) = true → w' = w) ∧
    (App.running (App.app w) = false → stepped w w' ∧ App.timers w' = ∅).
Proof.
  intros [Hbase Htimer]. unfold App.step.
  destruct (App.running (App.app w)) eqn:Hrun.
  - exists w. split; [done|]. split; [by split|]. split; [done|]. intros [=].
  - destruct (loopStep_ok w Hbase) as (w' & Hls & Hb' & Hst & Hts & Hrun' & Haid).
    exists w'. split; [done|]. split; [|split; [done|]].
    + split; [done|]. unfold timer_ok in *. by rewrite Hrun', Haid, Hts.
    + intros _. split; [done|]. rewrite Hts.
      by destruct (timer_ok_stopped w Htimer Hrun).
Qed.

Lemma timer_ok_same w w' :
  App.running (App.app w') = App.running (App.app w) →
  App.animationId (App.app w') = App.animationId (App.app w) →
  App.timers w' = App.timers w →
  timer_ok w → timer_ok w'.
Proof. unfold timer_ok. by intros -> -> ->. Qed.

Lemma on_clear_ok w :
  app_inv w →
  ∃ w', App.on_clear w = Ok w' ∧ app_inv w' ∧
    App.generation (App.app w') = 0 ∧ App.population (App.app w') = 0 ∧
    (∀ x y, cellAt (App.mem w') (cells (App.life (App.app w'))) x y = 0) ∧
    App.running (App.app w') = App.running (App.app w) ∧
    App.animationId (App.app w') = App.animationId (App.app w) ∧
    App.timers w' = App.timers w ∧
    App.speedMs (App.app w') = App.speedMs (App.app w) ∧
    width (App.life (App.app w')) = width (App.life (App.app w)) ∧
    height (App.life (App.app w')) = height (App.life (App.app w)) ∧
    wrap (App.life (App.app w')) = wrap (App.life (App.app w)) ∧
    Renderer.cellSize (App.renderer (App.app w'))
      = Renderer.cellSize (App.renderer (App.app w)) ∧
    heap_le (App.mem w) (App.mem w').
Proof.
  intros [Hbase Htimer].
  destruct w as [h [life r aid run speed gen pop els] ts k].
  pose proof Hbase as (Hwf & _ & Hcw & Hch & _). app_simpl in *.
  destruct (clear_ok h life Hwf) as (g & h' & Hcl & Hle & _ & Hwf' & Hz).
  eexists. split.
  { unfold App.on_clear. app_simpl. rewrite Hcl. app_simpl.
    rewrite (draw_ok (with_cells life g) h' r Hwf'). app_simpl. reflexivity. }
  app_simpl. split; [split|by repeat (split; [done|])].
  - apply app_base_updateUI; app_simpl; eauto.
  - by apply (timer_ok_same _ _ eq_refl eq_refl eq_refl Htimer).
Qed.

Lemma on_random_ok draws w :
  app_inv w →
  ∃ w', App.on_random draws w = Ok w' ∧ app_inv w' ∧
    App.generation (App.app w') = 0 ∧
    App.population (App.app w') = App.population (App.app w) ∧
    App.life (App.app w') = App.life (App.app w) ∧
    App.running (App.app w') = App.running (App.app w) ∧
    App.animationId (App.app w') = App.animationId (App.app w) ∧
    App.timers w' = App.timers w ∧
    Renderer.cellSize (App.renderer (App.app w'))
      = Renderer.cellSize (App.renderer (App.app w)) ∧
    Z.of_nat (App.random_pos w') =
      Z.of_nat (App.random_pos w)
      + height (App.life (App.app w)) * width (App.life (App.app w)) ∧
    ∀ x y, 0 ≤ x < width (App.life (App.app w)) →
           0 ≤ y < height (App.life (App.app w)) →
      cellAt (App.mem w') (cells (App.life (App.app w))) x y =
      drawn draws (1 # 4)
        (Z.of_nat (App.random_pos w) + y * width (App.life (App.app w)) + x).
Proof.
  intros [Hbase Htimer].
  destruct w as [h [life r aid run speed gen pop els] ts k].
  pose proof Hbase as (Hwf & _ & Hcw & Hch & _). app_simpl in *.
  destruct (randomize_ok draws life (1 # 4) k h Hwf) as (k' & h' & Hr & Hwf' & _ & Hk & Hv).
  eexists. split.
  { unfold App.on_random. app_simpl. rewrite Hr. app_simpl.
    rewrite (draw_ok life h' r Hwf'). app_simpl. reflexivity. }
  app_simpl. split; [split|by repeat (split; [done|])].
  - apply app_base_updateUI; app_simpl; eauto.
  - by apply (timer_ok_same _ _ eq_refl eq_refl eq_refl Htimer).
Qed.

Lemma on_speed_ok v w :
  app_inv w →
  app_inv (App.on_speed v w) ∧
  App.speedMs (App.app (App.on_speed v w)) = v ∧
  App.speedVal (App.elements (App.app (App.on_speed v w))) = v ∧
  App.timers (App.on_speed v w) = App.timers w ∧
  App.mem (App.on_speed v w) = App.mem w ∧
  App.life (App.app (App.on_speed v w)) = App.life (App.app w) ∧
  App.renderer (App.app (App.on_speed v w)) = App.renderer (App.app w) ∧
  App.running (App.app (App.on_speed v w)) = App.running (App.app w) ∧
  App.animationId (App.app (App.on_speed v w)) = App.animationId (App.app w).
Proof.
  intros [Hbase Htimer].
  destruct w as [h [life r aid run speed gen pop [e1 e2 e3 e4 e5 e6]] ts k].
  unfold App.on_speed. app_simpl. split; [split|done].
  - unfold app_base in *. app_simpl in *.
    destruct Hbase as (Hwf & (? & ? & ? & ? & ? & ?) & Hrest).
    split; [done|]. split; [by repeat split|done].
  - by apply (timer_ok_same _ _ eq_refl eq_refl eq_refl Htimer).
Qed.

Lemma on_cell_ok s w :
  app_inv w →
  ∃ w', App.on_cell s w = Ok w' ∧ app_inv w' ∧
    App.mem w' = App.mem w ∧ App.life (App.app w') = App.life (App.app w) ∧
    App.timers w' = App.timers w ∧
    App.running (App.app w') = App.running (App.app w) ∧
    App.generation (App.app w') = App.generation (App.app w) ∧
    App.population (App.app w') = App.population (App.app w) ∧
    App.cellVal (App.elements (App.app w')) = s ∧
    Renderer.cellSize (App.renderer (App.app w')) = s ∧
    Renderer.canvas_width (App.renderer (App.app w'))
      = canvas_dim (width (App.life (App.app w)) * s) 300 ∧
    Renderer.canvas_height (App.renderer (App.app w'))
      = canvas_dim (height (App.life (App.app w)) * s) 150 ∧
    Renderer.calls (App.renderer (App.app w')) =
      frame (cellAt (App.mem w) (cells (App.life (App.app w))))
        (width (App.life (App.app w))) (height (App.life (App.app w))) s
        (canvas_dim (width (App.life (App.app w)) * s) 300)
        (canvas_dim (height (App.life (App.app w)) * s) 150).
Proof.
  intros [Hbase Htimer].
  destruct w as [h [life r aid run speed gen pop [e1 e2 e3 e4 e5 e6]] ts k].
  pose proof Hbase as (Hwf & (? & ? & ? & ? & ? & ?) & _). app_simpl in *.
  eexists. split.
  { unfold App.on_cell. app_simpl.
    rewrite (draw_ok life h _ Hwf). app_simpl. reflexivity. }
  app_simpl. split; [split|by repeat (split; [done|])].
  - unfold app_base. app_simpl. split; [done|]. split; [by repeat split|].
    do 2 (split; [done|]). by exists [].
  - by apply (timer_ok_same _ _ eq_refl eq_refl eq_refl Htimer).
Qed.

Lemma on_wrap_ok v w :
  app_inv w →
  app_inv (App.on_wrap v w) ∧
  wrap (App.life (App.app (App.on_wrap v w))) = String.eqb v "wrap" ∧
  App.mem (App.on_wrap v w) = App.mem w ∧
  cells (App.life (App.app (App.on_wrap v w))) = cells (App.life (App.app w)) ∧
  width (App.life (App.app (App.on_wrap v w))) = width (App.life (App.app w)) ∧
  height (App.life (App.app (App.on_wrap v w))) = height (App.life (App.app w)) ∧
  App.renderer (App.app (App.on_wrap v w)) = App.renderer (App.app w) ∧
  App.timers (App.on_wrap v w) = App.timers w ∧
  App.running (App.app (App.on_wrap v w)) = App.running (App.app w) ∧
  App.generation (App.app (App.on_wrap v w)) = App.generation (App.app w).
Proof.
  intros [Hbase Htimer].
  destruct w as [h [life r aid run speed gen pop els] ts k].
  unfold App.on_wrap. app_simpl. split; [split|done].
  - unfold app_base, wf in *. app_simpl in *. done.
  - by apply (timer_ok_same _ _ eq_refl eq_refl eq_refl Htimer).
Qed.

Lemma on_click_ok x y w :
  app_inv w →
  ∃ w', App.on_click x y w = Ok w' ∧ app_inv w' ∧
    toggle (App.life (App.app w)) (App.mem w) x y = Ok (App.mem w') ∧
    App.life (App.app w') = App.life (App.app w) ∧
    App.population (App.app w') = App.population (App.app w) ∧
    App.generation (App.app w') = App.generation (App.app w) ∧
    App.running (App.app w') = App.running (App.app w) ∧
    App.timers w' = App.timers w ∧
    Renderer.cellSize (App.renderer (App.app w'))
      = Renderer.cellSize (App.renderer (App.app w)).
Proof.
  intros [Hbase Htimer].
  destruct w as [h [life r aid run speed gen pop els] ts k].
  pose proof Hbase as (Hwf & _ & Hcw & Hch & _). app_simpl in *.
  unfold App.on_click, toggle. app_simpl.
  destruct (xyFromEvent life x y) as [[x0 y0]|] eqn:Hxy.
  - assert (Hin : 0 ≤ x0 < width life ∧ 0 ≤ y0 < height life ∧ x0 = x ∧ y0 = y).
    { unfold xyFromEvent in Hxy.
      destruct ((x <? 0) || (x >=? width life) || (y <? 0) || (y >=? height life))
        eqn:E; [done|]. injection Hxy as <- <-.
      repeat (apply orb_false_elim in E as [E ?]). lia. }
    destruct Hin as (Hx & Hy & -> & ->).
    destruct (toggle_inside life h x y Hwf Hx Hy) as (h' & Ht & Hwf' & _).
    unfold toggle in Ht. rewrite Hxy in Ht.
    destruct (cell_read h (cells life) (Num y) (Num x)) as [c|e]; [|done].
    app_simpl in *. rewrite Ht. app_simpl.
    rewrite (draw_ok life h' r Hwf'). app_simpl.
    eexists. split; [done|]. app_simpl.
    split; [split|by repeat (split; [done|])].
    + apply app_base_updateUI; app_simpl; eauto.
    + by apply (timer_ok_same _ _ eq_refl eq_refl eq_refl Htimer).
  - eexists. split; [done|]. app_simpl. split; [by split|]. by repeat (split; [done|]).
Qed.

Lemma on_timeout_ok id w :
  app_inv w →
  ∃ w', App.on_timeout id w = Ok w' ∧ app_inv w' ∧
    (App.timers w !! id = None → w' = w) ∧
    (is_Some (App.timers w !! id) →
     stepped w w' ∧ App.running (App.app w') = true ∧
     ∃ id', App.animationId (App.app w') = Some id' ∧
            App.timers w' = {[id' := App.speedMs (App.app w)]}).
Proof.
  intros [Hbase Htimer]. unfold App.on_timeout.
  destruct (App.timers w !! id) as [d|] eqn:Hid.
  - assert (Hrun : App.running (App.app w) = true ∧ delete id (App.timers w) = ∅).
    { unfold timer_ok in Htimer. destruct (App.running (App.app w)).
      - destruct Htimer as (id0 & d0 & _ & Hts). rewrite Hts in Hid |- *.
        apply lookup_singleton_Some in Hid as [-> _].
        split; [done|]. apply delete_singleton_eq.
      - destruct Htimer as [_ Hts]. rewrite Hts in Hid. by apply lookup_empty_Some in Hid. }
    destruct Hrun as [Hrun Hdel].
    destruct w as [h a ts k]. app_simpl in *.
    destruct (tick_ok {| App.mem := h; App.app := a; App.timers := delete id ts;
                         App.random_pos := k |})
      as (w' & id' & Ht & Hinv & Hst & Hrun' & Haid & Hts); [done..|].
    exists w'. split; [done|]. split; [done|]. split; [done|].
    intros _. split; [done|]. eauto.
  - exists w. split; [done|]. split; [by split|]. split; [done|]. by intros [? ?].
Qed.

Lemma handle_ok draws e w :
  app_inv w →
  ∃ w', App.handle draws e w = Ok w' ∧ app_inv w' ∧
    width (App.life (App.app w')) = width (App.life (App.app w)) ∧
    height (App.life (App.app w')) = height (App.life (App.app w)) ∧
    Renderer.cellSize (App.renderer (App.app w')) =
      match e with
      | App.CellInput s => s
      | _ => Renderer.cellSize (App.renderer (App.app w))
      end.
Proof.
  intros Hinv. destruct e; cbn [App.handle].
  - destruct (start_ok w Hinv) as (w' & Hs & Hinv' & _ & Hsame & Hstep).
    exists w'. do 2 (split; [done|]).
    destruct (App.running (App.app w)).
    + by rewrite (Hsame eq_refl).
    + destruct (Hstep eq_refl) as [Hst _]. unfold stepped in Hst. cbv zeta in Hst.
      destruct Hst as (_ & _ & _ & ? & ? & ? & _). done.
  - exists (App.stop w). split; [done|].
    destruct (stop_ok w Hinv) as (? & _ & _ & _ & _ & -> & -> & _). done.
  - destruct (step_ok w Hinv) as (w' & Hs & Hinv' & Hsame & Hstep).
    exists w'. do 2 (split; [done|]).
    destruct (App.running (App.app w)).
    + by rewrite (Hsame eq_refl).
    + destruct (Hstep eq_refl) as [Hst _]. unfold stepped in Hst. cbv zeta in Hst.
      destruct Hst as (_ & _ & _ & ? & ? & ? & _). done.
  - destruct (on_clear_ok w Hinv)
      as (w' & ? & ? & _ & _ & _ & _ & _ & _ & _ & ? & ? & _ & ? & _). by exists w'.
  - destruct (on_random_ok draws w Hinv)
      as (w' & ? & ? & _ & _ & Hl & _ & _ & _ & ? & _). exists w'. by rewrite Hl.
  - eexists. split; [done|].
    destruct (on_speed_ok value w Hinv) as (? & _ & _ & _ & _ & -> & -> & _). done.
  - destruct (on_cell_ok value w Hinv)
      as (w' & ? & ? & _ & Hl & _ & _ & _ & _ & _ & ? & _). exists w'. by rewrite Hl.
  - eexists. split; [done|].
    destruct (on_wrap_ok value w Hinv) as (? & _ & _ & _ & -> & -> & -> & _). done.
  - destruct (on_click_ok x y w Hinv)
      as (w' & ? & ? & _ & Hl & _ & _ & _ & _ & ?). exists w'. by rewrite Hl.
  - destruct (on_timeout_ok id w Hinv) as (w' & Hs & Hinv' & Hsame & Hstep).
    exists w'. do 2 (split; [done|]).
    destruct (App.timers w !! id) as [d|].
    + destruct Hstep as [Hst _]; [by eexists|]. unfold stepped in Hst. cbv zeta in Hst.
      destruct Hst as (_ & _ & _ & ? & ? & ? & _). done.
    + by rewrite (Hsame eq_refl).
Qed.

Lemma run_ok draws es : ∀ w,
  app_inv w →
  ∃ w', App.run draws es w = Ok w' ∧ app_inv w' ∧
    width (App.life (App.app w')) = width (App.life (App.app w)) ∧
    height (App.life (App.app w')) = height (App.life (App.app w)) ∧
    (Forall event_ok es →
     cell_size_ok (Renderer.cellSize (App.renderer (App.app w))) →
     cell_size_ok (Renderer.cellSize (App.renderer (App.app w')))).
Proof.
  induction es as [|e es IH]; intros w Hinv; cbn [App.run].
  - exists w. by repeat (split; [done|]).
  - destruct (handle_ok draws e w Hinv) as (w1 & -> & Hinv1 & Hw1 & Hh1 & Hc1).
    cbn [mbind result_bind].
    destruct (IH w1 Hinv1) as (w' & Hrun & Hinv' & Hw' & Hh' & Hc').
    exists w'. split; [done|]. split; [done|]. split; [congruence|].
    split; [congruence|]. intros Hes Hc. apply Forall_cons in Hes as [He Hes].
    apply Hc'; [done|]. rewrite Hc1. by destruct e.
Qed.

Lemma canvas_dim_small v d : 0 ≤ v ≤ 2147483647 → canvas_dim v d = v.
Proof.
  intros Hv. unfold canvas_dim. rewrite Z.mod_small by lia.
  destruct (Z.leb_spec v 2147483647); [done|lia].
Qed.

Lemma main_ok draws W H :
  0 ≤ W ≤ 2147483647 → 0 ≤ H ≤ 2147483647 →
  ∃ w, App.main draws W H = Ok w ∧ app_inv w ∧
    width (App.life (App.app w)) = W `div` 8 ∧
    height (App.life (App.app w)) = H `div` 8 ∧
    wrap (App.life (App.app w)) = true ∧
    App.running (App.app w) = false ∧
    App.speedMs (App.app w) = 200 ∧
    App.generation (App.app w) = 0 ∧
    App.population (App.app w) = 0 ∧
    Renderer.cellSize (App.renderer (App.app w)) = 8 ∧
    Renderer.canvas_width (App.renderer (App.app w)) = W `div` 8 * 8 ∧
    Renderer.canvas_height (App.renderer (App.app w)) = H `div` 8 * 8 ∧
    Z.of_nat (App.random_pos w) = H `div` 8 * (W `div` 8) ∧
    ∀ x y, 0 ≤ x < W `div` 8 → 0 ≤ y < H `div` 8 →
      cellAt (App.mem w) (cells (App.life (App.app w))) x y =
      drawn draws prob_0_15 (y * (W `div` 8) + x).
Proof.
  intros HW HH.
  assert (Hc : 0 ≤ W `div` 8 * 8 ≤ 2147483647).
  { pose proof (Z.mul_div_le W 8). pose proof (Z.div_pos W 8). lia. }
  assert (Hr : 0 ≤ H `div` 8 * 8 ≤ 2147483647).
  { pose proof (Z.mul_div_le H 8). pose proof (Z.div_pos H 8). lia. }
  destruct (Life_new_ok (W `div` 8) (H `div` 8) true empty_heap)
    as (g & h0 & HL & _ & _ & Hwf0 & _); [unfold MAX_ARRAY_LENGTH; lia..|].
  destruct (randomize_ok draws _ prob_0_15 0 h0 Hwf0) as (k' & h1 & HR & Hwf1 & _ & Hk & Hv).
  cbn [width height cells] in Hk, Hv.
  eexists. split.
  { unfold App.main. cbv zeta. rewrite HL. app_simpl.
    rewrite (draw_ok _ h0 _ Hwf0). app_simpl. rewrite HR. app_simpl.
    rewrite (draw_ok _ h1 _ Hwf1). app_simpl. reflexivity. }
  app_simpl. split; [split|].
  - apply app_base_updateUI; app_simpl; eauto.
  - unfold timer_ok. app_simpl. done.
  - do 7 (split; [done|]). rewrite !canvas_dim_small by done.
    do 3 (split; [done|]). split; [lia|]. intros x y Hx Hy.
    by rewrite (Hv x y Hx Hy).
Qed.

Lemma NoDup_alive_cells c w ht : NoDup (alive_cells c w ht).
Proof.
  destruct (decide (0 ≤ ht)) as [Hht|Hht].
  2: { unfold alive_cells. rewrite (seqZ_nil 0 ht) by lia. constructor. }
  rewrite <- (Z2Nat.id ht Hht). generalize (Z.to_nat ht) as n. clear.
  induction n as [|n IH].
  - unfold alive_cells. cbn. constructor.
  - rewrite Nat2Z.inj_succ, <- Z.add_1_r, alive_cells_next_row by lia.
    apply NoDup_app. split; [done|]. split.
    + intros [x y] Hin Hin2. apply elem_of_alive_cells in Hin as (_ & Hy & _).
      apply list_elem_of_fmap in Hin2 as (x' & [= -> ->] & _). lia.
    + apply NoDup_fmap_2; [by intros x1 x2 [=]|]. apply NoDup_filter, NoDup_seqZ.
Qed.

Lemma page_24_inv : app_inv page_24.
Proof.
  destruct (main_ok sevenths 24 24) as (w & Hm & Hinv & _); [lia..|].
  assert (E : App.main sevenths 24 24 = Ok page_24) by (vm_compute; reflexivity).
  rewrite E in Hm. injection Hm as <-. exact Hinv.
Qed.

Lemma page_24_started_inv : app_inv page_24_started.
Proof.
  destruct (start_ok page_24 page_24_inv) as (w & Hs & Hinv & _).
  assert (E : App.start page_24 = Ok page_24_started) by (vm_compute; reflexivity).
  rewrite E in Hs. injection Hs as <-. exact Hinv.
Qed.

(** ** What the renderer paints *)

(** X11. [draw] on a well-formed engine raises nothing, keeps the size of the
    canvas and the cell size, and adds to the calls already made on the
    context exactly one frame: the canvas cleared and filled with the dead
    colour; then one square in the alive colour for each ALIVE cell of the
    grid and for no other cell, no cell twice, so that their number is the
    population of the grid; then the width + 1 vertical and the height + 1
    horizontal grid lines. *)
Theorem draw_one_frame life h r :
  wf h life → cell_size_ok (Renderer.cellSize r) →
  ∃ r' painted,
    Renderer.draw life h r = Ok r' ∧
    Renderer.canvas_width r' = Renderer.canvas_width r ∧
    Renderer.canvas_height r' = Renderer.canvas_height r ∧
    Renderer.cellSize r' = Renderer.cellSize r ∧
    Renderer.calls r' =
      Renderer.calls r
      ++ [clearRect 0 0 (inject_Z (Renderer.canvas_width r))
                        (inject_Z (Renderer.canvas_height r));
          set_fillStyle deadColor;
          fillRect 0 0 (inject_Z (Renderer.canvas_width r))
                       (inject_Z (Renderer.canvas_height r))]
      ++ flat_map (λ p, cell_square (Renderer.cellSize r) p.1 p.2) painted
      ++ [set_strokeStyle gridColor; set_lineWidth (1 # 2)]
      ++ flat_map (vertical_line (Renderer.cellSize r) (height life))
                  (seqZ 0 (width life + 1))
      ++ flat_map (horizontal_line (Renderer.cellSize r) (width life))
                  (seqZ 0 (height life + 1)) ∧
    NoDup painted ∧
    (∀ x y, (x, y) ∈ painted ↔
       0 ≤ x < width life ∧ 0 ≤ y < height life ∧ cellAt h (cells life) x y = 1) ∧
    Z.of_nat (length painted) = population_of h (cells life) (width life) (height life).
Proof.
  intros Hwf _. rewrite (draw_ok life h r Hwf).
  eexists _, (alive_cells (cellAt h (cells life)) (width life) (height life)).
  split; [done|]. cbn [Renderer.canvas_width Renderer.canvas_height
                       Renderer.cellSize Renderer.calls].
  do 4 (split; [done|]). split; [apply NoDup_alive_cells|].
  split; [intros x y; apply elem_of_alive_cells|]. apply length_alive_cells.
Qed.

Lemma draw_one_frame_witness :
  (wf glider_4x4.2 glider_4x4.1 ∧ cell_size_ok (Renderer.cellSize canvas_32)) ∧
  ∃ r' painted,
    Renderer.draw glider_4x4.1 glider_4x4.2 canvas_32 = Ok r' ∧
    Renderer.canvas_width r' = 32 ∧
    (∀ x y, (x, y) ∈ painted ↔
       0 ≤ x < 4 ∧ 0 ≤ y < 4 ∧ cellAt glider_4x4.2 (cells glider_4x4.1) x y = 1) ∧
    Z.of_nat (length painted) = 5.
Proof.
  assert (Hs : cell_size_ok (Renderer.cellSize canvas_32)) by (unfold cell_size_ok; cbn; lia).
  split; [split; [exact glider_4x4_wf|exact Hs]|].
  destruct (draw_one_frame glider_4x4.1 glider_4x4.2 canvas_32 glider_4x4_wf Hs)
    as (r' & painted & Hd & Hw & _ & _ & _ & _ & Hin & Hlen).
  exists r', painted. split; [exact Hd|]. split; [exact Hw|]. split; [exact Hin|].
  rewrite Hlen. vm_compute. reflexivity.
Defined.

(** ** The application, event after event *)

Lemma run_keeps_cell_size draws es : ∀ w w',
  app_inv w → Forall keeps_cell_size es →
  Renderer.cellSize (App.renderer (App.app w)) ≠ 0 →
  App.run draws es w = Ok w' →
  Renderer.cellSize (App.renderer (App.app w')) ≠ 0.
Proof.
  induction es as [|e es IH]; intros w w' Hinv Hes Hc Hrun; cbn [App.run] in Hrun.
  - by injection Hrun as <-.
  - apply Forall_cons in Hes as [He Hes].
    destruct (handle_ok draws e w Hinv) as (w1 & Hh & Hinv1 & _ & _ & Hc1).
    rewrite Hh in Hrun. cbn [mbind result_bind] in Hrun.
    apply (IH w1 w' Hinv1 Hes); [|done]. rewrite Hc1. by destruct e.
Qed.

(** X12. Once the application is constructed on a canvas of [W] by [H]
    pixels that has a 2d context, on a page that has the elements it looks
    up, whatever clicks, slider inputs and timeouts follow, as long as the
    cell-size slider is never moved to 0, no listener raises an error, the
    engine stays well formed, the cell size stays other than 0, and the grid
    keeps the floor(W/8) columns and floor(H/8) rows it got from the canvas:
    no listener resizes it, the cell-size slider included.  Slider values
    are integers; with a cell size other than 0 the coordinates that
    [xyFromEvent] computes for a click on a canvas that has a box on the
    page are integers too.  At cell size 0 they are NaN and the click
    listener raises a TypeError: that is X26. *)
Theorem app_never_throws draws W H es :
  0 ≤ W ≤ 2147483647 → 0 ≤ H ≤ 2147483647 →
  Forall keeps_cell_size es →
  ∃ w0 w, App.main draws W H = Ok w0 ∧ App.run draws es w0 = Ok w ∧
    wf (App.mem w) (App.life (App.app w)) ∧
    width (App.life (App.app w)) = W `div` 8 ∧
    height (App.life (App.app w)) = H `div` 8 ∧
    Renderer.cellSize (App.renderer (App.app w)) ≠ 0.
Proof.
  intros HW HH Hes.
  destruct (main_ok draws W H HW HH)
    as (w0 & Hm & Hinv0 & Hw0 & Hh0 & _ & _ & _ & _ & _ & Hc0 & _).
  destruct (run_ok draws es w0 Hinv0) as (w & Hr & [Hbase _] & Hw & Hh & _).
  exists w0, w. do 2 (split; [done|]). split; [apply Hbase|].
  do 2 (split; [congruence|]).
  apply (run_keeps_cell_size draws es w0 w Hinv0 Hes); [|done]. by rewrite Hc0.
Qed.

Lemma app_never_throws_witness :
  (0 ≤ 24 ≤ 2147483647 ∧ 0 ≤ 24 ≤ 2147483647 ∧
   Forall keeps_cell_size
     [App.StartClick; App.CanvasClick 1 1; App.Timeout 1; App.CellInput 4;
      App.WrapChange "nowrap"; App.RandomClick; App.StopClick; App.ClearClick;
      App.CanvasClick 7 (-1); App.StepClick]) ∧
  ∃ w0 w, App.main sevenths 24 24 = Ok w0 ∧
    App.run sevenths
      [App.StartClick; App.CanvasClick 1 1; App.Timeout 1; App.CellInput 4;
       App.WrapChange "nowrap"; App.RandomClick; App.StopClick; App.ClearClick;
       App.CanvasClick 7 (-1); App.StepClick] w0 = Ok w ∧
    wf (App.mem w) (App.life (App.app w)) ∧
    width (App.life (App.app w)) = 24 `div` 8 ∧
    height (App.life (App.app w)) = 24 `div` 8 ∧
    Renderer.cellSize (App.renderer (App.app w)) ≠ 0.
Proof.
  assert (Hes : Forall keeps_cell_size
     [App.StartClick; App.CanvasClick 1 1; App.Timeout 1; App.CellInput 4;
      App.WrapChange "nowrap"; App.RandomClick; App.StopClick; App.ClearClick;
      App.CanvasClick 7 (-1); App.StepClick]).
  { repeat first [apply Forall_nil_2 | apply Forall_cons_2]; try exact I.
    unfold keeps_cell_size. lia. }
  split; [split; [lia|split; [lia|exact Hes] ]|].
  apply (app_never_throws sevenths 24 24); [lia|lia|exact Hes].
Defined.

(** X13. At most one timeout is ever pending, and one is pending exactly
    while the application runs: after any events, if [running] is set then
    [animationId] is the identifier of the only pending timeout, and if not
    then [animationId] is null and no timeout is pending.  Clicking Start
    again, or Stop and then Start, never leaves two loops running. *)
Theorem app_single_timeout draws W H es :
  0 ≤ W ≤ 2147483647 → 0 ≤ H ≤ 2147483647 →
  ∃ w0 w, App.main draws W H = Ok w0 ∧ App.run draws es w0 = Ok w ∧
    (App.running (App.app w) = true →
     ∃ id delay, App.animationId (App.app w) = Some id ∧
                 App.timers w = {[id := delay]}) ∧
    (App.running (App.app w) = false →
     App.animationId (App.app w) = None ∧ App.timers w = ∅).
Proof.
  intros HW HH.
  destruct (main_ok draws W H HW HH) as (w0 & Hm & Hinv0 & _).
  destruct (run_ok draws es w0 Hinv0) as (w & Hr & [_ Ht] & _).
  exists w0, w. do 2 (split; [done|]). unfold timer_ok in Ht.
  destruct (App.running (App.app w)); split; intros [=]; done.
Qed.

Lemma app_single_timeout_witness :
  (0 ≤ 24 ≤ 2147483647 ∧ 0 ≤ 24 ≤ 2147483647) ∧
  ∃ w0 w, App.main sevenths 24 24 = Ok w0 ∧
    App.run sevenths
      [App.StartClick; App.StartClick; App.Timeout 1; App.StopClick;
       App.StartClick; App.SpeedInput 50; App.Timeout 1] w0 = Ok w ∧
    (App.running (App.app w) = true →
     ∃ id delay, App.animationId (App.app w) = Some id ∧
                 App.timers w = {[id := delay]}) ∧
    (App.running (App.app w) = false →
     App.animationId (App.app w) = None ∧ App.timers w = ∅).
Proof.
  split; [lia|]. apply (app_single_timeout sevenths 24 24); lia.
Defined.

(** X14. After any events with cell sizes between -2^20 and 2^20, the page
    shows the fields of the application: Start is disabled exactly when it
    runs and Stop exactly when it does not, the four labels hold the
    generation, the [population] field, the speed and the cell size, the
    canvas has the size of the grid in cells of the current size (as an
    unsigned long), and the last calls on its context are one frame of the
    grid as it is now. *)
Theorem app_display_coherent draws W H es :
  0 ≤ W ≤ 2147483647 → 0 ≤ H ≤ 2147483647 → Forall event_ok es →
  ∃ w0 w, App.main draws W H = Ok w0 ∧ App.run draws es w0 = Ok w ∧
    let a := App.app w in
    let e := App.elements a in
    let r := App.renderer a in
    cell_size_ok (Renderer.cellSize r) ∧
    App.startBtn_disabled e = App.running a ∧
    App.stopBtn_disabled e = negb (App.running a) ∧
    App.genEl e = App.generation a ∧
    App.popEl e = App.population a ∧
    App.speedVal e = App.speedMs a ∧
    App.cellVal e = Renderer.cellSize r ∧
    Renderer.canvas_width r = canvas_dim (W `div` 8 * Renderer.cellSize r) 300 ∧
    Renderer.canvas_height r = canvas_dim (H `div` 8 * Renderer.cellSize r) 150 ∧
    ∃ before,
      Renderer.calls r =
      before ++ frame (cellAt (App.mem w) (cells (App.life a)))
                  (W `div` 8) (H `div` 8) (Renderer.cellSize r)
                  (Renderer.canvas_width r) (Renderer.canvas_height r).
Proof.
  intros HW HH Hes.
  destruct (main_ok draws W H HW HH)
    as (w0 & Hm & Hinv0 & Hw0 & Hh0 & _ & _ & _ & _ & _ & Hc0 & _).
  destruct (run_ok draws es w0 Hinv0) as (w & Hr & [Hbase _] & Hw & Hh & Hc).
  exists w0, w. do 2 (split; [done|]). cbv zeta.
  destruct Hbase as (_ & (? & ? & ? & ? & ? & ?) & Hcw & Hch & Hcalls).
  rewrite Hw, Hw0 in Hcw, Hcalls. rewrite Hh, Hh0 in Hch, Hcalls.
  split; [|by repeat (split; [done|])].
  apply Hc; [done|]. rewrite Hc0. unfold cell_size_ok. lia.
Qed.

Lemma app_display_coherent_witness :
  (0 ≤ 24 ≤ 2147483647 ∧ 0 ≤ 24 ≤ 2147483647 ∧
   Forall event_ok [App.CellInput 4; App.StartClick; App.CanvasClick 0 2;
                    App.SpeedInput 50; App.Timeout 1]) ∧
  ∃ w0 w, App.main sevenths 24 24 = Ok w0 ∧
    App.run sevenths [App.CellInput 4; App.StartClick; App.CanvasClick 0 2;
                      App.SpeedInput 50; App.Timeout 1] w0 = Ok w ∧
    let a := App.app w in
    let e := App.elements a in
    let r := App.renderer a in
    cell_size_ok (Renderer.cellSize r) ∧
    App.startBtn_disabled e = App.running a ∧
    App.stopBtn_disabled e = negb (App.running a) ∧
    App.genEl e = App.generation a ∧
    App.popEl e = App.population a ∧
    App.speedVal e = App.speedMs a ∧
    App.cellVal e = Renderer.cellSize r ∧
    Renderer.canvas_width r = canvas_dim (24 `div` 8 * Renderer.cellSize r) 300 ∧
    Renderer.canvas_height r = canvas_dim (24 `div` 8 * Renderer.cellSize r) 150 ∧
    ∃ before,
      Renderer.calls r =
      before ++ frame (cellAt (App.mem w) (cells (App.life a)))
                  (24 `div` 8) (24 `div` 8) (Renderer.cellSize r)
                  (Renderer.canvas_width r) (Renderer.canvas_height r).
Proof.
  assert (Hes : Forall event_ok [App.CellInput 4; App.StartClick; App.CanvasClick 0 2;
                                 App.SpeedInput 50; App.Timeout 1]).
  { repeat first [apply Forall_nil_2 | apply Forall_cons_2]; try exact I.
    unfold event_ok, cell_size_ok. lia. }
  split; [split; [lia|split; [lia|exact Hes] ]|].
  apply (app_display_coherent sevenths 24 24); [lia|lia|exact Hes].
Defined.

Lemma population_pos c w ht x y :
  0 ≤ x < w → 0 ≤ y < ht → c x y = 1 → 0 < population c w ht.
Proof.
  intros Hx Hy Hc. rewrite <- length_alive_cells.
  assert (Hin : (x, y) ∈ alive_cells c w ht) by by apply elem_of_alive_cells.
  destruct (alive_cells c w ht); [by apply elem_of_nil in Hin|]. cbn. lia.
Qed.

Lemma drawn_alive draws prob i :
  drawn draws prob i = 1 ↔ (draws (Z.to_nat i) < prob)%Q.
Proof.
  unfold drawn. destruct (Qlt_le_dec _ _) as [Hlt|Hle]; split; try done.
  intros Hlt. exfalso. by eapply Qlt_not_le.
Qed.

(** X15. When the page is loaded, [W] and [H] being the dimensions of the
    canvas as the application is constructed, the grid is floor(W/8) by
    floor(H/8) with wrap, the cell size is 8 and the canvas is cut down to
    whole cells; the application does not run, no timeout is pending, the
    speed is 200 and the generation 0.  Cell (x, y) is ALIVE exactly when
    draw number
    [y * columns + x] is below 0.15; yet the [population] field and its label
    are 0: they are below the real count as soon as one cell is ALIVE. *)
Theorem page_load draws W H :
  0 ≤ W ≤ 2147483647 → 0 ≤ H ≤ 2147483647 →
  ∃ w, App.main draws W H = Ok w ∧
    let a := App.app w in
    width (App.life a) = W `div` 8 ∧ height (App.life a) = H `div` 8 ∧
    wrap (App.life a) = true ∧
    Renderer.cellSize (App.renderer a) = 8 ∧
    Renderer.canvas_width (App.renderer a) = W `div` 8 * 8 ∧
    Renderer.canvas_height (App.renderer a) = H `div` 8 * 8 ∧
    App.running a = false ∧ App.timers w = ∅ ∧ App.speedMs a = 200 ∧
    App.generation a = 0 ∧ App.population a = 0 ∧
    App.popEl (App.elements a) = 0 ∧
    ∀ x y, 0 ≤ x < W `div` 8 → 0 ≤ y < H `div` 8 →
      (cellAt (App.mem w) (cells (App.life a)) x y = 1 ↔
       (draws (Z.to_nat (y * (W `div` 8) + x)) < prob_0_15)%Q) ∧
      (cellAt (App.mem w) (cells (App.life a)) x y = 1 →
       App.popEl (App.elements a)
       < population_of (App.mem w) (cells (App.life a)) (W `div` 8) (H `div` 8)).
Proof.
  intros HW HH.
  destruct (main_ok draws W H HW HH)
    as (w & Hm & [Hbase Ht] & Hw & Hh & Hwr & Hrun & Hsp & Hgen & Hpop & Hcs & Hcw
        & Hch & _ & Hv).
  exists w. split; [done|]. cbv zeta.
  pose proof Hbase as (_ & (_ & _ & _ & _ & _ & Hlabel) & _).
  do 7 (split; [done|]).
  split; [by destruct (timer_ok_stopped w Ht Hrun)|].
  do 3 (split; [done|]). split; [congruence|].
  intros x y Hx Hy. split.
  - rewrite (Hv x y Hx Hy). apply drawn_alive.
  - intros Hc. rewrite Hlabel, Hpop. by apply (population_pos _ _ _ x y).
Qed.

Lemma page_load_witness :
  (0 ≤ 24 ≤ 2147483647 ∧ 0 ≤ 24 ≤ 2147483647) ∧
  App.main sevenths 24 24 = Ok page_24 ∧
  App.popEl (App.elements (App.app page_24)) = 0 ∧
  0 < population_of (App.mem page_24) (cells (App.life (App.app page_24))) 3 3.
Proof.
  split; [lia|].
  assert (E : App.main sevenths 24 24 = Ok page_24) by (vm_compute; reflexivity).
  split; [exact E|].
  destruct (page_load sevenths 24 24) as (w & Hm & Hrest); [lia..|].
  rewrite E in Hm. injection Hm as <-. cbv zeta in Hrest.
  destruct Hrest as (_ & _ & _ & _ & _ & _ & _ & _ & _ & _ & _ & Hl & Hv).
  split; [exact Hl|].
  change (24 `div` 8) with 3 in Hv.
  destruct (Hv 0 0) as [_ Hlt]; [lia..|].
  rewrite Hl in Hlt. apply Hlt. vm_compute. reflexivity.
Defined.

(** X16. A click on a cell of the canvas flips that cell, so the number of
    ALIVE cells of the grid changes by one, but the listener does not touch
    the [population] field: the population label shows the count of before
    the click, and the generation is unchanged. *)
Theorem click_leaves_population_label x y w :
  app_inv w →
  0 ≤ x < width (App.life (App.app w)) → 0 ≤ y < height (App.life (App.app w)) →
  ∃ w', App.on_click x y w = Ok w' ∧
    population_of (App.mem w') (cells (App.life (App.app w')))
      (width (App.life (App.app w))) (height (App.life (App.app w))) =
    population_of (App.mem w) (cells (App.life (App.app w)))
      (width (App.life (App.app w))) (height (App.life (App.app w)))
    + (if cellAt (App.mem w) (cells (App.life (App.app w))) x y =? 1 then -1 else 1) ∧
    App.population (App.app w') = App.population (App.app w) ∧
    App.popEl (App.elements (App.app w')) = App.population (App.app w) ∧
    App.generation (App.app w') = App.generation (App.app w).
Proof.
  intros Hinv Hx Hy.
  destruct (on_click_ok x y w Hinv) as (w' & Hc & [Hbase' _] & Ht & Hl & Hp & Hg & _).
  pose proof Hinv as [(Hwf & _) _].
  destruct (toggle_inside _ _ x y Hwf Hx Hy) as (h' & Ht' & _ & _ & Hcell).
  rewrite Ht in Ht'. injection Ht' as <-.
  exists w'. split; [done|]. split.
  { rewrite Hl. unfold population_of.
    rewrite (population_update (cellAt (App.mem w) (cells (App.life (App.app w))))
               (cellAt (App.mem w') (cells (App.life (App.app w)))) _ _ x y Hx Hy).
    - rewrite (Hcell x y), bool_decide_true by done.
      destruct (cellAt (App.mem w) (cells (App.life (App.app w))) x y =? 1); cbn; lia.
    - intros x' y' Hne. by rewrite Hcell, bool_decide_false. }
  split; [done|]. split; [|done].
  destruct Hbase' as (_ & (_ & _ & _ & _ & _ & Hlabel) & _). congruence.
Qed.

Lemma click_leaves_population_label_witness :
  (app_inv page_24 ∧
   0 ≤ 1 < width (App.life (App.app page_24)) ∧
   0 ≤ 1 < height (App.life (App.app page_24))) ∧
  ∃ w', App.on_click 1 1 page_24 = Ok w' ∧
    population_of (App.mem w') (cells (App.life (App.app w'))) 3 3 = 5 ∧
    App.popEl (App.elements (App.app w')) = 0.
Proof.
  assert (Hx : 0 ≤ 1 < width (App.life (App.app page_24))) by (cbn; lia).
  assert (Hy : 0 ≤ 1 < height (App.life (App.app page_24))) by (cbn; lia).
  split; [split; [exact page_24_inv|split; [exact Hx|exact Hy] ]|].
  destruct (click_leaves_population_label 1 1 page_24 page_24_inv Hx Hy)
    as (w' & Hc & Hpop & _ & Hl & _).
  exists w'. split; [exact Hc|]. split.
  - change (width (App.life (App.app page_24))) with 3 in Hpop.
    change (height (App.life (App.app page_24))) with 3 in Hpop.
    rewrite Hpop. vm_compute. reflexivity.
  - rewrite Hl. reflexivity.
Defined.

(** X17. Step while the application is stopped advances the engine by one
    generation: every cell follows the rule of the game, the generation
    counter goes up by one, the [population] field and its label become the
    real number of ALIVE cells of the new grid, and no timeout is scheduled.
    While the application runs, Step does nothing. *)
Theorem step_click w :
  app_inv w →
  (App.running (App.app w) = true → App.step w = Ok w) ∧
  (App.running (App.app w) = false →
   ∃ w', App.step w = Ok w' ∧
     App.generation (App.app w') = App.generation (App.app w) + 1 ∧
     App.genEl (App.elements (App.app w')) = App.generation (App.app w) + 1 ∧
     App.population (App.app w') =
       population_of (App.mem w') (cells (App.life (App.app w')))
         (width (App.life (App.app w))) (height (App.life (App.app w))) ∧
     App.popEl (App.elements (App.app w')) = App.population (App.app w') ∧
     (∀ x y, 0 ≤ x < width (App.life (App.app w)) →
             0 ≤ y < height (App.life (App.app w)) →
        cellAt (App.mem w') (cells (App.life (App.app w'))) x y =
        rule (cellAt (App.mem w) (cells (App.life (App.app w))))
          (wrap (App.life (App.app w)))
          (width (App.life (App.app w))) (height (App.life (App.app w))) x y) ∧
     App.running (App.app w') = false ∧ App.timers w' = ∅).
Proof.
  intros Hinv.
  destruct (step_ok w Hinv) as (w' & Hs & [Hbase' Ht'] & Hsame & Hstep).
  split.
  - intros Hrun. by rewrite <- (Hsame Hrun) at 2.
  - intros Hrun. destruct (Hstep Hrun) as [Hst Hts]. exists w'. split; [done|].
    unfold stepped in Hst. cbv zeta in Hst.
    destruct Hst as (Hgen & _ & _ & _ & _ & _ & _ & _ & Hpop & Hrule).
    destruct Hbase' as (_ & (_ & _ & _ & _ & Hg & Hp) & _).
    split; [done|]. split; [congruence|]. do 3 (split; [done|]).
    split; [|done]. unfold timer_ok in Ht'.
    destruct (App.running (App.app w')); [|done].
    destruct Ht' as (id & d & _ & Hne). rewrite Hts in Hne.
    exfalso. by eapply (insert_non_empty (M := gmap positive)).
Qed.

Lemma step_click_witness :
  app_inv page_24 ∧
  (App.running (App.app page_24_started) = true →
   App.step page_24_started = Ok page_24_started) ∧
  ∃ w', App.step page_24 = Ok w' ∧
    App.generation (App.app w') = 1 ∧ App.timers w' = ∅.
Proof.
  split; [exact page_24_inv|]. split.
  - exact (proj1 (step_click page_24_started page_24_started_inv)).
  - destruct (proj2 (step_click page_24 page_24_inv) eq_refl)
      as (w' & Hs & Hg & _ & _ & _ & _ & _ & Hts).
    exists w'. split; [exact Hs|]. split; [exact Hg|exact Hts].
Defined.

(** X18. Start while the application is stopped computes and draws one
    generation at once, then schedules exactly one timeout, with the current
    speed as its delay; Start becomes disabled and Stop enabled.  A second
    click on Start changes nothing.  The last calls on the context of the
    canvas are one frame of the new grid (the cell size being in the range
    of exact coordinates). *)
Theorem start_click w :
  app_inv w → App.running (App.app w) = false →
  ∃ w' id, App.start w = Ok w' ∧
    App.running (App.app w') = true ∧
    App.startBtn_disabled (App.elements (App.app w')) = true ∧
    App.stopBtn_disabled (App.elements (App.app w')) = false ∧
    App.generation (App.app w') = App.generation (App.app w) + 1 ∧
    (∀ x y, 0 ≤ x < width (App.life (App.app w)) →
            0 ≤ y < height (App.life (App.app w)) →
       cellAt (App.mem w') (cells (App.life (App.app w'))) x y =
       rule (cellAt (App.mem w) (cells (App.life (App.app w))))
         (wrap (App.life (App.app w)))
         (width (App.life (App.app w))) (height (App.life (App.app w))) x y) ∧
    App.animationId (App.app w') = Some id ∧
    App.timers w' = {[id := App.speedMs (App.app w)]} ∧
    App.start w' = Ok w' ∧
    (cell_size_ok (Renderer.cellSize (App.renderer (App.app w))) →
     ∃ before,
       Renderer.calls (App.renderer (App.app w')) =
       before ++ frame (cellAt (App.mem w') (cells (App.life (App.app w'))))
                   (width (App.life (App.app w'))) (height (App.life (App.app w')))
                   (Renderer.cellSize (App.renderer (App.app w')))
                   (Renderer.canvas_width (App.renderer (App.app w')))
                   (Renderer.canvas_height (App.renderer (App.app w')))).
Proof.
  intros Hinv Hrun.
  destruct (start_ok w Hinv) as (w' & Hs & [Hbase' _] & Hrun' & _ & Hstep).
  destruct (Hstep Hrun) as (Hst & id & Haid & Hts).
  exists w', id. split; [done|]. split; [done|].
  unfold stepped in Hst. cbv zeta in Hst.
  destruct Hst as (Hgen & _ & _ & _ & _ & _ & _ & _ & _ & Hrule).
  destruct Hbase' as (_ & (Hb1 & Hb2 & _) & _ & _ & Hcalls).
  split; [congruence|]. split; [by rewrite Hb2, Hrun'|].
  do 4 (split; [done|]).
  split; [unfold App.start; cbv zeta; by rewrite Hrun'|]. intros _. exact Hcalls.
Qed.

Lemma start_click_witness :
  (app_inv page_24 ∧ App.running (App.app page_24) = false) ∧
  ∃ w' id, App.start page_24 = Ok w' ∧
    App.running (App.app w') = true ∧
    App.timers w' = {[id := 200]} ∧
    App.start w' = Ok w'.
Proof.
  split; [split; [exact page_24_inv|reflexivity]|].
  destruct (start_click page_24 page_24_inv eq_refl)
    as (w' & id & Hs & Hr & _ & _ & _ & _ & _ & Hts & Hagain & _).
  exists w', id. split; [exact Hs|]. split; [exact Hr|]. split; [exact Hts|exact Hagain].
Defined.

(** X19. Stop leaves the application stopped with no timeout pending and
    [animationId] null, Start enabled and Stop disabled; it touches neither
    the grid nor the counters.  Stop twice is Stop once, and a timeout that
    expires after Stop runs nothing. *)
Theorem stop_click w :
  app_inv w →
  App.running (App.app (App.stop w)) = false ∧
  App.timers (App.stop w) = ∅ ∧
  App.animationId (App.app (App.stop w)) = None ∧
  App.startBtn_disabled (App.elements (App.app (App.stop w))) = false ∧
  App.stopBtn_disabled (App.elements (App.app (App.stop w))) = true ∧
  App.mem (App.stop w) = App.mem w ∧
  App.life (App.app (App.stop w)) = App.life (App.app w) ∧
  App.generation (App.app (App.stop w)) = App.generation (App.app w) ∧
  App.population (App.app (App.stop w)) = App.population (App.app w) ∧
  App.stop (App.stop w) = App.stop w ∧
  ∀ id, App.on_timeout id (App.stop w) = Ok (App.stop w).
Proof.
  intros Hinv.
  destruct (stop_ok w Hinv)
    as ([Hbase' _] & Hrun & Hts & Haid & Hmem & Hlife & _ & Hgen & Hpop & _).
  destruct Hbase' as (_ & (Hb1 & Hb2 & _) & _).
  do 3 (split; [done|]). split; [congruence|]. split; [by rewrite Hb2, Hrun|].
  do 4 (split; [done|]). split.
  - destruct w as [h [life r aid run speed gen pop els] ts k].
    unfold App.stop. app_simpl. by destruct aid.
  - intros id. unfold App.on_timeout. by rewrite Hts, lookup_empty.
Qed.

Lemma stop_click_witness :
  app_inv page_24_started ∧
  App.running (App.app (App.stop page_24_started)) = false ∧
  App.timers (App.stop page_24_started) = ∅ ∧
  App.on_timeout 1 (App.stop page_24_started) = Ok (App.stop page_24_started).
Proof.
  split; [exact page_24_started_inv|].
  destruct (stop_click page_24_started page_24_started_inv)
    as (Hr & Hts & _ & _ & _ & _ & _ & _ & _ & _ & Hto).
  split; [exact Hr|]. split; [exact Hts|exact (Hto 1%positive)].
Defined.

(** X20. While the application runs, the pending timeout is the one of
    [animationId]; when it expires one generation is computed and drawn and
    exactly one new timeout is scheduled, with the speed of that moment as
    its delay, so the loop goes on.  An identifier that is not pending runs
    nothing.  The last calls on the context of the canvas are one frame of
    the new grid (the cell size being in the range of exact coordinates). *)
Theorem timeout_tick w :
  app_inv w → App.running (App.app w) = true →
  ∃ id delay w' id',
    App.animationId (App.app w) = Some id ∧ App.timers w = {[id := delay]} ∧
    App.on_timeout id w = Ok w' ∧
    App.generation (App.app w') = App.generation (App.app w) + 1 ∧
    (∀ x y, 0 ≤ x < width (App.life (App.app w)) →
            0 ≤ y < height (App.life (App.app w)) →
       cellAt (App.mem w') (cells (App.life (App.app w'))) x y =
       rule (cellAt (App.mem w) (cells (App.life (App.app w))))
         (wrap (App.life (App.app w)))
         (width (App.life (App.app w))) (height (App.life (App.app w))) x y) ∧
    App.running (App.app w') = true ∧
    App.animationId (App.app w') = Some id' ∧
    App.timers w' = {[id' := App.speedMs (App.app w)]} ∧
    (∀ id2, id2 ≠ id → App.on_timeout id2 w = Ok w) ∧
    (cell_size_ok (Renderer.cellSize (App.renderer (App.app w))) →
     ∃ before,
       Renderer.calls (App.renderer (App.app w')) =
       before ++ frame (cellAt (App.mem w') (cells (App.life (App.app w'))))
                   (width (App.life (App.app w'))) (height (App.life (App.app w')))
                   (Renderer.cellSize (App.renderer (App.app w')))
                   (Renderer.canvas_width (App.renderer (App.app w')))
                   (Renderer.canvas_height (App.renderer (App.app w')))).
Proof.
  intros Hinv Hrun. pose proof Hinv as [_ Ht]. unfold timer_ok in Ht.
  rewrite Hrun in Ht. destruct Ht as (id & delay & Haid & Hts).
  destruct (on_timeout_ok id w Hinv) as (w' & Hto & [Hbase' _] & _ & Hstep).
  destruct Hstep as (Hst & Hrun' & id' & Haid' & Hts').
  { rewrite Hts, lookup_singleton_eq. by eexists. }
  unfold stepped in Hst. cbv zeta in Hst.
  destruct Hst as (Hgen & _ & _ & _ & _ & _ & _ & _ & _ & Hrule).
  destruct Hbase' as (_ & _ & _ & _ & Hcalls).
  exists id, delay, w', id'. do 8 (split; [done|]). split.
  - intros id2 Hne. unfold App.on_timeout.
    by rewrite Hts, lookup_singleton_ne.
  - intros _. exact Hcalls.
Qed.

Lemma timeout_tick_witness :
  (app_inv page_24_started ∧ App.running (App.app page_24_started) = true) ∧
  ∃ id delay w' id',
    App.timers page_24_started = {[id := delay]} ∧
    App.on_timeout id page_24_started = Ok w' ∧
    App.generation (App.app w') = 2 ∧
    App.timers w' = {[id' := 200]}.
Proof.
  split; [split; [exact page_24_started_inv|reflexivity]|].
  destruct (timeout_tick page_24_started page_24_started_inv eq_refl)
    as (id & delay & w' & id' & _ & Hts & Hto & Hg & _ & _ & _ & Hts' & _).
  exists id, delay, w', id'.
  split; [exact Hts|]. split; [exact Hto|]. split; [exact Hg|exact Hts'].
Defined.

(** X21. Moving the speed slider changes [speedMs] and its label at once but
    not the timeout that is pending: that one keeps the delay it was
    scheduled with, and the new speed is the delay of the timeout scheduled
    when it expires. *)
Theorem speed_applies_from_next_tick v w :
  app_inv w → App.running (App.app w) = true →
  ∃ id delay w' id',
    App.timers w = {[id := delay]} ∧
    App.timers (App.on_speed v w) = {[id := delay]} ∧
    App.speedMs (App.app (App.on_speed v w)) = v ∧
    App.speedVal (App.elements (App.app (App.on_speed v w))) = v ∧
    App.on_timeout id (App.on_speed v w) = Ok w' ∧
    App.generation (App.app w') = App.generation (App.app w) + 1 ∧
    App.timers w' = {[id' := v]}.
Proof.
  intros Hinv Hrun.
  destruct (on_speed_ok v w Hinv)
    as (Hinv1 & Hsp & Hlab & Hts1 & _ & _ & _ & Hrun1 & _).
  pose proof Hinv as [_ Ht]. unfold timer_ok in Ht.
  rewrite Hrun in Ht. destruct Ht as (id & delay & _ & Hts).
  destruct (on_timeout_ok id (App.on_speed v w) Hinv1) as (w' & Hto & _ & _ & Hstep).
  destruct Hstep as (Hst & _ & id' & _ & Hts').
  { rewrite Hts1, Hts, lookup_singleton_eq. by eexists. }
  unfold stepped in Hst. cbv zeta in Hst. destruct Hst as (Hgen & _).
  exists id, delay, w', id'. split; [done|]. split; [congruence|].
  do 3 (split; [done|]). split; [exact Hgen|]. by rewrite <- Hsp.
Qed.

Lemma speed_applies_from_next_tick_witness :
  (app_inv page_24_started ∧ App.running (App.app page_24_started) = true) ∧
  ∃ id w' id',
    App.timers (App.on_speed 50 page_24_started) = {[id := 200]} ∧
    App.on_timeout id (App.on_speed 50 page_24_started) = Ok w' ∧
    App.timers w' = {[id' := 50]}.
Proof.
  split; [split; [exact page_24_started_inv|reflexivity]|].
  destruct (speed_applies_from_next_tick 50 page_24_started page_24_started_inv eq_refl)
    as (id & delay & w' & id' & Hts & Hts1 & _ & _ & Hto & _ & Hts').
  assert (Hd : delay = 200).
  { assert (Hl : App.timers page_24_started !! id = Some delay)
      by (rewrite Hts; apply lookup_singleton_eq).
    assert (Hid : id = 1%positive).
    { destruct (decide (id = 1%positive)) as [E|E]; [exact E|].
      assert (Hn : App.timers page_24_started !! id = None).
      { change (App.timers page_24_started) with ({[1%positive := 200]} : gmap positive Z).
        by apply lookup_singleton_ne. }
      rewrite Hn in Hl. discriminate Hl. }
    rewrite Hid in Hl. vm_compute in Hl. by injection Hl as <-. }
  exists id, w', id'. rewrite <- Hd. split; [exact Hts1|]. split; [exact Hto|exact Hts'].
Defined.

(** X22. Clear sets the generation and the population, and their labels,
    to 0 and leaves every cell of the grid DEAD, without changing its
    dimensions or its wrap mode.  It does not stop the application: [running]
    and the pending timeout are as before, so a running loop goes on from the
    empty grid. *)
Theorem clear_click w :
  app_inv w →
  ∃ w', App.on_clear w = Ok w' ∧
    App.generation (App.app w') = 0 ∧ App.population (App.app w') = 0 ∧
    App.genEl (App.elements (App.app w')) = 0 ∧
    App.popEl (App.elements (App.app w')) = 0 ∧
    (∀ x y, cellAt (App.mem w') (cells (App.life (App.app w'))) x y = 0) ∧
    width (App.life (App.app w')) = width (App.life (App.app w)) ∧
    height (App.life (App.app w')) = height (App.life (App.app w)) ∧
    wrap (App.life (App.app w')) = wrap (App.life (App.app w)) ∧
    App.running (App.app w') = App.running (App.app w) ∧
    App.animationId (App.app w') = App.animationId (App.app w) ∧
    App.timers w' = App.timers w.
Proof.
  intros Hinv.
  destruct (on_clear_ok w Hinv)
    as (w' & Hc & [Hbase' _] & Hgen & Hpop & Hz & Hrun & Haid & Hts & _ & Hw & Hh & Hwr & _).
  destruct Hbase' as (_ & (_ & _ & _ & _ & Hg & Hp) & _).
  exists w'. do 3 (split; [done|]). split; [congruence|]. split; [congruence|].
  by repeat (split; [done|]).
Qed.

Lemma clear_click_witness :
  app_inv page_24_started ∧
  ∃ w', App.on_clear page_24_started = Ok w' ∧
    App.generation (App.app w') = 0 ∧
    (∀ x y, cellAt (App.mem w') (cells (App.life (App.app w'))) x y = 0) ∧
    App.running (App.app w') = true.
Proof.
  split; [exact page_24_started_inv|].
  destruct (clear_click page_24_started page_24_started_inv)
    as (w' & Hc & Hg & _ & _ & _ & Hz & _ & _ & _ & Hr & _).
  exists w'. split; [exact Hc|]. split; [exact Hg|]. split; [exact Hz|exact Hr].
Defined.

(** X23. Random redraws every cell with probability 0.25 from the next
    width times height draws, in row-major order, and sets the generation to
    0; it leaves the [population] field and its label as they were, and it
    does not stop a running application. *)
Theorem random_click draws w :
  app_inv w →
  ∃ w', App.on_random draws w = Ok w' ∧
    App.generation (App.app w') = 0 ∧
    App.genEl (App.elements (App.app w')) = 0 ∧
    App.population (App.app w') = App.population (App.app w) ∧
    App.popEl (App.elements (App.app w')) = App.population (App.app w) ∧
    App.life (App.app w') = App.life (App.app w) ∧
    App.running (App.app w') = App.running (App.app w) ∧
    App.timers w' = App.timers w ∧
    Z.of_nat (App.random_pos w') =
      Z.of_nat (App.random_pos w)
      + height (App.life (App.app w)) * width (App.life (App.app w)) ∧
    ∀ x y, 0 ≤ x < width (App.life (App.app w)) →
           0 ≤ y < height (App.life (App.app w)) →
      (cellAt (App.mem w') (cells (App.life (App.app w))) x y = 1 ↔
       (draws (Z.to_nat (Z.of_nat (App.random_pos w)
                         + y * width (App.life (App.app w)) + x)) < 1 # 4)%Q) ∧
      (cellAt (App.mem w') (cells (App.life (App.app w))) x y = 0 ↔
       (1 # 4 <= draws (Z.to_nat (Z.of_nat (App.random_pos w)
                                  + y * width (App.life (App.app w)) + x)))%Q).
Proof.
  intros Hinv.
  destruct (on_random_ok draws w Hinv)
    as (w' & Hr & [Hbase' _] & Hgen & Hpop & Hl & Hrun & _ & Hts & _ & Hk & Hv).
  destruct Hbase' as (_ & (_ & _ & _ & _ & Hg & Hp) & _).
  exists w'. do 2 (split; [done|]). split; [congruence|]. split; [done|].
  split; [congruence|]. do 4 (split; [done|]).
  intros x y Hx Hy. rewrite (Hv x y Hx Hy). unfold drawn.
  destruct (Qlt_le_dec _ _) as [Hlt|Hle]; split; split; try done.
  - intros Hle. exfalso. by eapply Qlt_not_le.
  - intros Hlt. exfalso. by eapply Qlt_not_le.
Qed.

Lemma random_click_witness :
  app_inv page_24 ∧
  ∃ w', App.on_random sevenths page_24 = Ok w' ∧
    App.generation (App.app w') = 0 ∧
    App.popEl (App.elements (App.app w')) = 0 ∧
    App.random_pos w' = 18%nat.
Proof.
  split; [exact page_24_inv|].
  destruct (random_click sevenths page_24 page_24_inv)
    as (w' & Hr & Hg & _ & _ & Hp & _ & _ & _ & Hk & _).
  exists w'. split; [exact Hr|]. split; [exact Hg|]. split; [exact Hp|].
  apply Nat2Z.inj. rewrite Hk. reflexivity.
Defined.

(** X24. Moving the cell-size slider to an integer [s] between -2^20 and
    2^20 resizes the canvas to the grid in cells of size [s] (as unsigned
    longs: the product itself when it is between 0 and 2^31 - 1), which
    clears it, and draws one frame of the grid at that size; the label shows
    [s].  The grid, the counters, [running] and the pending timeout are
    untouched. *)
Theorem cell_size_input s w :
  app_inv w → cell_size_ok s →
  ∃ w', App.on_cell s w = Ok w' ∧
    App.mem w' = App.mem w ∧ App.life (App.app w') = App.life (App.app w) ∧
    App.generation (App.app w') = App.generation (App.app w) ∧
    App.population (App.app w') = App.population (App.app w) ∧
    App.running (App.app w') = App.running (App.app w) ∧
    App.timers w' = App.timers w ∧
    App.cellVal (App.elements (App.app w')) = s ∧
    Renderer.cellSize (App.renderer (App.app w')) = s ∧
    Renderer.canvas_width (App.renderer (App.app w'))
      = canvas_dim (width (App.life (App.app w)) * s) 300 ∧
    Renderer.canvas_height (App.renderer (App.app w'))
      = canvas_dim (height (App.life (App.app w)) * s) 150 ∧
    (0 ≤ width (App.life (App.app w)) * s ≤ 2147483647 →
     Renderer.canvas_width (App.renderer (App.app w'))
       = width (App.life (App.app w)) * s) ∧
    (0 ≤ height (App.life (App.app w)) * s ≤ 2147483647 →
     Renderer.canvas_height (App.renderer (App.app w'))
       = height (App.life (App.app w)) * s) ∧
    Renderer.calls (App.renderer (App.app w')) =
      frame (cellAt (App.mem w) (cells (App.life (App.app w))))
        (width (App.life (App.app w))) (height (App.life (App.app w))) s
        (Renderer.canvas_width (App.renderer (App.app w')))
        (Renderer.canvas_height (App.renderer (App.app w'))).
Proof.
  intros Hinv _.
  destruct (on_cell_ok s w Hinv)
    as (w' & Hc & _ & Hmem & Hl & Hts & Hrun & Hgen & Hpop & Hlab & Hcs & Hcw & Hch
        & Hcalls).
  exists w'. split; [done|]. split; [done|]. split; [done|].
  do 2 (split; [done|]). do 6 (split; [done|]).
  split; [intros Hr; by rewrite Hcw, canvas_dim_small|].
  split; [intros Hr; by rewrite Hch, canvas_dim_small|].
  by rewrite Hcw, Hch.
Qed.

Lemma cell_size_input_witness :
  (app_inv page_24 ∧ cell_size_ok 4) ∧
  ∃ w', App.on_cell 4 page_24 = Ok w' ∧
    App.life (App.app w') = App.life (App.app page_24) ∧
    Renderer.canvas_width (App.renderer (App.app w')) = 12 ∧
    Renderer.canvas_height (App.renderer (App.app w')) = 12.
Proof.
  assert (Hs : cell_size_ok 4) by (unfold cell_size_ok; lia).
  split; [split; [exact page_24_inv|exact Hs]|].
  destruct (cell_size_input 4 page_24 page_24_inv Hs)
    as (w' & Hc & _ & Hl & _ & _ & _ & _ & _ & _ & Hcw & Hch & _).
  exists w'. split; [exact Hc|]. split; [exact Hl|].
  split; [rewrite Hcw|rewrite Hch]; reflexivity.
Defined.

(** X25. Changing the wrap selector sets the wrap mode of the engine exactly
    when the selected value is the string wrap; it changes neither the grid
    nor the canvas, which is not redrawn.  The next generation is computed
    with the new mode. *)
Theorem wrap_change v w :
  app_inv w → App.running (App.app w) = false →
  (wrap (App.life (App.app (App.on_wrap v w))) = true ↔ v = "wrap") ∧
  App.mem (App.on_wrap v w) = App.mem w ∧
  cells (App.life (App.app (App.on_wrap v w))) = cells (App.life (App.app w)) ∧
  App.renderer (App.app (App.on_wrap v w)) = App.renderer (App.app w) ∧
  ∃ w', App.step (App.on_wrap v w) = Ok w' ∧
    ∀ x y, 0 ≤ x < width (App.life (App.app w)) →
           0 ≤ y < height (App.life (App.app w)) →
      cellAt (App.mem w') (cells (App.life (App.app w'))) x y =
      rule (cellAt (App.mem w) (cells (App.life (App.app w))))
        (String.eqb v "wrap")
        (width (App.life (App.app w))) (height (App.life (App.app w))) x y.
Proof.
  intros Hinv Hrun.
  destruct (on_wrap_ok v w Hinv)
    as (Hinv1 & Hwr & Hmem & Hcells & Hw & Hh & Hren & _ & Hrun1 & _).
  split; [rewrite Hwr; apply String.eqb_eq|]. do 3 (split; [done|]).
  destruct (step_ok (App.on_wrap v w) Hinv1) as (w' & Hs & _ & _ & Hstep).
  destruct Hstep as [Hst _]; [congruence|].
  exists w'. split; [done|]. unfold stepped in Hst. cbv zeta in Hst.
  destruct Hst as (_ & _ & _ & _ & _ & _ & _ & _ & _ & Hrule).
  rewrite Hw, Hh, Hwr, Hmem, Hcells in Hrule. exact Hrule.
Qed.

Lemma wrap_change_witness :
  (app_inv page_24 ∧ App.running (App.app page_24) = false) ∧
  wrap (App.life (App.app (App.on_wrap "nowrap" page_24))) = false ∧
  ∃ w', App.step (App.on_wrap "nowrap" page_24) = Ok w' ∧
    cellAt (App.mem w') (cells (App.life (App.app w'))) 0 0 = 0 ∧
    cellAt (App.mem w') (cells (App.life (App.app w'))) 1 1 = 0.
Proof.
  split; [split; [exact page_24_inv|reflexivity]|]. split; [reflexivity|].
  destruct (wrap_change "nowrap" page_24 page_24_inv eq_refl)
    as (_ & _ & _ & _ & w' & Hs & Hrule).
  exists w'. split; [exact Hs|].
  split; rewrite Hrule by (cbn; lia); vm_compute; reflexivity.
Defined.


